(** * CPU miner orchestration (cpuminer.go): a shallow embedding

    The development follows the source file top-down: machine integers and
    the wire data the miner touches, the block submission gate, the solution
    validator with its staleness test, the nested nonce search, the
    supervisor operations and the worker pool controller.  Everything the
    miner calls outside of cpuminer.go (hashing, the equihash solver and
    verifier, header serialisation, the consensus processor, clocks and
    channels readiness) enters either through the [External] interface or
    through explicit per-call environment inputs. *)

From stdpp Require Import base numbers list option gmap.

Local Open Scope Z_scope.

(** ** Fixed-width integers *)

Module Word.

Definition wrap (w : Z) (x : Z) : Z := x mod 2 ^ w.

(** uint8, uint32, uint64 arithmetic results. *)
Definition u8 (x : Z) : Z := wrap 8 x.
Definition u32 (x : Z) : Z := wrap 32 x.
Definition u64 (x : Z) : Z := wrap 64 x.

(** Conversions to signed types: int32(x), int64(x). *)
Definition i32 (x : Z) : Z := (x + 2 ^ 31) mod 2 ^ 32 - 2 ^ 31.
Definition i64 (x : Z) : Z := (x + 2 ^ 63) mod 2 ^ 64 - 2 ^ 63.

Definition is_u32 (x : Z) : Prop := 0 <= x < 2 ^ 32.
Definition is_i32 (x : Z) : Prop := - 2 ^ 31 <= x < 2 ^ 31.

End Word.

(** ** Constants of cpuminer.go *)

(** [maxNonce = ^uint32(0)], [maxExtraNonce = ^uint64(0)]. *)
Definition maxNonce : Z := 2 ^ 32 - 1.
Definition maxExtraNonce : Z := 2 ^ 64 - 1.
Definition hpsUpdateSecs : Z := 10.
Definition hashUpdateSecs : Z := 15.
Definition maxSimnetToMine : Z := 4.

(** ** Wire data

    Bytes are 8-bit integers, hashes are byte strings.  A header keeps the
    fields cpuminer.go reads or writes; the rest of the wire header only
    matters through [BlockHash] and [SerializeAllHeaderBytes]. *)

Definition byte := Z.
Definition Hash := list byte.

(** time.Time and time.Duration, in nanoseconds. *)
Definition Time := Z.
Definition Second : Z := 1000000000.

Record TxOut := mkTxOut { Value : Z }.
Record MsgTx := mkMsgTx { TxOuts : list TxOut }.

Record BlockHeader := mkHeader {
  PrevBlock : Hash;
  Bits : Z;
  Timestamp : Time;
  Nonce : Z;
  ExtraData : list byte;
  EquihashSolution : list byte
}.

Record MsgBlock := mkBlock {
  Header : BlockHeader;
  Transactions : list MsgTx
}.

Definition set_EquihashSolution (h : BlockHeader) (s : list byte) : BlockHeader :=
  mkHeader (PrevBlock h) (Bits h) (Timestamp h) (Nonce h) (ExtraData h) s.

Definition set_ExtraData (h : BlockHeader) (e : list byte) : BlockHeader :=
  mkHeader (PrevBlock h) (Bits h) (Timestamp h) (Nonce h) e (EquihashSolution h).

Definition set_Nonce (h : BlockHeader) (n : Z) : BlockHeader :=
  mkHeader (PrevBlock h) (Bits h) (Timestamp h) n (ExtraData h) (EquihashSolution h).

Definition set_Header (b : MsgBlock) (h : BlockHeader) : MsgBlock :=
  mkBlock h (Transactions b).

(** Go's builtin [copy(dst, src)]: the first min(len dst, len src) elements of
    [dst] are overwritten, the length of [dst] is kept. *)
Definition copy (dst src : list byte) : list byte :=
  take (length dst) src ++ drop (length src) dst.

(** [l[i]] for an integer index: [None] is the index-out-of-range panic. *)
Definition index {A : Type} (l : list A) (i : Z) : option A :=
  if (0 <=? i) && (i <? Z.of_nat (length l)) then l !! Z.to_nat i else None.

(** The [k] low bytes of [v], least significant first. *)
Fixpoint le_bytes (k : nat) (v : Z) : list byte :=
  match k with
  | O => []
  | S k' => Z.land v 255 :: le_bytes k' (Z.shiftr v 8)
  end.

(** [littleEndian.PutUint64(b, v)] on a fixed-size array of at least eight
    bytes (ExtraData is such an array): bytes 0..7 are overwritten. *)
Definition PutUint64 (b : list byte) (v : Z) : list byte :=
  copy b (le_bytes 8 v).

(** ** External collaborators *)

(** blockchain.RuleError carries an error code; the only code cpuminer.go
    inspects is ErrHighHash. *)
Inductive ErrorCode := ErrHighHash | ErrOtherRule (code : Z).

Inductive error :=
  | RuleError (code : ErrorCode)
  | OtherError.

(** What [blockManager.ProcessBlock] hands back: [(isOrphan, err)]. *)
Record ProcessResult := mkProcess {
  isOrphan : bool;
  perr : option error
}.

(** Pure functions of the packages cpuminer.go imports, and the chain
    parameters it reads. *)
Class External (Solution : Type) := {
  ExtractSolution : Z -> Z -> Solution -> list byte;
  ValidateEquihash : Z -> Z -> list byte -> Z -> list byte -> bool;
  BlockHash : BlockHeader -> Hash;
  HashToBig : Hash -> Z;
  CompactToBig : Z -> Z;
  SerializeAllHeaderBytes : BlockHeader -> list byte * option error;
  paramN : Z;
  paramK : Z;
  ReduceMinDifficulty : bool;
  (** uint32(chaincfg.CPUMinerThreads) *)
  defaultNumWorkers : Z;
  defaultNumWorkers_u32 : Word.is_u32 defaultNumWorkers
}.

(** ** Logging *)

Inductive LogLine :=
  | LogUnexpected                       (* Errorf: unexpected error *)
  | LogReduceMinDifficulty              (* Debugf: time sync failure *)
  | LogRejected                         (* Errorf: rule violation *)
  | LogOrphan (parent : Hash)           (* Errorf: orphan *)
  | LogAccepted (amount : Z).           (* Infof: accepted *)

Inductive Level := Errorf | Debugf | Infof.

Definition level (l : LogLine) : Level :=
  match l with
  | LogUnexpected => Errorf
  | LogReduceMinDifficulty => Debugf
  | LogRejected => Errorf
  | LogOrphan _ => Errorf
  | LogAccepted _ => Infof
  end.

(** ** Block submission gate *)

Section Submit.
Context {Solution : Type} `{!External Solution}.

(** The loop [for _, out := range coinbaseTxOuts] over int64 values. *)
Definition coinbaseTxGenerated (outs : list TxOut) : Z :=
  fold_left (fun acc out => Word.i64 (acc + Value out)) outs 0.

(** [submitBlock]: the boolean it returns and the line it logs.  [None] is
    the run-time panic of indexing [Transactions[0]] on a block without
    transactions, which only the accepted path can reach. *)
Definition submitBlock (block : MsgBlock) (r : ProcessResult)
  : option (bool * LogLine) :=
  match perr r with
  | Some e =>
      match e with
      | OtherError => Some (false, LogUnexpected)
      | RuleError code =>
          if ReduceMinDifficulty &&
             (match code with ErrHighHash => true | _ => false end)
          then Some (false, LogReduceMinDifficulty)
          else Some (false, LogRejected)
      end
  | None =>
      if isOrphan r
      then Some (false, LogOrphan (PrevBlock (Header block)))
      else
        match Transactions block with
        | [] => None
        | coinbase :: _ =>
            Some (true, LogAccepted (coinbaseTxGenerated (TxOuts coinbase)))
        end
  end.

(** The consensus processor accepted the block and connected it: no error,
    not an orphan. *)
Definition accepted_connected (r : ProcessResult) : bool :=
  match perr r with
  | None => negb (isOrphan r)
  | Some _ => false
  end.

End Submit.

(** ** Run-time panics

    A Go function either returns or panics (index out of range, close of a
    closed or nil channel, send on a closed channel).  Functions that can
    panic return in [res]; so do loops that the embedding bounds by fuel. *)

Inductive res (A : Type) : Type :=
  | Ret (a : A)
  | Panic
  | OutOfFuel.                  (* a fuel-bounded loop was cut short *)

Arguments Ret {A} a.
Arguments Panic {A}.
Arguments OutOfFuel {A}.

Definition res_bind {A B : Type} (x : res A) (f : A -> res B) : res B :=
  match x with
  | Ret a => f a
  | Panic => Panic
  | OutOfFuel => OutOfFuel
  end.

Notation "x <- e1 ;; e2" := (res_bind e1 (fun x => e2))
  (at level 100, e1 at next level, right associativity).

(** ** Channels of [struct{}]

    A channel value is [nil] or the address of a channel made earlier; the
    run time keeps, per channel, its capacity, the number of buffered
    elements and whether it was closed.  Addresses are allocation indices
    into the list of channels made so far. *)

Abbreviation chan := (option nat).

Record chan_state := mkChan {
  ch_cap : nat;
  ch_len : nat;
  ch_closed : bool
}.

Abbreviation heap := (list chan_state).

(** [make(chan struct{}, cap)] *)
Definition make_chan (cap : nat) (h : heap) : chan * heap :=
  (Some (length h), h ++ [mkChan cap 0 false]).

(** [close(c)]: panics on a nil or already closed channel. *)
Definition close_chan (c : chan) (h : heap) : res heap :=
  match c with
  | None => Panic
  | Some a =>
      match h !! a with
      | None => Panic
      | Some st =>
          if ch_closed st then Panic
          else Ret (<[a := mkChan (ch_cap st) (ch_len st) true]> h)
      end
  end.

Definition is_closed (c : chan) (h : heap) : bool :=
  match c with
  | None => false
  | Some a => match h !! a with Some st => ch_closed st | None => false end
  end.

(** [select { case c <- struct{}{}: default: }]: the send goes through when
    the buffer has room, is dropped when it has none or the channel is nil,
    and panics on a closed channel. *)
Definition try_send (c : chan) (h : heap) : res heap :=
  match c with
  | None => Ret h
  | Some a =>
      match h !! a with
      | None => Ret h
      | Some st =>
          if ch_closed st then Panic
          else if (ch_len st <? ch_cap st)%nat
               then Ret (<[a := mkChan (ch_cap st) (S (ch_len st)) false]> h)
               else Ret h
      end
  end.

(** A receive that a select has chosen: one buffered element, if any, is
    taken out (a closed channel stays closed and keeps yielding). *)
Definition recv (c : chan) (h : heap) : heap :=
  match c with
  | None => h
  | Some a =>
      match h !! a with
      | None => h
      | Some st => <[a := mkChan (ch_cap st) (pred (ch_len st)) (ch_closed st)]> h
      end
  end.

Definition is_open (c : chan) (h : heap) : bool :=
  match c with
  | None => false
  | Some a =>
      match h !! a with Some st => negb (ch_closed st) | None => false end
  end.

Definition buffered (c : chan) (h : heap) : nat :=
  match c with
  | None => O
  | Some a => match h !! a with Some st => ch_len st | None => O end
  end.

(** ** The miner *)

Record CPUMiner := mkMiner {
  numWorkers : Z;
  started : bool;
  discreteMining : bool;
  wg : Z;
  workerWg : Z;
  speedMonitorQuit : chan;
  quit : chan;
  runningWorkers : list chan;
  miningStoppper : list chan;
  minedOnParents : gmap Hash Z
}.

Definition set_numWorkers (m : CPUMiner) (v : Z) : CPUMiner :=
  mkMiner v (started m) (discreteMining m) (wg m) (workerWg m)
    (speedMonitorQuit m) (quit m) (runningWorkers m) (miningStoppper m)
    (minedOnParents m).

Definition set_started (m : CPUMiner) (v : bool) : CPUMiner :=
  mkMiner (numWorkers m) v (discreteMining m) (wg m) (workerWg m)
    (speedMonitorQuit m) (quit m) (runningWorkers m) (miningStoppper m)
    (minedOnParents m).

Definition set_discreteMining (m : CPUMiner) (v : bool) : CPUMiner :=
  mkMiner (numWorkers m) (started m) v (wg m) (workerWg m)
    (speedMonitorQuit m) (quit m) (runningWorkers m) (miningStoppper m)
    (minedOnParents m).

Definition set_wg (m : CPUMiner) (v : Z) : CPUMiner :=
  mkMiner (numWorkers m) (started m) (discreteMining m) v (workerWg m)
    (speedMonitorQuit m) (quit m) (runningWorkers m) (miningStoppper m)
    (minedOnParents m).

Definition set_workerWg (m : CPUMiner) (v : Z) : CPUMiner :=
  mkMiner (numWorkers m) (started m) (discreteMining m) (wg m) v
    (speedMonitorQuit m) (quit m) (runningWorkers m) (miningStoppper m)
    (minedOnParents m).

Definition set_speedMonitorQuit (m : CPUMiner) (v : chan) : CPUMiner :=
  mkMiner (numWorkers m) (started m) (discreteMining m) (wg m) (workerWg m)
    v (quit m) (runningWorkers m) (miningStoppper m) (minedOnParents m).

Definition set_quit (m : CPUMiner) (v : chan) : CPUMiner :=
  mkMiner (numWorkers m) (started m) (discreteMining m) (wg m) (workerWg m)
    (speedMonitorQuit m) v (runningWorkers m) (miningStoppper m)
    (minedOnParents m).

Definition set_runningWorkers (m : CPUMiner) (v : list chan) : CPUMiner :=
  mkMiner (numWorkers m) (started m) (discreteMining m) (wg m) (workerWg m)
    (speedMonitorQuit m) (quit m) v (miningStoppper m) (minedOnParents m).

Definition set_miningStoppper (m : CPUMiner) (v : list chan) : CPUMiner :=
  mkMiner (numWorkers m) (started m) (discreteMining m) (wg m) (workerWg m)
    (speedMonitorQuit m) (quit m) (runningWorkers m) v (minedOnParents m).

Definition set_minedOnParents (m : CPUMiner) (v : gmap Hash Z) : CPUMiner :=
  mkMiner (numWorkers m) (started m) (discreteMining m) (wg m) (workerWg m)
    (speedMonitorQuit m) (quit m) (runningWorkers m) (miningStoppper m) v.

(** [m.minedOnParents[h]]: a missing key reads as zero. *)
Definition mined (m : CPUMiner) (h : Hash) : Z :=
  default 0 (minedOnParents m !! h).

(** ** Observable actions *)

Inductive event :=
  | EvSubmit (b : MsgBlock) (accepted : bool) (l : LogLine)
  | EvReport (hashes : Z)
  | EvSolve (header : BlockHeader) (headerBytes : list byte) (nonce : Z)
  | EvClose (c : chan)
  | EvGo (id : Z) (q term : chan)
  | EvGoController
  | EvGoSpeedMonitor
  | EvWaitWorkers
  | EvWaitAll
  | EvWake.

Definition is_submit (e : event) : bool :=
  match e with EvSubmit _ _ _ => true | _ => false end.

Definition is_report (e : event) : bool :=
  match e with EvReport _ => true | _ => false end.

Definition submissions (tr : list event) : nat :=
  length (filter (fun e => is_submit e = true) tr).

(** ** A search session *)

Record callbackData := mkData {
  tid : Z;
  cbN : Z;                      (* field n *)
  cbK : Z;                      (* field k *)
  solved : bool;
  exiting : bool;
  msgBlock : MsgBlock;
  headerBytes : list byte;
  cbQuit : chan;                (* field quit *)
  cbTerm : chan;                (* field term *)
  hashesCompleted : Z;
  lastGenerated : Time;
  lastTxUpdate : Time
}.

Definition set_solved (d : callbackData) (v : bool) : callbackData :=
  mkData (tid d) (cbN d) (cbK d) v (exiting d) (msgBlock d) (headerBytes d)
    (cbQuit d) (cbTerm d) (hashesCompleted d) (lastGenerated d) (lastTxUpdate d).

Definition set_exiting (d : callbackData) (v : bool) : callbackData :=
  mkData (tid d) (cbN d) (cbK d) (solved d) v (msgBlock d) (headerBytes d)
    (cbQuit d) (cbTerm d) (hashesCompleted d) (lastGenerated d) (lastTxUpdate d).

Definition set_msgBlock (d : callbackData) (v : MsgBlock) : callbackData :=
  mkData (tid d) (cbN d) (cbK d) (solved d) (exiting d) v (headerBytes d)
    (cbQuit d) (cbTerm d) (hashesCompleted d) (lastGenerated d) (lastTxUpdate d).

Definition set_headerBytes (d : callbackData) (v : list byte) : callbackData :=
  mkData (tid d) (cbN d) (cbK d) (solved d) (exiting d) (msgBlock d) v
    (cbQuit d) (cbTerm d) (hashesCompleted d) (lastGenerated d) (lastTxUpdate d).

Definition set_hashesCompleted (d : callbackData) (v : Z) : callbackData :=
  mkData (tid d) (cbN d) (cbK d) (solved d) (exiting d) (msgBlock d)
    (headerBytes d) (cbQuit d) (cbTerm d) v (lastGenerated d) (lastTxUpdate d).

Definition set_lastTxUpdate (d : callbackData) (v : Time) : callbackData :=
  mkData (tid d) (cbN d) (cbK d) (solved d) (exiting d) (msgBlock d)
    (headerBytes d) (cbQuit d) (cbTerm d) (hashesCompleted d) (lastGenerated d) v.

Definition IsExiting (d : callbackData) : bool := solved d || exiting d.

(** What the environment contributes when the periodic timer fires: the
    answers of [m.txSource.LastUpdated()] (asked in the staleness test and
    again when the session stores it), the readings of [time.Now()] in the
    3-second and in the 60-second comparison, and the effect and error of
    [UpdateBlockTime] on the template. *)
Record Tick := mkTick {
  tk_LastUpdated : Time;
  tk_Now3 : Time;
  tk_Now60 : Time;
  tk_LastUpdated' : Time;
  tk_UpdateBlockTime : MsgBlock -> MsgBlock * option error
}.

(** The case a non-blocking [select] over term, quit and the ticker takes. *)
Inductive Poll :=
  | PollTerm
  | PollQuit
  | PollTick (tk : Tick)
  | PollDefault.

Section Session.
Context {Solution : Type} `{!External Solution}.

(** The staleness test of [updateBlockTime]; [After] is strict. *)
Definition stale (d : callbackData) (tk : Tick) : bool :=
  (negb (lastTxUpdate d =? tk_LastUpdated tk)
   && (tk_Now3 tk >? lastGenerated d + 3 * Second))
  || (tk_Now60 tk >? lastGenerated d + 60 * Second).

(** [updateBlockTime]: result, session afterwards, and the report sent to
    the speed monitor. *)
Definition updateBlockTime (d : callbackData) (tk : Tick)
  : bool * callbackData * list event :=
  let ev := [EvReport (hashesCompleted d)] in
  let d := set_hashesCompleted d 0 in
  if stale d tk then (false, d, ev)
  else
    let d := set_lastTxUpdate d (tk_LastUpdated' tk) in
    let '(b, err) := tk_UpdateBlockTime tk (msgBlock d) in
    let d := set_msgBlock d b in
    match err with
    | Some _ => (false, d, ev)
    | None =>
        let '(bytes, err) := SerializeAllHeaderBytes (Header (msgBlock d)) in
        let d := set_headerBytes d bytes in
        match err with
        | Some _ => (false, d, ev)
        | None => (true, d, ev)
        end
    end.

(** The loop of [notifyBlockDone], from index [i] on. *)
Fixpoint notify_from (i : Z) (stoppers : list chan) (ownTid : Z) (h : heap)
  : res heap :=
  match stoppers with
  | [] => Ret h
  | c :: rest =>
      if Word.u32 (i + 1) =? ownTid
      then notify_from (Word.u32 (i + 1)) rest ownTid h
      else h' <- try_send c h ;; notify_from (Word.u32 (i + 1)) rest ownTid h'
  end.

(** [notifyBlockDone(ownTid)]; the bound is [uint32(len(m.miningStoppper))]. *)
Definition notifyBlockDone (m : CPUMiner) (ownTid : Z) (h : heap) : res heap :=
  let bound := Word.u32 (Z.of_nat (length (miningStoppper m))) in
  notify_from 0 (take (Z.to_nat bound) (miningStoppper m)) ownTid h.

(** What the evaluator hands to the callback: a null pointer, with the case
    the validator's select then takes, or a candidate, with the answer the
    consensus processor gives should the validator submit it. *)
Inductive Probe :=
  | Null (p : Poll)
  | Candidate (s : Solution) (r : ProcessResult).

Record Validated := mkValidated {
  v_code : Z;
  v_data : callbackData;
  v_miner : CPUMiner;
  v_heap : heap;
  v_events : list event
}.

(** The header after [copy(header.EquihashSolution[:], bytes)]. *)
Definition splice (d : callbackData) (s : Solution) : BlockHeader :=
  let header := Header (msgBlock d) in
  set_EquihashSolution header
    (copy (EquihashSolution header) (ExtractSolution (cbN d) (cbK d) s)).

Definition hash_meets_target (header : BlockHeader) : bool :=
  HashToBig (BlockHash header) <=? CompactToBig (Bits header).

(** [callbackData.validate] *)
Definition validate (d : callbackData) (m : CPUMiner) (h : heap) (x : Probe)
  : res Validated :=
  if exiting d then Ret (mkValidated 2 d m h [])
  else
    match x with
    | Null p =>
        match p with
        | PollTerm =>
            let d := set_solved (set_exiting d true) false in
            Ret (mkValidated 2 d m (recv (cbTerm d) h) [])
        | PollQuit =>
            let d := set_solved (set_exiting d true) false in
            Ret (mkValidated 2 d m (recv (cbQuit d) h) [])
        | PollTick tk =>
            let '(ok, d, ev) := updateBlockTime d tk in
            if ok then Ret (mkValidated 0 d m h ev)
            else Ret (mkValidated 2 d m h ev)
        | PollDefault => Ret (mkValidated 0 d m h [])
        end
    | Candidate s r =>
        let header := splice d s in
        let d := set_msgBlock d (set_Header (msgBlock d) header) in
        if hash_meets_target header then
          let d := set_headerBytes d (fst (SerializeAllHeaderBytes header)) in
          let rc := ValidateEquihash (cbN d) (cbK d) (headerBytes d)
                      (Word.i64 (Nonce header)) (EquihashSolution header) in
          let d := set_solved d rc in
          if rc then
            match submitBlock (msgBlock d) r with
            | None => Panic
            | Some (ok, line) =>
                let prev := PrevBlock (Header (msgBlock d)) in
                let m := set_minedOnParents m
                           (<[prev := Word.u8 (mined m prev + 1)]>
                              (minedOnParents m)) in
                h' <- notifyBlockDone m (tid d) h ;;
                Ret (mkValidated 1 d m h' [EvSubmit (msgBlock d) ok line])
            end
          else Ret (mkValidated 0 d m h [])
        else Ret (mkValidated 0 d m h [])
    end.

End Session.

Arguments Probe Solution : clear implicits.

(** ** The nested search of [solveBlock] *)

(** What the environment contributes to one pass of the nonce loop: the
    case the worker's select takes, and what the evaluator does with the
    callback during this invocation. *)
Record Iter (Solution : Type) := mkIter {
  it_poll : Poll;
  it_probes : list (Probe Solution)
}.

Arguments mkIter {Solution} it_poll it_probes.
Arguments it_poll {Solution}.
Arguments it_probes {Solution}.

(** What the environment contributes when a session starts:
    [wire.RandomUint64()] ([None] is its error), [time.Now()] and
    [m.txSource.LastUpdated()]. *)
Record Entry := mkEntry {
  en_RandomUint64 : option Z;
  en_Now : Time;
  en_LastUpdated : Time
}.

Inductive Pc :=
  | AtOuter                     (* at the condition of the extra-nonce loop *)
  | AtInner                     (* at the condition of the nonce loop *)
  | Returned (r : bool).        (* solveBlock has returned r *)

Record Search (Solution : Type) := mkSearch {
  pc : Pc;
  data : callbackData;
  miner : CPUMiner;
  hp : heap;
  enOffset : Z;
  extraNonce : Z;
  nonce : Z;                    (* loop variable i *)
  script : list (Iter Solution);
  trace : list event
}.

Arguments mkSearch {Solution}.
Arguments pc {Solution}.
Arguments data {Solution}.
Arguments miner {Solution}.
Arguments hp {Solution}.
Arguments enOffset {Solution}.
Arguments extraNonce {Solution}.
Arguments nonce {Solution}.
Arguments script {Solution}.
Arguments trace {Solution}.

Section Solve.
Context {Solution : Type} `{!External Solution}.

Record Solved := mkSolved {
  sv_data : callbackData;
  sv_miner : CPUMiner;
  sv_heap : heap;
  sv_events : list event
}.

(** Modelled from the spec: the proof-of-work evaluator [SolveEquihash] of
    package cequihash, which is not part of the sources at hand.  It invokes
    the validator on one probe after the other and returns to the worker as
    soon as the validator answers a non-zero code, or when it has nothing
    left to offer. *)
Fixpoint SolveEquihash (probes : list (Probe Solution))
  (d : callbackData) (m : CPUMiner) (h : heap) : res Solved :=
  match probes with
  | [] => Ret (mkSolved d m h [])
  | x :: rest =>
      v <- validate d m h x ;;
      if v_code v =? 0 then
        r <- SolveEquihash rest (v_data v) (v_miner v) (v_heap v) ;;
        Ret (mkSolved (sv_data r) (sv_miner r) (sv_heap r)
               (v_events v ++ sv_events r))
      else Ret (mkSolved (v_data v) (v_miner v) (v_heap v) (v_events v))
  end.

Definition set_header_of (d : callbackData) (f : BlockHeader -> BlockHeader)
  : callbackData :=
  set_msgBlock d (set_Header (msgBlock d) (f (Header (msgBlock d)))).

(** The body of the extra-nonce loop up to the nonce loop. *)
Definition enter_extraNonce (d : callbackData) (extraNonce enOffset : Z)
  : callbackData :=
  let d := set_header_of d (fun hd =>
             set_ExtraData hd
               (PutUint64 (ExtraData hd) (Word.u64 (extraNonce + enOffset)))) in
  set_headerBytes d (fst (SerializeAllHeaderBytes (Header (msgBlock d)))).

(** The body of the nonce loop after its select: set the nonce, run the
    evaluator, count the hash, advance [i]. *)
Definition evaluate (s : Search Solution) (d : callbackData) (h : heap)
  (ev : list event) (probes : list (Probe Solution))
  (rest : list (Iter Solution))
  : res (Search Solution) :=
  let d := set_header_of d (fun hd => set_Nonce hd (nonce s)) in
  let call := EvSolve (Header (msgBlock d)) (headerBytes d) (nonce s) in
  r <- SolveEquihash probes d (miner s) h ;;
  let d := sv_data r in
  let d := set_hashesCompleted d (Word.u64 (hashesCompleted d + 1)) in
  Ret (mkSearch AtInner d (sv_miner r) (sv_heap r) (enOffset s) (extraNonce s)
         (Word.u32 (nonce s + 1)) rest
         (trace s ++ ev ++ [call] ++ sv_events r)).

(** One step of [solveBlock]: a loop condition together with what follows it
    up to the next loop condition or the return.  At the nonce loop with an
    exhausted script the search waits for its environment. *)
Definition step (s : Search Solution) : res (Search Solution) :=
  match pc s with
  | Returned _ => Ret s
  | AtOuter =>
      if (extraNonce s <? maxExtraNonce) && negb (IsExiting (data s)) then
        Ret (mkSearch AtInner
               (enter_extraNonce (data s) (extraNonce s) (enOffset s))
               (miner s) (hp s) (enOffset s) (extraNonce s) 0
               (script s) (trace s))
      else
        Ret (mkSearch (Returned (solved (data s))) (data s) (miner s) (hp s)
               (enOffset s) (extraNonce s) (nonce s) (script s) (trace s))
  | AtInner =>
      if (nonce s <=? maxNonce) && negb (IsExiting (data s)) then
        match script s with
        | [] => Ret s
        | it :: rest =>
            let d := data s in
            match it_poll it with
            | PollTerm =>
                let d := set_solved (set_exiting d true) false in
                Ret (mkSearch (Returned false) d (miner s)
                       (recv (cbTerm d) (hp s)) (enOffset s) (extraNonce s)
                       (nonce s) rest (trace s))
            | PollQuit =>
                let d := set_solved (set_exiting d true) false in
                Ret (mkSearch (Returned false) d (miner s)
                       (recv (cbQuit d) (hp s)) (enOffset s) (extraNonce s)
                       (nonce s) rest (trace s))
            | PollTick tk =>
                let '(ok, d, ev) := updateBlockTime d tk in
                if ok then evaluate s d (hp s) ev (it_probes it) rest
                else
                  Ret (mkSearch (Returned false) d (miner s) (hp s)
                         (enOffset s) (extraNonce s) (nonce s) rest
                         (trace s ++ ev))
            | PollDefault => evaluate s d (hp s) [] (it_probes it) rest
            end
        end
      else
        Ret (mkSearch AtOuter (data s) (miner s) (hp s) (enOffset s)
               (Word.u64 (extraNonce s + 1)) (nonce s) (script s) (trace s))
  end.

Fixpoint run (fuel : nat) (s : Search Solution) : res (Search Solution) :=
  match fuel with
  | O => Ret s
  | S fuel' => s' <- step s ;; run fuel' s'
  end.

(** [solveBlock] up to its loops: the random offset (zero when the random
    source fails) and the initial session. *)
Definition solveBlock_init (m : CPUMiner) (h : heap) (msgBlock : MsgBlock)
  (q term : chan) (id : Z) (st : Entry) (sc : list (Iter Solution))
  : Search Solution :=
  let enOffset := match en_RandomUint64 st with Some v => v | None => 0 end in
  let d := mkData id paramN paramK false false msgBlock [] q term 0
             (en_Now st) (en_LastUpdated st) in
  mkSearch AtOuter d m h enOffset 0 0 sc [].

Definition solveBlock (fuel : nat) (m : CPUMiner) (h : heap)
  (msgBlock : MsgBlock) (q term : chan) (id : Z) (st : Entry)
  (sc : list (Iter Solution)) : res (Search Solution) :=
  run fuel (solveBlock_init m h msgBlock q term id st sc).

(** The template attempt of [generateBlocks]: the result of [solveBlock] is
    dropped. *)
Definition generateBlocks_attempt (fuel : nat) (m : CPUMiner) (h : heap)
  (template : MsgBlock) (q term : chan) (id : Z) (st : Entry)
  (sc : list (Iter Solution)) : res (Search Solution) :=
  solveBlock fuel m h template q term id st sc.

(** The template attempt of [GenerateNBlocks]: [solveBlock] runs with nil
    channels and worker id 1; when it returns true the caller submits the
    template block, which the search has rewritten in place. *)
Definition GenerateNBlocks_attempt (fuel : nat) (m : CPUMiner) (h : heap)
  (template : MsgBlock) (st : Entry) (sc : list (Iter Solution))
  (r : ProcessResult) : res (Search Solution) :=
  s <- solveBlock fuel m h template None None 1 st sc ;;
  match pc s with
  | Returned true =>
      let block := msgBlock (data s) in
      match submitBlock block r with
      | None => Panic
      | Some (ok, line) =>
          Ret (mkSearch (pc s) (data s) (miner s) (hp s) (enOffset s)
                 (extraNonce s) (nonce s) (script s)
                 (trace s ++ [EvSubmit block ok line]))
      end
  | _ => Ret s
  end.

End Solve.

(** ** Supervisor and pool controller

    The supervisor operations and the controller's reactions are given as
    functions on the miner, the channels made so far and the actions taken.
    Each reaction of the controller is atomic with respect to the
    supervisor: [m.numWorkers] is read once per reaction. *)

Definition world : Type := CPUMiner * heap * list event.

Section Pool.
Context {Solution : Type} `{!External Solution}.

(** [newCPUMiner] *)
Definition newCPUMiner : CPUMiner :=
  mkMiner defaultNumWorkers false false 0 0 None None [] [] ∅.

(** [Start] *)
Definition Start (w : world) : world :=
  let '(m, h, ev) := w in
  if started m || discreteMining m then w
  else
    let '(q, h) := make_chan 0 h in
    let m := set_quit m q in
    let '(sq, h) := make_chan 0 h in
    let m := set_speedMonitorQuit m sq in
    let m := set_wg m (wg m + 2) in
    let m := set_started m true in
    (m, h, ev ++ [EvGoSpeedMonitor; EvGoController]).

(** [Stop], as the call is once [m.wg.Wait()] has returned: the wait ends
    when the controller and the speed monitor have called [Done], that is
    with the counter at zero.  Whether it ends is up to those goroutines and
    the workers the controller waits for, and is not described here: the
    function gives the state the caller finds when the call has returned. *)
Definition Stop (w : world) : res world :=
  let '(m, h, ev) := w in
  if negb (started m) || discreteMining m then Ret w
  else
    h' <- close_chan (quit m) h ;;
    let m := set_wg m 0 in
    let m := set_started m false in
    Ret (m, h', ev ++ [EvClose (quit m); EvWaitAll]).


(** [SetNumWorkers(numWorkers int32)] *)
Definition SetNumWorkers (n : Z) (w : world) : res world :=
  w <- (if n =? 0 then Stop w else Ret w) ;;
  let '(m, h, ev) := w in
  let m := if n <? 0 then set_numWorkers m defaultNumWorkers
           else set_numWorkers m (Word.u32 n) in
  if started m then Ret (m, h, ev ++ [EvWake]) else Ret (m, h, ev).

(** [NumWorkers]: [int32(m.numWorkers)] *)
Definition NumWorkers (m : CPUMiner) : Z := Word.i32 (numWorkers m).

(** One pass of the loop of [launchWorkers]. *)
Definition launch_one (w : world) : world :=
  let '(m, h, ev) := w in
  let '(q, h) := make_chan 0 h in
  let m := set_runningWorkers m (runningWorkers m ++ [q]) in
  let '(term, h) := make_chan 1 h in
  let m := set_miningStoppper m (miningStoppper m ++ [term]) in
  let m := set_workerWg m (workerWg m + 1) in
  let id := Word.u32 (Z.of_nat (length (miningStoppper m))) in
  (m, h, ev ++ [EvGo id q term]).

(** [launchWorkers(numWorkers uint32)]: a counted loop. *)
Definition launchWorkers (numWorkers : Z) (w : world) : world :=
  Nat.iter (Z.to_nat numWorkers) launch_one w.

(** The controller before its loop. *)
Definition controller_start (w : world) : world :=
  let '(m, h, ev) := w in
  let m := set_runningWorkers m [] in
  launchWorkers (numWorkers m) (m, h, ev).

(** The retiring loop
    [for i := numRunning - 1; i >= m.numWorkers; i--] over uint32 [i]:
    indexing out of range panics, as does closing a closed channel. *)
Fixpoint retire (fuel : nat) (i : Z) (w : world) : res world :=
  let '(m, h, ev) := w in
  if i >=? numWorkers m then
    match fuel with
    | O => OutOfFuel
    | S fuel' =>
        match index (runningWorkers m) i with
        | None => Panic
        | Some c =>
            h' <- close_chan c h ;;
            let rw := <[Z.to_nat i := None]> (runningWorkers m) in
            let m := set_runningWorkers m (take (Z.to_nat i) rw) in
            retire fuel' (Word.u32 (i - 1)) (m, h', ev ++ [EvClose c])
        end
    end
  else Ret w.

(** The controller's reaction to [<-m.updateNumWorkers].  The target
    [m.numWorkers] is read from the miner as it is threaded through the
    reaction, at the comparison, for the launch count and at every pass of
    the retiring loop; no store to it by a [SetNumWorkers] landing in the
    middle of a reaction is represented, so all reads of one reaction see
    the same target. *)
Definition on_updateNumWorkers (w : world) : res world :=
  let '(m, h, ev) := w in
  let numRunning := Word.u32 (Z.of_nat (length (runningWorkers m))) in
  if numWorkers m =? numRunning then Ret w
  else if numWorkers m >? numRunning
       then Ret (launchWorkers (Word.u32 (numWorkers m - numRunning)) w)
       else retire (S (length (runningWorkers m))) (Word.u32 (numRunning - 1)) w.

(** [for _, quit := range m.runningWorkers { close(quit) }] *)
Fixpoint close_all (cs : list chan) (h : heap) (ev : list event)
  : res (heap * list event) :=
  match cs with
  | [] => Ret (h, ev)
  | c :: rest => h' <- close_chan c h ;; close_all rest h' (ev ++ [EvClose c])
  end.

(** The controller's reaction to [<-m.quit], up to [m.workerWg.Wait()]. *)
Definition on_quit (w : world) : res world :=
  let '(m, h, ev) := w in
  r <- close_all (runningWorkers m) h ev ;;
  Ret (m, fst r, snd r ++ [EvWaitWorkers]).

(** The controller after [m.workerWg.Wait()] has returned. *)
Definition after_wait (w : world) : res world :=
  let '(m, h, ev) := w in
  h' <- close_chan (speedMonitorQuit m) h ;;
  Ret (set_wg m (wg m - 1), h', ev ++ [EvClose (speedMonitorQuit m)]).

End Pool.

(** ** The pool as a transition system

    The controller, the supervisor's writes of the configured count and the
    worker goroutines interleave.  A worker goroutine is alive from its [go]
    statement until [generateBlocks] leaves its loop, which it only does
    after reading its closed quit channel; while alive it may report hash
    counts to the speed monitor at any time. *)

Record Worker := mkWorker {
  w_id : Z;
  w_quit : chan;
  w_term : chan;
  w_alive : bool
}.

Inductive CtlPc :=
  | CtlLoop                     (* in the select loop *)
  | CtlWaiting                  (* at m.workerWg.Wait() *)
  | CtlStopped.                 (* past close(m.speedMonitorQuit) *)

Record Pool := mkPool {
  pl_miner : CPUMiner;
  pl_heap : heap;
  pl_ctl : CtlPc;
  pl_workers : list Worker
}.

Inductive Label :=
  | LConfigure (v : Z)          (* SetNumWorkers has stored a new count *)
  | LResize                     (* controller: <-m.updateNumWorkers *)
  | LShutdown                   (* controller: <-m.quit, channels closed *)
  | LReport (i : nat)           (* worker i: m.updateHashes <- n *)
  | LExit (i : nat)             (* worker i: m.workerWg.Done() *)
  | LStopMonitor.               (* controller: close(m.speedMonitorQuit) *)

Definition is_LReport (l : Label) : bool :=
  match l with LReport _ => true | _ => false end.

(** The goroutines started by a list of actions. *)
Fixpoint spawned (ev : list event) : list Worker :=
  match ev with
  | [] => []
  | EvGo id q term :: rest => mkWorker id q term true :: spawned rest
  | _ :: rest => spawned rest
  end.

Definition retire_worker (w : Worker) : Worker :=
  mkWorker (w_id w) (w_quit w) (w_term w) false.

Definition alive_count (ws : list Worker) : Z :=
  Z.of_nat (length (filter (fun w => w_alive w = true) ws)).

Section Transitions.
Context {Solution : Type} `{!External Solution}.

Inductive pool_step : Pool -> Label -> Pool -> Prop :=
  | step_configure m h c ws v :
      Word.is_u32 v ->
      pool_step (mkPool m h c ws) (LConfigure v)
                (mkPool (set_numWorkers m v) h c ws)
  | step_resize m h ws m' h' ev :
      on_updateNumWorkers (m, h, []) = Ret (m', h', ev) ->
      pool_step (mkPool m h CtlLoop ws) LResize
                (mkPool m' h' CtlLoop (ws ++ spawned ev))
  | step_shutdown m h ws m' h' ev :
      on_quit (m, h, []) = Ret (m', h', ev) ->
      pool_step (mkPool m h CtlLoop ws) LShutdown
                (mkPool m' h' CtlWaiting ws)
  | step_report m h c ws i w :
      ws !! i = Some w -> w_alive w = true ->
      pool_step (mkPool m h c ws) (LReport i) (mkPool m h c ws)
  | step_exit m h c ws i w :
      ws !! i = Some w -> w_alive w = true ->
      is_closed (w_quit w) h = true ->
      pool_step (mkPool m h c ws) (LExit i)
                (mkPool (set_workerWg m (workerWg m - 1)) h c
                        (<[i := retire_worker w]> ws))
  | step_stop_monitor m h ws m' h' ev :
      workerWg m = 0 ->
      after_wait (m, h, []) = Ret (m', h', ev) ->
      pool_step (mkPool m h CtlWaiting ws) LStopMonitor
                (mkPool m' h' CtlStopped ws).

Inductive pool_exec : Pool -> list Label -> Pool -> Prop :=
  | exec_done p : pool_exec p [] p
  | exec_step p l p' ls p'' :
      pool_step p l p' -> pool_exec p' ls p'' -> pool_exec p (l :: ls) p''.

(** The pool once the controller has launched the configured number of
    workers and stands at its select loop. *)
Definition pool_init (m : CPUMiner) (h : heap) : Pool :=
  let '(m', h', ev) := controller_start (m, h, []) in
  mkPool m' h' CtlLoop (spawned ev).

End Transitions.

(** ** Sibling notification, as the specification words it

    Worker ids are positions in [m.miningStoppper] counted from one; the
    siblings of a worker are the channels at all other positions, and a
    notification is a best-effort send on each of them in turn. *)

Fixpoint siblings_from (i : nat) (stoppers : list chan) (ownTid : Z)
  : list chan :=
  match stoppers with
  | [] => []
  | c :: rest =>
      if Z.of_nat i + 1 =? ownTid then siblings_from (S i) rest ownTid
      else c :: siblings_from (S i) rest ownTid
  end.

Definition siblings (m : CPUMiner) (ownTid : Z) : list chan :=
  siblings_from 0 (miningStoppper m) ownTid.

Fixpoint send_all (cs : list chan) (h : heap) : res heap :=
  match cs with
  | [] => Ret h
  | c :: rest => h' <- try_send c h ;; send_all rest h'
  end.

Definition capacity (c : chan) (h : heap) : nat :=
  match c with
  | None => O
  | Some a => match h !! a with Some st => ch_cap st | None => O end
  end.

(** The candidate passes both checks of the validator: its hash meets the
    target and the external verifier confirms it on the re-serialised
    header. *)
Definition accepts {Solution : Type} `{!External Solution}
  (d : callbackData) (s : Solution) : bool :=
  let header := splice d s in
  hash_meets_target header
  && ValidateEquihash (cbN d) (cbK d) (fst (SerializeAllHeaderBytes header))
       (Word.i64 (Nonce header)) (EquihashSolution header).

(** ** Visits of the search

    An iteration in which no signal is pending and the evaluator comes back
    without a stop code; and, for an evaluator invocation, the extra data
    and the nonce of the header it was given. *)

Definition quiet {Solution : Type} : Iter Solution := mkIter PollDefault [].

Definition visit (e : event) : option (list byte * Z) :=
  match e with
  | EvSolve hd _ i => Some (ExtraData hd, i)
  | _ => None
  end.

Definition visits (tr : list event) : list (list byte * Z) := omap visit tr.

(** ** The invariant of a search session

    A session has submitted once if it is solved and never otherwise, and
    what [solveBlock] returns is the solved flag. *)

Definition flag (b : bool) : nat := if b then 1%nat else 0%nat.

Definition session_inv {Solution : Type} (s : Search Solution) : Prop :=
  submissions (trace s) = flag (solved (data s))
  /\ (forall r, pc s = Returned r -> r = solved (data s)).

(** The state of a search [k] quiet iterations after [s0]: still in the
    nonce loop of the same extra nonce, the nonce advanced modulo 2^32, one
    evaluator invocation recorded per iteration. *)
Definition quiet_after {Solution : Type} (s0 s : Search Solution) (k : nat)
  : Prop :=
  pc s = AtInner
  /\ extraNonce s = extraNonce s0
  /\ enOffset s = enOffset s0
  /\ nonce s = (nonce s0 + Z.of_nat k) mod 2 ^ 32
  /\ IsExiting (data s) = false
  /\ headerBytes (data s) = headerBytes (data s0)
  /\ (forall x, set_Nonce (Header (msgBlock (data s))) x
                = set_Nonce (Header (msgBlock (data s0))) x)
  /\ trace s
     = trace s0
       ++ map (fun j =>
                 let i := (nonce s0 + Z.of_nat j) mod 2 ^ 32 in
                 EvSolve (set_Nonce (Header (msgBlock (data s0))) i)
                   (headerBytes (data s0)) i)
              (seq 0 k).

(** ** Invariants of the pool

    While the controller is in its loop, the channels of the active worker
    list are pairwise distinct, open, and fewer than 2^32. *)

Definition ctl_wf (m : CPUMiner) (h : heap) : Prop :=
  NoDup (runningWorkers m)
  /\ Forall (fun c => is_open c h = true) (runningWorkers m)
  /\ Z.of_nat (length (runningWorkers m)) < 2 ^ 32.

Definition all_exited (ws : list Worker) : Prop :=
  Forall (fun w => w_alive w = false) ws.

(** Every goroutine still alive has had its quit channel closed. *)
Definition all_told_to_quit (ws : list Worker) (h : heap) : Prop :=
  Forall (fun w => w_alive w = true -> is_closed (w_quit w) h = true) ws.

Definition pool_inv (p : Pool) : Prop :=
  let m := pl_miner p in
  let h := pl_heap p in
  let ws := pl_workers p in
  workerWg m = alive_count ws
  /\ Word.is_u32 (numWorkers m)
  /\ (pl_ctl p = CtlLoop ->
      ctl_wf m h
      /\ Forall (fun w => w_alive w = true ->
                          w_quit w ∈ runningWorkers m
                          \/ is_closed (w_quit w) h = true) ws)
  /\ (pl_ctl p <> CtlLoop -> all_told_to_quit ws h)
  /\ (pl_ctl p = CtlStopped -> all_exited ws).

(** ** A reference instance of the collaborators

    Small stand-ins on which the model can be run: a solution is its own
    proof bytes, a header hashes to its proof bytes, the big integer of a
    hash is its first byte, compact bits decode to themselves, the verifier
    accepts proofs that start with an odd byte, and a header serialises to
    its extra data followed by its proof. *)

Module Reference.

Definition extract (n k : Z) (s : list byte) : list byte := s.

Definition verify (n k : Z) (hdr : list byte) (nonce : Z) (sol : list byte)
  : bool :=
  match sol with
  | b :: _ => Z.odd b
  | [] => false
  end.

Definition hash (h : BlockHeader) : Hash := EquihashSolution h.

Definition big (h : Hash) : Z :=
  match h with
  | b :: _ => b
  | [] => 0
  end.

Definition serialize (h : BlockHeader) : list byte * option error :=
  (ExtraData h ++ EquihashSolution h, None).

Definition one_u32 : Word.is_u32 1 :=
  ltac:(unfold Word.is_u32; lia).

#[export] Instance collaborators : External (list byte) := {|
  ExtractSolution := extract;
  ValidateEquihash := verify;
  BlockHash := hash;
  HashToBig := big;
  CompactToBig := fun bits => bits;
  SerializeAllHeaderBytes := serialize;
  paramN := 96;
  paramK := 5;
  ReduceMinDifficulty := false;
  defaultNumWorkers := 1;
  defaultNumWorkers_u32 := one_u32
|}.

(** A template with a coinbase paying 50, target 10, zeroed extra data and
    proof. *)
Definition header0 : BlockHeader :=
  mkHeader [7] 10 0 0 (replicate 32 0) (replicate 4 255).

Definition template : MsgBlock :=
  mkBlock header0 [mkMsgTx [mkTxOut 50]].

Definition accepted : ProcessResult := mkProcess false None.
Definition duplicate : ProcessResult :=
  mkProcess false (Some (RuleError (ErrOtherRule 1))).

Definition entry : Entry := mkEntry (Some 5) 0 0.

(** A tick at time [now] with the mempool last updated at [upd]; the
    template's timestamp is set to [now]. *)
Definition tick (now upd : Time) : Tick :=
  mkTick upd now now upd
    (fun b => (set_Header b
                 (mkHeader (PrevBlock (Header b)) (Bits (Header b)) now
                    (Nonce (Header b)) (ExtraData (Header b))
                    (EquihashSolution (Header b))), None)).

Definition session (t : Time) (upd : Time) : callbackData :=
  mkData 1 96 5 false false template [] None None 0 t upd.

Definition miner0 : CPUMiner := @newCPUMiner _ collaborators.

(** A pool in which two workers have been launched: channels 0 and 2 are
    their quit channels, channels 1 and 3 their abandon channels. *)
Definition pool2 : world := launchWorkers 2 (miner0, [], []).

(** The miner after [Start], and a miner in discrete mode. *)
Definition running : world := Start (miner0, [], []).

Definition discrete : CPUMiner :=
  set_discreteMining (set_started miner0 true) true.

(** A proof whose first byte is odd and below the target. *)
Definition good : list byte := [1].

End Reference.

(** ** Measures on wire data and traces *)

(** The exact sum of the output values of a transaction. *)
Definition total_value (outs : list TxOut) : Z :=
  foldr (fun out acc => Value out + acc) 0 outs.

(** [littleEndian.Uint64] and its shorter relatives: the number a byte
    string spells, least significant byte first. *)
Fixpoint le_decode (bs : list byte) : Z :=
  match bs with
  | [] => 0
  | b :: rest => b + 256 * le_decode rest
  end.

(** Hashes reported to the speed monitor, and evaluator invocations. *)
Definition reported_of (e : event) : Z :=
  match e with EvReport n => n | _ => 0 end.

Definition reported (tr : list event) : Z :=
  foldr (fun e acc => reported_of e + acc) 0 tr.

Definition is_solve (e : event) : bool :=
  match e with EvSolve _ _ _ => true | _ => false end.

Definition solves (tr : list event) : Z :=
  foldr (fun e acc => (if is_solve e then 1 else 0) + acc) 0 tr.

(** The blocks handed to [submitBlock], in order. *)
Definition submitted (tr : list event) : list MsgBlock :=
  omap (fun e => match e with EvSubmit b _ _ => Some b | _ => None end) tr.

(** A block is a solution for parameters [n], [k] when its hash meets the
    target of its bits field and the verifier accepts its proof on the
    serialised header. *)
Definition is_solution {Solution : Type} `{!External Solution}
  (n k : Z) (b : MsgBlock) : bool :=
  hash_meets_target (Header b)
  && ValidateEquihash n k (fst (SerializeAllHeaderBytes (Header b)))
       (Word.i64 (Nonce (Header b))) (EquihashSolution (Header b)).

(** ** Well-formed abandon channels

    The channels of [m.miningStoppper] are pairwise distinct, open, of
    capacity one, and fewer than 2^32. *)
Definition stoppers_wf (m : CPUMiner) (h : heap) : Prop :=
  NoDup (miningStoppper m)
  /\ Forall (fun c => is_open c h = true /\ capacity c h = 1%nat)
       (miningStoppper m)
  /\ Z.of_nat (length (miningStoppper m)) < 2 ^ 32.

(** ** Sequences of supervisor calls *)

Inductive Op :=
  | OpStart
  | OpStop
  | OpSetNumWorkers (n : Z).

Definition apply_op {Solution : Type} `{!External Solution}
  (op : Op) (w : world) : res world :=
  match op with
  | OpStart => Ret (Start w)
  | OpStop => Stop w
  | OpSetNumWorkers n => SetNumWorkers n w
  end.


(** A pool miner that is marked started holds an open quit channel. *)
Definition supervisor_inv (w : world) : Prop :=
  started w.1.1 = true -> discreteMining w.1.1 = false ->
  is_open (quit w.1.1) w.1.2 = true.

(** ** [GenerateNBlocks] *)

(** What [NewBlockTemplate] hands back: an error, nothing (not enough
    voters), or a template. *)
Inductive Template :=
  | TemplateError
  | TemplateNone
  | TemplateBlock (b : MsgBlock).

(** What the environment contributes to one pass of the generating loop:
    the template, the inputs of the search session on it (with the number of
    steps the session is followed for), and the consensus processor's answer
    to the caller's own submission. *)
Record Round (Solution : Type) := mkRound {
  rd_template : Template;
  rd_entry : Entry;
  rd_script : list (Iter Solution);
  rd_fuel : nat;
  rd_process : ProcessResult
}.

Arguments mkRound {Solution}.
Arguments rd_template {Solution}.
Arguments rd_entry {Solution}.
Arguments rd_script {Solution}.
Arguments rd_fuel {Solution}.
Arguments rd_process {Solution}.

Inductive GenerateError :=
  | ErrGenerateUnsupported
  | ErrAlreadyMining.

Section Generate.
Context {Solution : Type} `{!External Solution}.

(** The loop of [GenerateNBlocks].  [addrs] is [len(cfg.miningAddrs)]:
    [rand.Intn] panics on zero.  [hashes] is the slice [blockHashes], a nil
    pointer being [None]; assigning past its end panics.  The non-blocking
    read of [m.updateNumWorkers] at the top of the loop has no effect on the
    state.  The loop has no exit but the return after the [n]-th solved
    block: when the rounds run out, or a session is still searching after
    its steps, the outcome is [OutOfFuel]. *)
Fixpoint generate_loop (rounds : list (Round Solution)) (addrs : nat)
  (n i : Z) (hashes : list (option Hash)) (w : world)
  : res (list (option Hash) * world) :=
  match rounds with
  | [] => OutOfFuel
  | rd :: rest =>
      let '(m, h, ev) := w in
      if (addrs =? 0)%nat then Panic
      else
        match rd_template rd with
        | TemplateError => generate_loop rest addrs n i hashes w
        | TemplateNone => generate_loop rest addrs n i hashes w
        | TemplateBlock blk =>
            s <- GenerateNBlocks_attempt (rd_fuel rd) m h blk (rd_entry rd)
                   (rd_script rd) (rd_process rd) ;;
            match pc s with
            | Returned true =>
                match index hashes i with
                | None => Panic
                | Some _ =>
                    let block := msgBlock (data s) in
                    let hashes :=
                      <[Z.to_nat i := Some (BlockHash (Header block))]>
                        hashes in
                    let i := Word.u32 (i + 1) in
                    if i =? n then
                      let m := miner s in
                      h' <- close_chan (speedMonitorQuit m) (hp s) ;;
                      let m' := set_discreteMining
                                  (set_started (set_wg m 0) false) false in
                      Ret (hashes,
                           (m', h',
                            ev ++ trace s
                               ++ [EvClose (speedMonitorQuit m); EvWaitAll]))
                    else
                      generate_loop rest addrs n i hashes
                        (miner s, hp s, ev ++ trace s)
                end
            | Returned false =>
                generate_loop rest addrs n i hashes
                  (miner s, hp s, ev ++ trace s)
            | _ => OutOfFuel
            end
        end
  end.

(** [GenerateNBlocks(n)]; [generateSupported] is the chain parameter
    [GenerateSupported]. *)
Definition GenerateNBlocks (generateSupported : bool) (addrs : nat) (n : Z)
  (rounds : list (Round Solution)) (w : world)
  : res ((GenerateError + list (option Hash)) * world) :=
  let '(m, h, ev) := w in
  if negb generateSupported then Ret (inl ErrGenerateUnsupported, w)
  else if started m || discreteMining m then Ret (inl ErrAlreadyMining, w)
  else
    let m := set_discreteMining (set_started m true) true in
    let '(sq, h) := make_chan 0 h in
    let m := set_speedMonitorQuit m sq in
    let m := set_wg m (wg m + 1) in
    r <- generate_loop rounds addrs n 0 (replicate (Z.to_nat n) None)
           (m, h, ev ++ [EvGoSpeedMonitor]) ;;
    Ret (inr (fst r), snd r).

End Generate.

(** ** What a search session maintains *)

(** The miner after [m.minedOnParents[prev]++] on a uint8 entry. *)
Definition count_mined (m : CPUMiner) (prev : Hash) : CPUMiner :=
  set_minedOnParents m
    (<[prev := Word.u8 (mined m prev + 1)]> (minedOnParents m)).

(** Every evaluator invocation is counted once: in a report already sent,
    or in the session's counter, up to whole turns of the uint64 counter. *)
Definition accounted (tr : list event) (hc : Z) : Prop :=
  0 <= hc /\ 0 <= reported tr
  /\ exists turns, 0 <= turns
       /\ solves tr = reported tr + hc + turns * 2 ^ 64.

(** A session that started on miner [m0]: it has handed a block to
    [submitBlock] only if it is solved, and then once, the block it holds,
    which is a solution and has been counted on its parent. *)
Definition session_safe {Solution : Type} `{!External Solution}
  (m0 : CPUMiner) (s : Search Solution) : Prop :=
  let d := data s in
  cbN d = paramN /\ cbK d = paramK
  /\ submitted (trace s) = (if solved d then [msgBlock d] else [])
  /\ (solved d = true -> is_solution paramN paramK (msgBlock d) = true)
  /\ miner s = (if solved d
                then count_mined m0 (PrevBlock (Header (msgBlock d)))
                else m0)
  /\ (forall r, pc s = Returned r -> r = solved d)
  /\ accounted (trace s) (hashesCompleted d).


(** What one validator call does to an unsolved session. *)
Record validated_safe {Solution : Type} `{!External Solution}
  (d : callbackData) (m : CPUMiner)
  (d' : callbackData) (m' : CPUMiner) (ev : list event) : Prop := {
  vs_n : cbN d' = cbN d;
  vs_k : cbK d' = cbK d;
  vs_submitted : submitted ev = (if solved d' then [msgBlock d'] else []);
  vs_solution :
    solved d' = true -> is_solution (cbN d) (cbK d) (msgBlock d') = true;
  vs_miner :
    m' = (if solved d'
          then count_mined m (PrevBlock (Header (msgBlock d')))
          else m);
  vs_reported : reported ev + hashesCompleted d' = hashesCompleted d;
  vs_counter : 0 <= hashesCompleted d -> 0 <= hashesCompleted d';
  vs_reports : 0 <= hashesCompleted d -> 0 <= reported ev;
  vs_solves : solves ev = 0
}.

(** The miner after the mined counters of the parents of [bs] have been
    incremented, one block after the other. *)
Definition mined_all (m : CPUMiner) (bs : list MsgBlock) : CPUMiner :=
  foldl (fun m b => count_mined m (PrevBlock (Header b))) m bs.

(** [block.Hash()] as [GenerateNBlocks] stores it in [blockHashes]. *)
Definition hash_of {Solution : Type} `{!External Solution} (b : MsgBlock)
  : option Hash :=
  Some (BlockHash (Header b)).


(** Whether a pool miner is mining after a sequence of supervisor calls, as
    a caller would expect it: the last of the calls [Start], [Stop] and
    [SetNumWorkers(0)] decides. *)
Definition mining_after (b : bool) (ops : list Op) : bool :=
  foldl (fun b op =>
           match op with
           | OpStart => true
           | OpStop => false
           | OpSetNumWorkers n => if n =? 0 then false else b
           end) b ops.


(** ** Channels that are never closed

    A channel value is allocated when it is nil or was made earlier.  Two
    heaps have the same shape when they hold the same channels with the same
    capacities, the same ones of them closed.  Two miners have the same
    channels when their channel fields agree. *)

Definition alloc (c : chan) (h : heap) : Prop :=
  match c with
  | None => True
  | Some a => (a < length h)%nat
  end.

Definition same_shape (h h' : heap) : Prop :=
  length h' = length h
  /\ forall c, is_open c h' = is_open c h /\ capacity c h' = capacity c h.

Definition same_chans (m m' : CPUMiner) : Prop :=
  miningStoppper m' = miningStoppper m
  /\ runningWorkers m' = runningWorkers m
  /\ quit m' = quit m
  /\ speedMonitorQuit m' = speedMonitorQuit m.

(** The abandon channels are pairwise distinct, open and of capacity one,
    and none of them is at the same time a worker's quit channel, the
    miner's quit channel or the speed monitor's. *)
Definition stoppers_safe (m : CPUMiner) (h : heap) : Prop :=
  NoDup (miningStoppper m)
  /\ Forall (fun c => is_open c h = true /\ capacity c h = 1%nat)
       (miningStoppper m)
  /\ Forall (fun c => alloc c h /\ c ∉ miningStoppper m) (runningWorkers m)
  /\ (alloc (quit m) h /\ quit m ∉ miningStoppper m)
  /\ (alloc (speedMonitorQuit m) h /\ speedMonitorQuit m ∉ miningStoppper m).

(** The operations of the file that touch channels, each taken as a whole:
    the supervisor's calls, the controller's start and its reactions, a
    search session of a pool worker, and a discrete generation. *)
Inductive Action (Solution : Type) :=
  | ActOp (op : Op)
  | ActControllerStart
  | ActResize
  | ActShutdown
  | ActAfterWait
  | ActSession (fuel : nat) (template : MsgBlock) (q term : chan) (id : Z)
      (st : Entry) (sc : list (Iter Solution))
  | ActGenerate (generateSupported : bool) (addrs : nat) (n : Z)
      (rounds : list (Round Solution)).

Arguments ActOp {Solution}.
Arguments ActControllerStart {Solution}.
Arguments ActResize {Solution}.
Arguments ActShutdown {Solution}.
Arguments ActAfterWait {Solution}.
Arguments ActSession {Solution}.
Arguments ActGenerate {Solution}.

Definition perform {Solution : Type} `{!External Solution}
  (a : Action Solution) (w : world) : res world :=
  match a with
  | ActOp op => apply_op op w
  | ActControllerStart => Ret (controller_start w)
  | ActResize => on_updateNumWorkers w
  | ActShutdown => on_quit w
  | ActAfterWait => after_wait w
  | ActSession fuel template q term id st sc =>
      let '(m, h, ev) := w in
      s <- generateBlocks_attempt fuel m h template q term id st sc ;;
      Ret (miner s, hp s, ev ++ trace s)
  | ActGenerate sup addrs n rounds =>
      r <- GenerateNBlocks sup addrs n rounds w ;; Ret (snd r)
  end.

Fixpoint perform_all {Solution : Type} `{!External Solution}
  (acts : list (Action Solution)) (w : world) : res world :=
  match acts with
  | [] => Ret w
  | a :: rest => w' <- perform a w ;; perform_all rest w'
  end.


(** ** [generateBlocks] *)

(** What the environment contributes to one pass of a pool worker's loop:
    whether the select at the top takes the quit case (it can once the
    controller has closed the worker's quit channel), the template, and the
    inputs of the search session on it. *)
Record WorkerRound (Solution : Type) := mkWorkerRound {
  wr_quit : bool;
  wr_template : Template;
  wr_entry : Entry;
  wr_script : list (Iter Solution);
  wr_fuel : nat
}.

Arguments mkWorkerRound {Solution}.
Arguments wr_quit {Solution}.
Arguments wr_template {Solution}.
Arguments wr_entry {Solution}.
Arguments wr_script {Solution}.
Arguments wr_fuel {Solution}.

Section Worker.
Context {Solution : Type} `{!External Solution}.

(** [generateBlocks(quit, term, id)] up to and including
    [m.workerWg.Done()].  [simnet] is [cfg.SimNet] and [addrs] is
    [len(cfg.miningAddrs)]: [rand.Intn] panics on zero.  The sleeps have no
    effect on the state.  The loop ends by the quit case only: when the
    rounds run out, or a session is still searching after its steps, the
    outcome is [OutOfFuel].  The miner is threaded through the steps of
    this one goroutine: what other goroutines write to the miner meanwhile
    (another worker's [m.minedOnParents[prev]++], a resize) is not
    represented, so the function describes a worker while no other writes
    the miner. *)
Fixpoint generateBlocks (simnet : bool) (addrs : nat)
  (rounds : list (WorkerRound Solution)) (q term : chan) (id : Z)
  (w : world) : res world :=
  match rounds with
  | [] => OutOfFuel
  | rd :: rest =>
      let '(m, h, ev) := w in
      if wr_quit rd then Ret (set_workerWg m (workerWg m - 1), h, ev)
      else if (addrs =? 0)%nat then Panic
      else
        match wr_template rd with
        | TemplateError => generateBlocks simnet addrs rest q term id w
        | TemplateNone => generateBlocks simnet addrs rest q term id w
        | TemplateBlock blk =>
            if simnet
               && (mined m (PrevBlock (Header blk)) >=? maxSimnetToMine)
            then generateBlocks simnet addrs rest q term id w
            else
              s <- generateBlocks_attempt (wr_fuel rd) m h blk q term id
                     (wr_entry rd) (wr_script rd) ;;
              match pc s with
              | Returned _ =>
                  generateBlocks simnet addrs rest q term id
                    (miner s, hp s, ev ++ trace s)
              | _ => OutOfFuel
              end
        end
  end.

End Worker.







(** ** Templates with a coinbase

    [NewBlockTemplate] hands out blocks whose first transaction is the
    coinbase, and [UpdateBlockTime] touches the header only. *)
Definition has_coinbase (b : MsgBlock) : Prop := Transactions b <> [].

Definition keeps_coinbase (tk : Tick) : Prop :=
  forall b, has_coinbase b -> has_coinbase (fst (tk_UpdateBlockTime tk b)).

Definition poll_keeps_coinbase (p : Poll) : Prop :=
  match p with
  | PollTick tk => keeps_coinbase tk
  | _ => True
  end.

Definition probe_keeps_coinbase {Solution : Type} (x : Probe Solution)
  : Prop :=
  match x with
  | Null p => poll_keeps_coinbase p
  | Candidate _ _ => True
  end.

Definition iter_keeps_coinbase {Solution : Type} (it : Iter Solution)
  : Prop :=
  poll_keeps_coinbase (it_poll it)
  /\ Forall probe_keeps_coinbase (it_probes it).

Definition template_has_coinbase (t : Template) : Prop :=
  match t with
  | TemplateBlock b => has_coinbase b
  | _ => True
  end.

(** A search that can go on without a panic: its abandon channels are
    safe, its template has a coinbase, and the timestamp updates to come
    keep it. *)
Definition search_ok {Solution : Type} (s : Search Solution) : Prop :=
  stoppers_safe (miner s) (hp s)
  /\ has_coinbase (msgBlock (data s))
  /\ Forall iter_keeps_coinbase (script s).


Definition round_ok {Solution : Type} (rd : Round Solution) : Prop :=
  template_has_coinbase (rd_template rd)
  /\ Forall iter_keeps_coinbase (rd_script rd).


(** The outcome is not a panic. *)
Definition no_panic {A : Type} (x : res A) : Prop :=
  (exists a, x = Ret a) \/ x = OutOfFuel.


(** ** Candidates delivered in a run

    The validator is called by the evaluator only, and the evaluator is
    invoked by the nonce loop only.  [called probes d m h d' m' h' x]: an
    evaluator invocation that starts on session [d], miner [m] and channels
    [h] with [probes] to offer calls the validator on [x] in the state
    [d'], [m'], [h']; it does so on its first probe, and on a later one
    after each earlier call was answered 0.  [invokes s d probes]: the next
    step of the search [s] passes the select of the nonce loop (by its
    default case, or by a timer update that succeeds) and invokes the
    evaluator, the session being [d] before the nonce is written. *)

Section Delivery.
Context {Solution : Type} `{!External Solution}.

Inductive called
  : list (Probe Solution) -> callbackData -> CPUMiner -> heap ->
    callbackData -> CPUMiner -> heap -> Probe Solution -> Prop :=
  | called_first x rest d m h : called (x :: rest) d m h d m h x
  | called_later x rest d m h v d' m' h' y :
      validate d m h x = Ret v -> v_code v = 0 ->
      called rest (v_data v) (v_miner v) (v_heap v) d' m' h' y ->
      called (x :: rest) d m h d' m' h' y.

Inductive invokes
  : Search Solution -> callbackData -> list (Probe Solution) -> Prop :=
  | invokes_default s it rest :
      pc s = AtInner ->
      (nonce s <=? maxNonce) && negb (IsExiting (data s)) = true ->
      script s = it :: rest ->
      it_poll it = PollDefault ->
      invokes s (data s) (it_probes it)
  | invokes_tick s it rest tk d ev :
      pc s = AtInner ->
      (nonce s <=? maxNonce) && negb (IsExiting (data s)) = true ->
      script s = it :: rest ->
      it_poll it = PollTick tk ->
      updateBlockTime (data s) tk = (true, d, ev) ->
      invokes s d (it_probes it).

(** The validator is called on [x] in the state [d], [m], [h] at some point
    of the run of the search that starts in [s0]. *)
Definition delivered (s0 : Search Solution)
  (d : callbackData) (m : CPUMiner) (h : heap) (x : Probe Solution) : Prop :=
  exists fuel s d0 probes,
    run fuel s0 = Ret s
    /\ invokes s d0 probes
    /\ called probes (set_header_of d0 (fun hd => set_Nonce hd (nonce s)))
         (miner s) (hp s) d m h x.

(** [SetNumWorkers] from [m.Lock()] on, that is after the call of [Stop]
    for a count of zero has returned. *)
Definition SetNumWorkers_locked (n : Z) (w : world) : res world :=
  let '(m, h, ev) := w in
  let m := if n <? 0 then set_numWorkers m defaultNumWorkers
           else set_numWorkers m (Word.u32 n) in
  if started m then Ret (m, h, ev ++ [EvWake]) else Ret (m, h, ev).

End Delivery.

(** ** The monitor's quit channel during a run of the pool

    Until the controller has stopped the monitor, the monitor's quit
    channel is open; while the controller is in its loop, it is none of the
    active workers' quit channels. *)
Definition monitor_inv (p : Pool) : Prop :=
  (pl_ctl p <> CtlStopped ->
   is_open (speedMonitorQuit (pl_miner p)) (pl_heap p) = true)
  /\ (pl_ctl p = CtlLoop ->
      speedMonitorQuit (pl_miner p) ∉ runningWorkers (pl_miner p)).

Definition is_LExit (l : Label) : bool :=
  match l with LExit _ => true | _ => false end.


(** The reference session as the evaluator finds it in the first pass of
    the nonce loop: extra nonce (offset 5) and nonce 0 written. *)
Definition first_pass_session : callbackData :=
  set_header_of
    (@enter_extraNonce _ Reference.collaborators (Reference.session 0 0) 0 5)
    (fun hd => set_Nonce hd 0).


(** * Properties *)

(** ** Fixed-width arithmetic *)

Module WordFacts.
Import Word.

Lemma u32_id x : is_u32 x -> u32 x = x.
Proof. intros Hx. unfold u32, wrap. apply Z.mod_small. exact Hx. Qed.

Lemma u32_range x : is_u32 (u32 x).
Proof. unfold is_u32, u32, wrap. apply Z.mod_pos_bound. lia. Qed.

Lemma u64_range x : 0 <= u64 x < 2 ^ 64.
Proof. unfold u64, wrap. apply Z.mod_pos_bound. lia. Qed.

Lemma u8_range x : 0 <= u8 x < 256.
Proof. unfold u8, wrap. apply Z.mod_pos_bound. lia. Qed.

Lemma i32_id x : is_i32 x -> i32 x = x.
Proof.
  unfold is_i32, i32. intros Hx.
  rewrite Z.mod_small; lia.
Qed.

Lemma u32_of_nonneg_i32 x : 0 <= x -> is_i32 x -> u32 x = x.
Proof. intros H0 Hx. apply u32_id. unfold is_i32 in Hx. unfold is_u32. lia. Qed.

Lemma u32_pred_zero : u32 (0 - 1) = 2 ^ 32 - 1.
Proof. reflexivity. Qed.

Lemma u32_succ_max : u32 (maxNonce + 1) = 0.
Proof. reflexivity. Qed.

(** The condition [i <= maxNonce] holds of every uint32. *)
Lemma u32_le_maxNonce x : (u32 x <=? maxNonce) = true.
Proof.
  pose proof (u32_range x) as Hx. unfold is_u32 in Hx.
  apply Z.leb_le. unfold maxNonce. lia.
Qed.

End WordFacts.

(** ** Block submission gate *)

Section SubmitFacts.
Context {Solution : Type} `{!External Solution}.

Lemma submitBlock_failure block r :
  accepted_connected r = false ->
  exists line, submitBlock block r = Some (false, line) /\ level line <> Infof.
Proof.
  unfold accepted_connected, submitBlock.
  destruct (perr r) as [[code|]|].
  - intros _. destruct (ReduceMinDifficulty && _); eexists; split; eauto; discriminate.
  - intros _. eexists; split; eauto; discriminate.
  - destruct (isOrphan r); [|discriminate].
    intros _. eexists; split; eauto; discriminate.
Qed.

Lemma submitBlock_success block r :
  accepted_connected r = true ->
  Transactions block <> [] ->
  exists coinbase rest,
    Transactions block = coinbase :: rest /\
    submitBlock block r
    = Some (true, LogAccepted (coinbaseTxGenerated (TxOuts coinbase))).
Proof.
  unfold accepted_connected, submitBlock.
  destruct (perr r); [discriminate|].
  destruct (isOrphan r); [discriminate|].
  intros _ Htx. destruct (Transactions block) as [|cb rest]; [congruence|].
  exists cb, rest. split; reflexivity.
Qed.

Lemma submitBlock_value block r ok line :
  submitBlock block r = Some (ok, line) -> ok = accepted_connected r.
Proof.
  unfold accepted_connected, submitBlock.
  destruct (perr r) as [[code|]|].
  - destruct (ReduceMinDifficulty && _); congruence.
  - congruence.
  - destruct (isOrphan r); simpl; [congruence|].
    destruct (Transactions block); congruence.
Qed.

(** C8. [submitBlock] hands its caller a boolean and nothing else.  Whenever
    the consensus processor reports an unexpected error, a rule violation
    (the reduced-difficulty high-hash case included, which is logged with
    Debugf instead of Errorf) or an orphan, the call returns false and the
    classes differ in the line logged only; on a block that was accepted and
    connected, and that carries its coinbase transaction, the call returns
    true and logs the coinbase total; and whatever it returns is true exactly
    when the block was accepted and connected. *)
Theorem C8_submitBlock_boolean_outcome (block : MsgBlock) (r : ProcessResult) :
  (perr r = Some OtherError ->
     submitBlock block r = Some (false, LogUnexpected))
  /\ (perr r = Some (RuleError ErrHighHash) -> ReduceMinDifficulty = true ->
     submitBlock block r = Some (false, LogReduceMinDifficulty))
  /\ (forall code, perr r = Some (RuleError code) ->
     (ReduceMinDifficulty = false \/ code <> ErrHighHash) ->
     submitBlock block r = Some (false, LogRejected))
  /\ (perr r = None -> isOrphan r = true ->
     submitBlock block r
     = Some (false, LogOrphan (PrevBlock (Header block))))
  /\ (accepted_connected r = false ->
     exists line, submitBlock block r = Some (false, line))
  /\ (accepted_connected r = true -> Transactions block <> [] ->
     exists amount, submitBlock block r = Some (true, LogAccepted amount))
  /\ (forall ok line, submitBlock block r = Some (ok, line) ->
     (ok = true <-> accepted_connected r = true)).
Proof.
  repeat split.
  - intros He. unfold submitBlock. rewrite He. reflexivity.
  - intros He Hr. unfold submitBlock. rewrite He, Hr. reflexivity.
  - intros code He Hc. unfold submitBlock. rewrite He.
    destruct Hc as [Hc|Hc]; [rewrite Hc; reflexivity|].
    destruct code; [congruence|]. rewrite andb_false_r. reflexivity.
  - intros He Ho. unfold submitBlock. rewrite He, Ho. reflexivity.
  - intros Hf. destruct (submitBlock_failure block r Hf) as (line & Hl & _).
    eauto.
  - intros Ha Htx.
    destruct (submitBlock_success block r Ha Htx) as (cb & rest & _ & Hs).
    eauto.
  - intros ->. symmetry. eapply submitBlock_value; eauto.
  - intros Ha. apply submitBlock_value in H. congruence.
Qed.

End SubmitFacts.

(** C8 on the reference template: a duplicate is refused, an accepted block
    is reported with the coinbase total of 50. *)
Lemma C8_submitBlock_witness :
  @submitBlock _ Reference.collaborators Reference.template Reference.duplicate
  = Some (false, LogRejected)
  /\ @submitBlock _ Reference.collaborators Reference.template
       Reference.accepted
     = Some (true, LogAccepted 50).
Proof.
  pose proof (@C8_submitBlock_boolean_outcome _ Reference.collaborators
                Reference.template Reference.duplicate) as Hd.
  pose proof (@C8_submitBlock_boolean_outcome _ Reference.collaborators
                Reference.template Reference.accepted) as Ha.
  destruct Hd as (_ & _ & Hd & _).
  destruct Ha as (_ & _ & _ & _ & _ & Ha & _).
  split.
  - apply (Hd (ErrOtherRule 1)); [reflexivity|]. left. reflexivity.
  - destruct (Ha eq_refl ltac:(discriminate)) as (amount & Hs).
    rewrite Hs. vm_compute in Hs. congruence.
Defined.

(** ** The staleness test *)

Section StalenessFacts.
Context {Solution : Type} `{!External Solution}.

Lemma stale_iff d tk :
  stale d tk = true <->
  (lastTxUpdate d <> tk_LastUpdated tk /\
   tk_Now3 tk > lastGenerated d + 3 * Second)
  \/ tk_Now60 tk > lastGenerated d + 60 * Second.
Proof.
  unfold stale.
  rewrite orb_true_iff, andb_true_iff, negb_true_iff, Z.eqb_neq.
  rewrite !Z.gtb_gt. reflexivity.
Qed.

Lemma stale_reset_hashes d tk v :
  stale (set_hashesCompleted d v) tk = stale d tk.
Proof. reflexivity. Qed.

(** A single call: the attempt is declared failed exactly when the test on
    the stamp the session currently holds says stale, or the timestamp
    update or the re-serialisation fails. *)
Lemma updateBlockTime_false_iff d tk :
  let b := fst (tk_UpdateBlockTime tk (msgBlock d)) in
  (updateBlockTime d tk).1.1 = false <->
  stale d tk = true
  \/ is_Some (snd (tk_UpdateBlockTime tk (msgBlock d)))
  \/ is_Some (snd (SerializeAllHeaderBytes (Header b))).
Proof.
  unfold updateBlockTime. rewrite stale_reset_hashes. simpl.
  destruct (stale d tk); simpl; [tauto|].
  destruct (tk_UpdateBlockTime tk (msgBlock d)) as [b [e|]]; simpl.
  - split; [intros _|reflexivity]. right. left. eauto.
  - destruct (SerializeAllHeaderBytes (Header b)) as [bytes [e|]]; simpl.
    + split; [intros _|reflexivity]. right. right. eauto.
    + split; [discriminate|].
      intros [?|[[? ?]|[? ?]]]; discriminate.
Qed.

(** Every call reports the hashes counted so far and resets the counter. *)
Lemma updateBlockTime_reports d tk :
  (updateBlockTime d tk).2 = [EvReport (hashesCompleted d)]
  /\ hashesCompleted (updateBlockTime d tk).1.2 = 0.
Proof.
  unfold updateBlockTime.
  destruct (stale _ tk); simpl; [split; reflexivity|].
  destruct (tk_UpdateBlockTime tk _) as [b [e|]]; simpl; [split; reflexivity|].
  destruct (SerializeAllHeaderBytes _) as [bytes [e|]]; simpl; split; reflexivity.
Qed.

(** The terminal flags, the creation time and the channels are not touched;
    a non-stale tick replaces the stored mempool stamp. *)
Lemma updateBlockTime_frame d tk :
  let d' := (updateBlockTime d tk).1.2 in
  solved d' = solved d /\ exiting d' = exiting d
  /\ lastGenerated d' = lastGenerated d /\ tid d' = tid d
  /\ (stale d tk = false -> lastTxUpdate d' = tk_LastUpdated' tk)
  /\ (stale d tk = true -> lastTxUpdate d' = lastTxUpdate d).
Proof.
  unfold updateBlockTime. rewrite stale_reset_hashes.
  destruct (stale d tk); simpl.
  - repeat split; intros; congruence.
  - destruct (tk_UpdateBlockTime tk _) as [b [e|]]; simpl.
    + repeat split; intros; congruence.
    + destruct (SerializeAllHeaderBytes _) as [bytes [e|]]; simpl;
        repeat split; intros; congruence.
Qed.

End StalenessFacts.

(** C2. The claim ties clause (a) to the mempool stamp recorded when the
    template was created.  The code overwrites that stamp on every tick that
    is not stale.  On the reference session created at time 0 with mempool
    stamp 0: the mempool changes at 0.5s; the tick at 1s sees the change but
    3s have not passed, so it stores the new stamp; at the tick at 4s the
    stamp still differs from the one of template creation and more than 3s
    have passed, yet the attempt is not declared stale. *)
Theorem C2_updateBlockTime_second_tick_not_stale :
  let d0 := Reference.session 0 0 in
  let changed := 500000000 in
  let t1 := Reference.tick (1 * Second) changed in
  let t2 := Reference.tick (4 * Second) changed in
  let r1 := @updateBlockTime _ Reference.collaborators d0 t1 in
  let r2 := @updateBlockTime _ Reference.collaborators r1.1.2 t2 in
  r1.1.1 = true
  /\ tk_LastUpdated t2 <> lastTxUpdate d0
  /\ tk_Now3 t2 > lastGenerated d0 + 3 * Second
  /\ r2.1.1 = true
  /\ lastTxUpdate r1.1.2 = changed.
Proof. vm_compute. repeat split; congruence. Qed.

(** ** The solution validator on a null probe *)

Section NullProbeFacts.
Context {Solution : Type} `{!External Solution}.

Lemma validate_exiting d m h (x : Probe Solution) :
  exiting d = true -> validate d m h x = Ret (mkValidated 2 d m h []).
Proof. intros He. unfold validate. rewrite He. reflexivity. Qed.

Lemma validate_null_signal d m h p :
  exiting d = false -> p = PollTerm \/ p = PollQuit ->
  exists v, validate d m h (Null p) = Ret v
    /\ v_code v = 2 /\ exiting (v_data v) = true /\ solved (v_data v) = false
    /\ v_miner v = m /\ v_events v = [].
Proof.
  intros He [-> | ->]; unfold validate; rewrite He;
    eexists; split; try reflexivity; simpl; auto.
Qed.

Lemma validate_null_default d m h :
  exiting d = false ->
  validate d m h (Null PollDefault) = Ret (mkValidated 0 d m h []).
Proof. intros He. unfold validate. rewrite He. reflexivity. Qed.

Lemma validate_null_tick d m h tk :
  exiting d = false ->
  validate d m h (Null (PollTick tk))
  = Ret (mkValidated (if (updateBlockTime d tk).1.1 then 0 else 2)
           (updateBlockTime d tk).1.2 m h (updateBlockTime d tk).2).
Proof.
  intros He. unfold validate. rewrite He.
  destruct (updateBlockTime d tk) as [[ok d'] ev]. simpl.
  destruct ok; reflexivity.
Qed.

(** A null probe is answered with 0 or 2, never with 1, and touches neither
    the mined counters nor the list of abandon channels. *)
Lemma validate_null_code d m h p :
  exists v, validate d m h (Null p) = Ret v
    /\ (v_code v = 0 \/ v_code v = 2) /\ v_miner v = m.
Proof.
  destruct (exiting d) eqn:He.
  - rewrite validate_exiting by exact He. eexists; split; [reflexivity|]. auto.
  - destruct p as [| |tk|].
    + destruct (validate_null_signal d m h PollTerm He) as (v & -> & Hc & _ & _ & Hm & _); auto.
      exists v. rewrite Hc. auto.
    + destruct (validate_null_signal d m h PollQuit He) as (v & -> & Hc & _ & _ & Hm & _); auto.
      exists v. rewrite Hc. auto.
    + rewrite validate_null_tick by exact He.
      eexists; split; [reflexivity|]. simpl.
      destruct (updateBlockTime d tk).1.1; auto.
    + rewrite validate_null_default by exact He.
      eexists; split; [reflexivity|]. auto.
Qed.

(** The stale branch answers 2 and leaves both terminal flags as they
    were. *)
Lemma validate_null_stale d m h tk :
  exiting d = false -> stale d tk = true ->
  exists v, validate d m h (Null (PollTick tk)) = Ret v
    /\ v_code v = 2
    /\ exiting (v_data v) = false /\ solved (v_data v) = solved d.
Proof.
  intros He Hs. rewrite validate_null_tick by exact He.
  eexists; split; [reflexivity|]. simpl.
  pose proof (updateBlockTime_frame d tk) as (Hsol & Hex & _).
  assert ((updateBlockTime d tk).1.1 = false) as ->.
  { apply updateBlockTime_false_iff. auto. }
  repeat split; congruence.
Qed.

End NullProbeFacts.

(** C3. The null-probe branch that runs the staleness test answers 2 without
    marking the session terminal, unlike the two signal branches next to it.
    On the reference session created at time 0, a null probe whose select
    takes the ticker at 61s (stale by the 60-second clause) is answered with
    2, the abort flag stays unset, and the session is still not exiting; the
    same probe with the abandon signal taken does set the flag.  In
    [solveBlock] the search therefore goes on after such a probe: the
    evaluator is invoked again, with the next nonce, on the stale
    template. *)
Theorem C3_validate_stale_probe_not_terminal :
  let d := Reference.session 0 0 in
  let late := Reference.tick (61 * Second) 0 in
  let v := @validate _ Reference.collaborators d Reference.miner0 []
             (Null (PollTick late)) in
  let v' := @validate _ Reference.collaborators d Reference.miner0 []
              (Null PollTerm) in
  stale d late = true
  /\ (exists r, v = Ret r /\ v_code r = 2
        /\ exiting (v_data r) = false /\ IsExiting (v_data r) = false)
  /\ (exists r', v' = Ret r' /\ v_code r' = 2 /\ exiting (v_data r') = true)
  /\ (exists s,
        @solveBlock _ Reference.collaborators 3 Reference.miner0 []
          Reference.template None None 1 Reference.entry
          [mkIter PollDefault [Null (PollTick late)]; quiet] = Ret s
        /\ pc s = AtInner
        /\ map snd (visits (trace s)) = [0; 1]).
Proof.
  split; [reflexivity|]. split; [|split].
  - eexists. split; [reflexivity|]. repeat split.
  - eexists. split; [reflexivity|]. repeat split.
  - eexists. split; [vm_compute; reflexivity|]. split; reflexivity.
Qed.

(** ** Channels *)

Section ChannelFacts.

Lemma try_send_open c h :
  is_closed c h = false ->
  exists h', try_send c h = Ret h'
    /\ length h' = length h
    /\ (forall c', is_closed c' h' = is_closed c' h)
    /\ (forall c', capacity c' h' = capacity c' h)
    /\ (forall c', (buffered c' h <= buffered c' h')%nat)
    /\ ((1 <= capacity c h)%nat -> (1 <= buffered c h')%nat).
Proof.
  destruct c as [a|]; simpl.
  2:{ intros _. exists h. repeat split; auto; lia. }
  destruct (h !! a) as [st|] eqn:Ha.
  2:{ intros _. exists h. repeat split; auto; lia. }
  intros Hopen. rewrite Hopen.
  pose proof (lookup_lt_Some _ _ _ Ha) as Hlt.
  destruct (ch_len st <? ch_cap st)%nat eqn:Hroom.
  - eexists. split; [reflexivity|].
    split; [apply length_insert|].
    assert (forall a', <[a:=mkChan (ch_cap st) (S (ch_len st)) false]> h !! a'
              = if decide (a = a')
                then Some (mkChan (ch_cap st) (S (ch_len st)) false)
                else h !! a') as Hlk.
    { intros a'. destruct (decide (a = a')) as [<-|Hne].
      - apply list_lookup_insert_eq. exact Hlt.
      - apply list_lookup_insert_ne. exact Hne. }
    split; [|split; [|split]].
    + intros [a'|]; simpl; [|reflexivity]. rewrite Hlk.
      destruct (decide (a = a')) as [<-|]; [|reflexivity].
      rewrite Ha. simpl. congruence.
    + intros [a'|]; simpl; [|reflexivity]. rewrite Hlk.
      destruct (decide (a = a')) as [<-|]; [|reflexivity].
      rewrite Ha. reflexivity.
    + intros [a'|]; simpl; [|lia]. rewrite Hlk.
      destruct (decide (a = a')) as [<-|]; [|lia].
      rewrite Ha. simpl. lia.
    + intros _. rewrite Hlk. rewrite decide_True by reflexivity. simpl. lia.
  - exists h. split; [reflexivity|]. split; [reflexivity|].
    split; [reflexivity|]. split; [reflexivity|]. split; [lia|].
    apply Nat.ltb_ge in Hroom. rewrite Ha. lia.
Qed.

Lemma try_send_closed c h : is_closed c h = true -> try_send c h = Panic.
Proof.
  destruct c as [a|]; simpl; [|discriminate].
  destruct (h !! a) as [st|]; [|discriminate].
  intros ->. reflexivity.
Qed.

Lemma send_all_open cs h :
  (forall c, c ∈ cs -> is_closed c h = false) ->
  exists h', send_all cs h = Ret h'
    /\ length h' = length h
    /\ (forall c', is_closed c' h' = is_closed c' h)
    /\ (forall c', capacity c' h' = capacity c' h)
    /\ (forall c', (buffered c' h <= buffered c' h')%nat)
    /\ (forall c, c ∈ cs -> (1 <= capacity c h)%nat ->
          (1 <= buffered c h')%nat).
Proof.
  revert h. induction cs as [|c cs IH]; intros h Hopen.
  - exists h. simpl. repeat split; auto. intros c Hc. inversion Hc.
  - destruct (try_send_open c h) as (h1 & Hs & Hl & Hcl & Hcap & Hbuf & Hfull).
    { apply Hopen. left. }
    destruct (IH h1) as (h2 & Hs2 & Hl2 & Hcl2 & Hcap2 & Hbuf2 & Hfull2).
    { intros c' Hc'. rewrite Hcl. apply Hopen. right. exact Hc'. }
    exists h2. simpl. rewrite Hs. simpl. split; [exact Hs2|].
    split; [congruence|].
    split; [intros c'; rewrite Hcl2; apply Hcl|].
    split; [intros c'; rewrite Hcap2; apply Hcap|].
    split; [intros c'; specialize (Hbuf c'); specialize (Hbuf2 c'); lia|].
    intros c' Hc' Hcap'. apply elem_of_cons in Hc' as [->|Hc'].
    + specialize (Hfull Hcap'). specialize (Hbuf2 c). lia.
    + apply Hfull2; [exact Hc'|]. rewrite Hcap. exact Hcap'.
Qed.

End ChannelFacts.

(** ** The solution validator on a candidate *)

Section CandidateFacts.
Context {Solution : Type} `{!External Solution}.

Lemma notify_from_siblings stoppers : forall (i : nat) ownTid h,
  Z.of_nat i + Z.of_nat (length stoppers) < 2 ^ 32 ->
  notify_from (Z.of_nat i) stoppers ownTid h
  = send_all (siblings_from i stoppers ownTid) h.
Proof.
  induction stoppers as [|c rest IH]; intros i ownTid h Hlen; [reflexivity|].
  simpl in Hlen. simpl.
  assert (Word.u32 (Z.of_nat i + 1) = Z.of_nat (S i)) as ->.
  { rewrite WordFacts.u32_id; [lia|]. unfold Word.is_u32. lia. }
  replace (Z.of_nat i + 1) with (Z.of_nat (S i)) by lia.
  destruct (Z.of_nat (S i) =? ownTid).
  - apply IH. lia.
  - simpl. destruct (try_send c h) as [h'| |]; simpl; try reflexivity.
    apply IH. lia.
Qed.

(** [notifyBlockDone] is a best-effort send to every sibling, in order. *)
Lemma notifyBlockDone_siblings m ownTid h :
  Z.of_nat (length (miningStoppper m)) < 2 ^ 32 ->
  notifyBlockDone m ownTid h = send_all (siblings m ownTid) h.
Proof.
  intros Hlen. unfold notifyBlockDone, siblings.
  rewrite WordFacts.u32_id by (unfold Word.is_u32; lia).
  rewrite Nat2Z.id, take_ge by lia.
  apply (notify_from_siblings _ 0%nat). simpl. lia.
Qed.

Lemma siblings_from_subset stoppers : forall i ownTid c,
  c ∈ siblings_from i stoppers ownTid -> c ∈ stoppers.
Proof.
  induction stoppers as [|c0 rest IH]; intros i ownTid c; simpl; [auto|].
  destruct (Z.of_nat i + 1 =? ownTid).
  - intros Hc. right. eapply IH. exact Hc.
  - intros Hc. apply elem_of_cons in Hc as [->|Hc]; [left|right].
    eapply IH. exact Hc.
Qed.

(** Every position other than [ownTid - 1] is a sibling. *)
Lemma siblings_from_lookup stoppers : forall i j ownTid c,
  stoppers !! j = Some c -> Z.of_nat (i + j) + 1 <> ownTid ->
  c ∈ siblings_from i stoppers ownTid.
Proof.
  induction stoppers as [|c0 rest IH]; intros i j ownTid c Hj Hne;
    [discriminate|].
  simpl. destruct j as [|j]; simpl in Hj.
  - injection Hj as ->. rewrite Nat.add_0_r in Hne.
    apply Z.eqb_neq in Hne. rewrite Hne. left.
  - assert (c ∈ siblings_from (S i) rest ownTid) as Hin.
    { eapply IH; [exact Hj|]. replace (S i + j)%nat with (i + S j)%nat by lia.
      exact Hne. }
    destruct (Z.of_nat i + 1 =? ownTid); [exact Hin|right; exact Hin].
Qed.

Lemma submitBlock_returns block r :
  Transactions block <> [] ->
  exists ok line, submitBlock block r = Some (ok, line).
Proof.
  intros Htx. destruct (accepted_connected r) eqn:Ha.
  - destruct (submitBlock_success block r Ha Htx) as (cb & rest & _ & Hs).
    eauto.
  - destruct (submitBlock_failure block r Ha) as (line & Hs & _). eauto.
Qed.

Lemma mined_insert_eq m prev x :
  mined (set_minedOnParents m (<[prev := x]> (minedOnParents m))) prev = x.
Proof. unfold mined. simpl. rewrite lookup_insert_eq. reflexivity. Qed.

Lemma mined_insert_ne m prev x p :
  p <> prev ->
  mined (set_minedOnParents m (<[prev := x]> (minedOnParents m))) p
  = mined m p.
Proof.
  intros Hne. unfold mined. simpl.
  rewrite lookup_insert_ne by congruence. reflexivity.
Qed.

(** The validator on a candidate it rejects: code 0, nothing submitted,
    miner and channels untouched; the template keeps the spliced proof and,
    when the hash met the target, the session keeps the re-serialised header
    bytes and has its solved flag cleared. *)
Lemma validate_candidate_rejected d m h s r :
  exiting d = false -> accepts d s = false ->
  exists v, validate d m h (Candidate s r) = Ret v
    /\ v_code v = 0 /\ v_events v = [] /\ v_miner v = m /\ v_heap v = h
    /\ msgBlock (v_data v) = set_Header (msgBlock d) (splice d s)
    /\ headerBytes (v_data v)
       = (if hash_meets_target (splice d s)
          then fst (SerializeAllHeaderBytes (splice d s))
          else headerBytes d)
    /\ solved (v_data v)
       = (if hash_meets_target (splice d s) then false else solved d)
    /\ exiting (v_data v) = false.
Proof.
  intros He Hacc. unfold validate. rewrite He.
  unfold accepts in Hacc. cbv zeta in Hacc.
  destruct (hash_meets_target (splice d s)) eqn:Hh.
  - rewrite andb_true_l in Hacc.
    cbn [cbN cbK headerBytes set_headerBytes set_msgBlock].
    rewrite Hacc.
    eexists. split; [reflexivity|]. cbn. rewrite He. repeat split.
  - eexists. split; [reflexivity|]. cbn. rewrite He. repeat split.
Qed.

(** The validator on a candidate it accepts. *)
Lemma validate_candidate_accepted d m h s r :
  exiting d = false -> accepts d s = true ->
  Transactions (msgBlock d) <> [] ->
  Z.of_nat (length (miningStoppper m)) < 2 ^ 32 ->
  Forall (fun c => is_closed c h = false) (miningStoppper m) ->
  let block := set_Header (msgBlock d) (splice d s) in
  let prev := PrevBlock (Header (msgBlock d)) in
  exists v ok line,
    validate d m h (Candidate s r) = Ret v
    /\ v_code v = 1
    /\ submitBlock block r = Some (ok, line)
    /\ v_events v = [EvSubmit block ok line]
    /\ v_miner v
       = set_minedOnParents m
           (<[prev := Word.u8 (mined m prev + 1)]> (minedOnParents m))
    /\ send_all (siblings m (tid d)) h = Ret (v_heap v)
    /\ msgBlock (v_data v) = block
    /\ headerBytes (v_data v) = fst (SerializeAllHeaderBytes (splice d s))
    /\ solved (v_data v) = true
    /\ exiting (v_data v) = false.
Proof.
  intros He Hacc Htx Hlen Hopen block prev.
  unfold accepts in Hacc. cbv zeta in Hacc.
  apply andb_true_iff in Hacc as [Hh Hv].
  destruct (submitBlock_returns block r) as (ok & line & Hs); [exact Htx|].
  destruct (send_all_open (siblings m (tid d)) h) as (h' & Hsend & _).
  { intros c Hc. apply siblings_from_subset in Hc.
    rewrite Forall_forall in Hopen. apply Hopen. exact Hc. }
  unfold validate. rewrite He, Hh.
  cbn [cbN cbK headerBytes set_headerBytes set_msgBlock set_solved msgBlock
       tid].
  rewrite Hv. fold block. rewrite Hs.
  rewrite notifyBlockDone_siblings by exact Hlen.
  change (siblings (set_minedOnParents m _) (tid d))
    with (siblings m (tid d)).
  rewrite Hsend. simpl res_bind.
  eexists _, ok, line. split; [reflexivity|]. cbn.
  repeat split; auto.
Qed.

End CandidateFacts.

Section CandidateClaims.
Context {Solution : Type} `{!External Solution}.

(** Whatever the validator returns on a candidate while the abort flag is
    unset, the session then holds the template with the spliced proof. *)
Lemma validate_candidate_data d m h s r v :
  exiting d = false ->
  validate d m h (Candidate s r) = Ret v ->
  msgBlock (v_data v) = set_Header (msgBlock d) (splice d s)
  /\ headerBytes (v_data v)
     = (if hash_meets_target (splice d s)
        then fst (SerializeAllHeaderBytes (splice d s))
        else headerBytes d).
Proof.
  intros He. unfold validate. rewrite He. cbv zeta.
  destruct (hash_meets_target (splice d s)).
  - cbn [cbN cbK headerBytes set_headerBytes set_msgBlock set_solved msgBlock
         tid].
    destruct (ValidateEquihash _ _ _ _ _).
    + destruct (submitBlock _ r) as [[ok line]|]; [|discriminate].
      destruct (notifyBlockDone _ _ h) as [h'| |]; simpl; try discriminate.
      intros [= <-]. split; reflexivity.
    + intros [= <-]. split; reflexivity.
  - intros [= <-]. split; reflexivity.
Qed.

(** The validator on a candidate while the session's abort flag is unset
    (the template carrying its coinbase, no abandon channel closed): it
    answers 1 exactly when the hash of the header with the spliced proof is
    at most the target decoded from the bits field and the verifier confirms
    the candidate, and 0 otherwise.  When it answers 1 it has submitted the
    block once, incremented the uint8 counter of the parent, attempted a
    non-blocking send on the abandon channel at every position other than
    its own (so each such buffered channel now holds a signal) and marked
    the session solved.  When it answers 0 it has submitted nothing, left
    miner and channels alone, and the session is not marked solved. *)
Lemma validate_candidate_unless_aborted
  (d : callbackData) (m : CPUMiner) (h : heap) (s : Solution)
  (r : ProcessResult) :
  exiting d = false ->
  Transactions (msgBlock d) <> [] ->
  Z.of_nat (length (miningStoppper m)) < 2 ^ 32 ->
  Forall (fun c => is_closed c h = false) (miningStoppper m) ->
  let header := splice d s in
  let block := set_Header (msgBlock d) header in
  let prev := PrevBlock (Header (msgBlock d)) in
  let meets :=
    (HashToBig (BlockHash header) <=? CompactToBig (Bits header))
    && ValidateEquihash (cbN d) (cbK d) (fst (SerializeAllHeaderBytes header))
         (Word.i64 (Nonce header)) (EquihashSolution header) in
  exists v, validate d m h (Candidate s r) = Ret v
    /\ (v_code v = 1 <-> meets = true)
    /\ (v_code v = 0 <-> meets = false)
    /\ (meets = true ->
        (exists ok line, submitBlock block r = Some (ok, line)
                         /\ v_events v = [EvSubmit block ok line])
        /\ mined (v_miner v) prev = Word.u8 (mined m prev + 1)
        /\ (forall p, p <> prev -> mined (v_miner v) p = mined m p)
        /\ miningStoppper (v_miner v) = miningStoppper m
        /\ send_all (siblings m (tid d)) h = Ret (v_heap v)
        /\ (forall i c, miningStoppper m !! i = Some c ->
              Z.of_nat i + 1 <> tid d -> (1 <= capacity c h)%nat ->
              (1 <= buffered c (v_heap v))%nat)
        /\ solved (v_data v) = true)
    /\ (meets = false ->
        v_events v = [] /\ v_miner v = m /\ v_heap v = h
        /\ (solved d = false -> solved (v_data v) = false)).
Proof.
  intros He Htx Hlen Hopen header block prev meets.
  change meets with (accepts d s).
  destruct (accepts d s) eqn:Hacc.
  - destruct (validate_candidate_accepted d m h s r He Hacc Htx Hlen Hopen)
      as (v & ok & line & Hv & Hc & Hs & Hev & Hm & Hsend & _ & _ & Hsol & _).
    exists v. split; [exact Hv|].
    split; [rewrite Hc; tauto|].
    split; [rewrite Hc; split; discriminate|].
    split; [|discriminate].
    intros _. split; [eauto|].
    rewrite Hm. split; [apply mined_insert_eq|].
    split; [intros p Hp; apply mined_insert_ne; exact Hp|].
    split; [reflexivity|]. split; [exact Hsend|]. split; [|exact Hsol].
    intros i c Hi Hne Hcap.
    destruct (send_all_open (siblings m (tid d)) h)
      as (h' & Hsend' & _ & _ & _ & _ & Hfull).
    { intros c' Hc'. apply siblings_from_subset in Hc'.
      rewrite Forall_forall in Hopen. apply Hopen. exact Hc'. }
    rewrite Hsend in Hsend'. injection Hsend' as <-.
    apply Hfull; [|exact Hcap].
    eapply (siblings_from_lookup _ 0%nat); [exact Hi|exact Hne].
  - destruct (validate_candidate_rejected d m h s r He Hacc)
      as (v & Hv & Hc & Hev & Hm & Hh & _ & _ & Hsol & _).
    exists v. split; [exact Hv|].
    split; [rewrite Hc; split; discriminate|].
    split; [rewrite Hc; tauto|].
    split; [discriminate|].
    intros _. repeat split; auto.
    intros Hd. rewrite Hsol.
    destruct (hash_meets_target (splice d s)); auto.
Qed.

(** The validator on a candidate while the session's abort flag is unset:
    it writes the extracted proof bytes into the header's EquihashSolution
    field and, whenever the resulting hash meets the target, overwrites the
    session's serialised header bytes; whatever code it then returns, the
    session holds these mutations, and on a rejected candidate it does
    return, with code 0, without restoring either. *)
Lemma validate_candidate_mutations
  (d : callbackData) (m : CPUMiner) (h : heap) (s : Solution)
  (r : ProcessResult) :
  exiting d = false ->
  let spliced :=
    copy (EquihashSolution (Header (msgBlock d)))
         (ExtractSolution (cbN d) (cbK d) s) in
  let header := set_EquihashSolution (Header (msgBlock d)) spliced in
  let meets := HashToBig (BlockHash header) <=? CompactToBig (Bits header) in
  (forall v, validate d m h (Candidate s r) = Ret v ->
     Header (msgBlock (v_data v)) = header
     /\ EquihashSolution (Header (msgBlock (v_data v))) = spliced
     /\ headerBytes (v_data v)
        = (if meets then fst (SerializeAllHeaderBytes header)
           else headerBytes d))
  /\ (accepts d s = false ->
      exists v, validate d m h (Candidate s r) = Ret v /\ v_code v = 0).
Proof.
  intros He spliced header meets. split.
  - intros v Hv.
    destruct (validate_candidate_data d m h s r v He Hv) as [Hb Hbytes].
    rewrite Hb. simpl. split; [reflexivity|]. split; [reflexivity|].
    exact Hbytes.
  - intros Hacc.
    destruct (validate_candidate_rejected d m h s r He Hacc)
      as (v & Hv & Hc & _).
    eauto.
Qed.

End CandidateClaims.

(** ** Candidates delivered in a run *)

Section DeliveryFacts.
Context {Solution : Type} `{!External Solution}.

(** A call the validator answers with 0 leaves the abort flag as it was. *)
Lemma validate_zero_exiting d m h (x : Probe Solution) v :
  validate d m h x = Ret v -> v_code v = 0 -> exiting (v_data v) = exiting d.
Proof.
  unfold validate.
  destruct (exiting d) eqn:He; [intros [= <-]; simpl; discriminate|].
  destruct x as [p|s r].
  - destruct p as [| |tk|].
    + intros [= <-]. simpl. discriminate.
    + intros [= <-]. simpl. discriminate.
    + pose proof (updateBlockTime_frame d tk) as (_ & Hex & _).
      destruct (updateBlockTime d tk) as [[ok d'] ev]. cbn [fst snd] in Hex.
      destruct ok; intros [= <-]; simpl; [|discriminate].
      intros _. congruence.
    + intros [= <-]. simpl. auto.
  - cbv zeta.
    destruct (hash_meets_target (splice d s)).
    2:{ intros [= <-]. simpl. auto. }
    match goal with
    | |- (if ?rc then _ else _) = _ -> _ => destruct rc
    end.
    2:{ intros [= <-]. simpl. auto. }
    destruct (submitBlock _ r) as [[ok line]|]; [|discriminate].
    destruct (notifyBlockDone _ _ h) as [h'| |]; simpl; try discriminate.
    intros [= <-]. simpl. discriminate.
Qed.

Lemma called_exiting probes d m h d' m' h' (x : Probe Solution) :
  called probes d m h d' m' h' x -> exiting d = false -> exiting d' = false.
Proof.
  intros Hc. induction Hc as [|x rest d m h v d' m' h' y Hv Hzero _ IH];
    [auto|].
  intros He. apply IH. rewrite (validate_zero_exiting _ _ _ _ _ Hv Hzero).
  exact He.
Qed.

(** The evaluator is invoked on sessions that are not terminal. *)
Lemma invokes_exiting (s : Search Solution) d probes :
  invokes s d probes -> exiting d = false.
Proof.
  intros Hi.
  destruct Hi as [s it rest Hpc Hcond Hsc Hpoll
                 |s it rest tk d ev Hpc Hcond Hsc Hpoll Hup];
    apply andb_true_iff in Hcond as [_ Hcond];
    apply negb_true_iff in Hcond; unfold IsExiting in Hcond;
    apply orb_false_iff in Hcond as [_ He].
  - exact He.
  - pose proof (updateBlockTime_frame (data s) tk) as (_ & Hex & _).
    rewrite Hup in Hex. cbn [fst snd] in Hex. congruence.
Qed.

(** No run delivers a probe to a session whose abort flag is set. *)
Lemma delivered_exiting (s0 : Search Solution) d m h x :
  delivered s0 d m h x -> exiting d = false.
Proof.
  intros (fuel & s & d0 & probes & _ & Hi & Hc).
  eapply called_exiting; [exact Hc|].
  apply invokes_exiting in Hi. exact Hi.
Qed.

(** The two relations describe the functions: an invocation is what the
    step of the search does next, and a call that is answered with a stop
    code is where the evaluator returns. *)
Lemma invokes_step (s : Search Solution) d probes :
  invokes s d probes ->
  exists ev rest, step s = evaluate s d (hp s) ev probes rest.
Proof.
  intros Hi.
  destruct Hi as [s it rest Hpc Hcond Hsc Hpoll
                 |s it rest tk d ev Hpc Hcond Hsc Hpoll Hup];
    unfold step; rewrite Hpc, Hcond, Hsc; cbv zeta; rewrite Hpoll.
  - exists [], rest. reflexivity.
  - rewrite Hup. exists ev, rest. reflexivity.
Qed.

Lemma called_SolveEquihash probes d m h d' m' h' (x : Probe Solution) :
  called probes d m h d' m' h' x ->
  forall v, validate d' m' h' x = Ret v -> v_code v <> 0 ->
  exists evs,
    SolveEquihash probes d m h
    = Ret (mkSolved (v_data v) (v_miner v) (v_heap v) evs).
Proof.
  intros Hc. induction Hc as [x rest d m h
                             |x rest d m h v0 d' m' h' y Hv0 Hzero _ IH];
    intros v Hv Hstop; simpl.
  - rewrite Hv. simpl.
    replace (v_code v =? 0) with false by (symmetry; apply Z.eqb_neq; auto).
    eauto.
  - rewrite Hv0. simpl. rewrite Hzero. simpl.
    destruct (IH v Hv Hstop) as (evs & ->). simpl. eauto.
Qed.

End DeliveryFacts.

Section DeliveryClaims.
Context {Solution : Type} `{!External Solution}.

(** C4.  For every candidate delivered to the validator in a run of
    [solveBlock] (the template carrying its coinbase, no abandon channel
    closed): the validator answers 1 exactly when the hash of the header
    with the spliced proof is at most the target decoded from the bits
    field and the verifier confirms the candidate, and 0 otherwise.  When
    it answers 1 it has submitted the block once, incremented the uint8
    counter of the parent, attempted a non-blocking send on the abandon
    channel at every position other than its own (so each such buffered
    channel now holds a signal) and marked the session solved.  When it
    answers 0 it has submitted nothing, left miner and channels alone, and
    the session is not marked solved. *)
Theorem C4_delivered_candidate_accepted_iff_meets_and_verified
  (m0 : CPUMiner) (h0 : heap) (blk : MsgBlock) (q term : chan) (id : Z)
  (st : Entry) (sc : list (Iter Solution))
  (d : callbackData) (m : CPUMiner) (h : heap) (s : Solution)
  (r : ProcessResult) :
  delivered (solveBlock_init m0 h0 blk q term id st sc) d m h
    (Candidate s r) ->
  Transactions (msgBlock d) <> [] ->
  Z.of_nat (length (miningStoppper m)) < 2 ^ 32 ->
  Forall (fun c => is_closed c h = false) (miningStoppper m) ->
  let header := splice d s in
  let block := set_Header (msgBlock d) header in
  let prev := PrevBlock (Header (msgBlock d)) in
  let meets :=
    (HashToBig (BlockHash header) <=? CompactToBig (Bits header))
    && ValidateEquihash (cbN d) (cbK d) (fst (SerializeAllHeaderBytes header))
         (Word.i64 (Nonce header)) (EquihashSolution header) in
  exists v, validate d m h (Candidate s r) = Ret v
    /\ (v_code v = 1 <-> meets = true)
    /\ (v_code v = 0 <-> meets = false)
    /\ (meets = true ->
        (exists ok line, submitBlock block r = Some (ok, line)
                         /\ v_events v = [EvSubmit block ok line])
        /\ mined (v_miner v) prev = Word.u8 (mined m prev + 1)
        /\ (forall p, p <> prev -> mined (v_miner v) p = mined m p)
        /\ miningStoppper (v_miner v) = miningStoppper m
        /\ send_all (siblings m (tid d)) h = Ret (v_heap v)
        /\ (forall i c, miningStoppper m !! i = Some c ->
              Z.of_nat i + 1 <> tid d -> (1 <= capacity c h)%nat ->
              (1 <= buffered c (v_heap v))%nat)
        /\ solved (v_data v) = true)
    /\ (meets = false ->
        v_events v = [] /\ v_miner v = m /\ v_heap v = h
        /\ (solved d = false -> solved (v_data v) = false)).
Proof.
  intros Hdel Htx Hlen Hopen.
  apply delivered_exiting in Hdel.
  exact (validate_candidate_unless_aborted d m h s r Hdel Htx Hlen Hopen).
Qed.

(** C10.  For every candidate delivered to the validator in a run of
    [solveBlock], the validator writes the extracted proof bytes into the
    header's EquihashSolution field and, whenever the resulting hash meets
    the target, overwrites the session's serialised header bytes; whatever
    code it then returns, the session holds these mutations, and on a
    rejected candidate it does return, with code 0, without restoring
    either. *)
Theorem C10_delivered_candidate_mutations_stay
  (m0 : CPUMiner) (h0 : heap) (blk : MsgBlock) (q term : chan) (id : Z)
  (st : Entry) (sc : list (Iter Solution))
  (d : callbackData) (m : CPUMiner) (h : heap) (s : Solution)
  (r : ProcessResult) :
  delivered (solveBlock_init m0 h0 blk q term id st sc) d m h
    (Candidate s r) ->
  let spliced :=
    copy (EquihashSolution (Header (msgBlock d)))
         (ExtractSolution (cbN d) (cbK d) s) in
  let header := set_EquihashSolution (Header (msgBlock d)) spliced in
  let meets := HashToBig (BlockHash header) <=? CompactToBig (Bits header) in
  (forall v, validate d m h (Candidate s r) = Ret v ->
     Header (msgBlock (v_data v)) = header
     /\ EquihashSolution (Header (msgBlock (v_data v))) = spliced
     /\ headerBytes (v_data v)
        = (if meets then fst (SerializeAllHeaderBytes header)
           else headerBytes d))
  /\ (accepts d s = false ->
      exists v, validate d m h (Candidate s r) = Ret v /\ v_code v = 0).
Proof.
  intros Hdel. apply delivered_exiting in Hdel.
  exact (validate_candidate_mutations d m h s r Hdel).
Qed.

End DeliveryClaims.

(** C4 on the reference pool of two workers: in the first pass of the nonce
    loop of worker 1 the evaluator delivers [good]; the answer is 1, one
    block is submitted and accepted, and the abandon channel of worker 2
    (channel 3) holds a signal. *)
Lemma C4_delivered_candidate_witness :
  @delivered _ Reference.collaborators
    (@solveBlock_init _ Reference.collaborators Reference.pool2.1.1 Reference.pool2.1.2
       Reference.template None None 1 Reference.entry
       [mkIter PollDefault [Candidate Reference.good Reference.accepted]])
    first_pass_session Reference.pool2.1.1 Reference.pool2.1.2
    (Candidate Reference.good Reference.accepted)
  /\ exists v,
       @validate _ Reference.collaborators first_pass_session
         Reference.pool2.1.1 Reference.pool2.1.2
         (Candidate Reference.good Reference.accepted) = Ret v
       /\ v_code v = 1
       /\ submissions (v_events v) = 1%nat
       /\ (1 <= buffered (Some 3%nat) (v_heap v))%nat.
Proof.
  assert (@delivered _ Reference.collaborators
            (@solveBlock_init _ Reference.collaborators Reference.pool2.1.1 Reference.pool2.1.2
               Reference.template None None 1 Reference.entry
               [mkIter PollDefault
                  [Candidate Reference.good Reference.accepted]])
            first_pass_session Reference.pool2.1.1 Reference.pool2.1.2
            (Candidate Reference.good Reference.accepted)) as Hdel.
  { exists 1%nat. eexists _, _, _. split; [reflexivity|].
    split; [eapply invokes_default; reflexivity|]. apply called_first. }
  split; [exact Hdel|].
  destruct (@C4_delivered_candidate_accepted_iff_meets_and_verified _
              Reference.collaborators
              Reference.pool2.1.1 Reference.pool2.1.2 Reference.template
              None None 1 Reference.entry
              [mkIter PollDefault
                 [Candidate Reference.good Reference.accepted]]
              first_pass_session Reference.pool2.1.1 Reference.pool2.1.2
              Reference.good Reference.accepted Hdel)
    as (v & Hv & Hcode & _ & Hyes & _).
  - vm_compute. discriminate.
  - vm_compute. reflexivity.
  - repeat constructor.
  - exists v. split; [exact Hv|].
    destruct (Hyes eq_refl) as ((ok & line & _ & Hev) & _ & _ & _ & _ & Hfull & _).
    split; [apply Hcode; reflexivity|].
    split; [rewrite Hev; reflexivity|].
    apply (Hfull 1%nat); [reflexivity|vm_compute; congruence|vm_compute; lia].
Defined.

(** C10 on the reference session: in the first pass of the nonce loop the
    evaluator delivers the proof [2; 2], which meets the target but fails
    the verifier; the validator answers 0 and the header keeps the spliced
    bytes, the session the re-serialised header. *)
Lemma C10_delivered_candidate_witness :
  @delivered _ Reference.collaborators
    (@solveBlock_init _ Reference.collaborators Reference.miner0 [] Reference.template None None 1
       Reference.entry [mkIter PollDefault [Candidate [2; 2] Reference.accepted]])
    first_pass_session Reference.miner0 []
    (Candidate [2; 2] Reference.accepted)
  /\ exists v,
       @validate _ Reference.collaborators first_pass_session
         Reference.miner0 [] (Candidate [2; 2] Reference.accepted) = Ret v
       /\ v_code v = 0
       /\ EquihashSolution (Header (msgBlock (v_data v))) = [2; 2; 255; 255]
       /\ headerBytes (v_data v)
          = [5] ++ replicate 31 0 ++ [2; 2; 255; 255].
Proof.
  assert (@delivered _ Reference.collaborators
            (@solveBlock_init _ Reference.collaborators Reference.miner0 [] Reference.template None None
               1 Reference.entry
               [mkIter PollDefault [Candidate [2; 2] Reference.accepted]])
            first_pass_session Reference.miner0 []
            (Candidate [2; 2] Reference.accepted)) as Hdel.
  { exists 1%nat. eexists _, _, _. split; [reflexivity|].
    split; [eapply invokes_default; reflexivity|]. apply called_first. }
  split; [exact Hdel|].
  destruct (@C10_delivered_candidate_mutations_stay _ Reference.collaborators
              Reference.miner0 [] Reference.template None None 1
              Reference.entry
              [mkIter PollDefault [Candidate [2; 2] Reference.accepted]]
              first_pass_session Reference.miner0 [] [2; 2]
              Reference.accepted Hdel) as [Hall Hrej].
  destruct (Hrej eq_refl) as (v & Hv & Hc).
  exists v. split; [exact Hv|]. split; [exact Hc|].
  destruct (Hall v Hv) as (_ & Hsol & Hbytes).
  split; [exact Hsol|exact Hbytes].
Defined.

(** ** Submissions of a search session *)

Section SearchFacts.
Context {Solution : Type} `{!External Solution}.

Lemma submissions_app tr1 tr2 :
  submissions (tr1 ++ tr2) = (submissions tr1 + submissions tr2)%nat.
Proof. unfold submissions. rewrite filter_app, length_app. reflexivity. Qed.

Lemma submissions_cons e tr :
  submissions (e :: tr) = (flag (is_submit e) + submissions tr)%nat.
Proof.
  unfold submissions. rewrite filter_cons.
  destruct (decide (is_submit e = true)) as [Hs|Hs].
  - rewrite Hs. reflexivity.
  - destruct (is_submit e); [congruence|reflexivity].
Qed.

(** A validator call on a session that is not solved submits exactly when
    it marks the session solved, and answers 0 only on a session it leaves
    unsolved. *)
Lemma validate_unsolved d m h (x : Probe Solution) v :
  solved d = false ->
  validate d m h x = Ret v ->
  submissions (v_events v) = flag (solved (v_data v))
  /\ (v_code v = 0 -> solved (v_data v) = false).
Proof.
  intros Hs. unfold validate.
  destruct (exiting d) eqn:He.
  { intros [= <-]. simpl. rewrite Hs. auto. }
  destruct x as [p|s r].
  - destruct p as [| |tk|].
    + intros [= <-]. simpl. auto.
    + intros [= <-]. simpl. auto.
    + pose proof (updateBlockTime_frame d tk) as (Hsol & _).
      pose proof (updateBlockTime_reports d tk) as (Hev & _).
      destruct (updateBlockTime d tk) as [[ok d'] ev]. simpl in *.
      destruct ok; intros [= <-]; simpl; rewrite Hsol, Hs, Hev; auto.
    + intros [= <-]. simpl. rewrite Hs. auto.
  - cbv zeta. destruct (hash_meets_target (splice d s)).
    + cbn [cbN cbK headerBytes set_headerBytes set_msgBlock set_solved
           msgBlock tid].
      destruct (ValidateEquihash _ _ _ _ _).
      * destruct (submitBlock _ r) as [[ok line]|]; [|discriminate].
        destruct (notifyBlockDone _ _ h) as [h'| |]; simpl; try discriminate.
        intros [= <-]. simpl. split; [reflexivity|discriminate].
      * intros [= <-]. simpl. auto.
    + intros [= <-]. simpl. rewrite Hs. auto.
Qed.

Lemma SolveEquihash_unsolved probes : forall d m h r,
  solved d = false ->
  SolveEquihash probes d m h = Ret r ->
  submissions (sv_events r) = flag (solved (sv_data r)).
Proof.
  induction probes as [|x rest IH]; intros d m h r Hs; simpl.
  - intros [= <-]. simpl. rewrite Hs. reflexivity.
  - destruct (validate d m h x) as [v| |] eqn:Hv; simpl; try discriminate.
    destruct (validate_unsolved d m h x v Hs Hv) as [Hsub Hzero].
    destruct (v_code v =? 0) eqn:Hc.
    + apply Z.eqb_eq in Hc. specialize (Hzero Hc).
      destruct (SolveEquihash rest _ _ _) as [r'| |] eqn:Hr; simpl;
        try discriminate.
      intros [= <-]. simpl. rewrite submissions_app, Hsub, Hzero. simpl.
      eapply IH; eauto.
    + intros [= <-]. simpl. exact Hsub.
Qed.

Lemma evaluate_inv s d h ev probes rest s' :
  solved d = false -> submissions (trace s) = 0%nat ->
  submissions ev = 0%nat ->
  evaluate s d h ev probes rest = Ret s' -> session_inv s'.
Proof.
  intros Hs Htr Hev. unfold evaluate.
  destruct (SolveEquihash probes _ (miner s) h) as [r| |] eqn:Hr; simpl;
    try discriminate.
  apply SolveEquihash_unsolved in Hr; [|exact Hs].
  intros [= <-]. split; [|simpl; discriminate].
  cbn [trace data].
  rewrite !submissions_app, submissions_cons, Htr, Hev, Hr. reflexivity.
Qed.

Lemma step_inv s s' : session_inv s -> step s = Ret s' -> session_inv s'.
Proof.
  intros [Hsub Hret]. unfold step.
  destruct (pc s) eqn:Hpc.
  - destruct (_ && _).
    + intros [= <-]. split; simpl; [exact Hsub|discriminate].
    + intros [= <-]. split; simpl; [exact Hsub|congruence].
  - destruct (nonce s <=? maxNonce); simpl.
    2:{ intros [= <-]. split; simpl; [exact Hsub|discriminate]. }
    destruct (IsExiting (data s)) eqn:Hex; simpl.
    { intros [= <-]. split; simpl; [exact Hsub|discriminate]. }
    unfold IsExiting in Hex. apply orb_false_iff in Hex as [Hs He].
    rewrite Hs in Hsub. simpl in Hsub.
    destruct (script s) as [|it rest].
    { intros [= <-]. split; [rewrite Hs; exact Hsub|].
      intros r0 Hr0. congruence. }
    destruct (it_poll it) as [| |tk|].
    + intros [= <-]. split; simpl; [exact Hsub|congruence].
    + intros [= <-]. split; simpl; [exact Hsub|congruence].
    + pose proof (updateBlockTime_frame (data s) tk) as (Hsol & _).
      pose proof (updateBlockTime_reports (data s) tk) as (Hev & _).
      destruct (updateBlockTime (data s) tk) as [[ok d'] ev]. simpl in *.
      destruct ok.
      * apply evaluate_inv; [congruence|exact Hsub|rewrite Hev; reflexivity].
      * intros [= <-]. split; simpl.
        -- rewrite submissions_app, Hsub, Hev, Hsol, Hs. reflexivity.
        -- intros r [= <-]. congruence.
    + apply evaluate_inv; [exact Hs|exact Hsub|reflexivity].
  - intros [= <-]. split; [exact Hsub|].
    intros r0 Hr0. apply Hret. congruence.
Qed.

Lemma run_inv fuel : forall s s',
  session_inv s -> run fuel s = Ret s' -> session_inv s'.
Proof.
  induction fuel as [|fuel IH]; intros s s' Hinv; simpl.
  - intros [= <-]. exact Hinv.
  - destruct (step s) as [s1| |] eqn:Hstep; simpl; try discriminate.
    apply IH. eapply step_inv; eauto.
Qed.

Lemma solveBlock_init_inv m h blk q term id st sc :
  session_inv (solveBlock_init m h blk q term id st sc).
Proof. split; simpl; [reflexivity|discriminate]. Qed.

(** A pool session: at most one submission; exactly one when [solveBlock]
    returns true, none when it returns false. *)
Lemma generateBlocks_attempt_submissions fuel m h blk q term id st sc s :
  generateBlocks_attempt fuel m h blk q term id st sc = Ret s ->
  (submissions (trace s) <= 1)%nat
  /\ (pc s = Returned true -> submissions (trace s) = 1%nat)
  /\ (pc s = Returned false -> submissions (trace s) = 0%nat).
Proof.
  intros Hrun. unfold generateBlocks_attempt, solveBlock in Hrun.
  apply run_inv in Hrun; [|apply solveBlock_init_inv].
  destruct Hrun as [Hsub Hret]. rewrite Hsub.
  split; [destruct (solved (data s)); simpl; lia|].
  split; intros Hpc; apply Hret in Hpc; rewrite <- Hpc; reflexivity.
Qed.

(** C1.  In discrete mode the invariant of the specification is broken: the
    validator has already submitted the block when [solveBlock] returns true,
    and [GenerateNBlocks] submits it again.  Every discrete session that ends
    solved has performed two [submitBlock] calls, the second on the very
    block of the first. *)
Theorem C1_discrete_session_submits_twice
  (fuel : nat) (m : CPUMiner) (h : heap) (blk : MsgBlock) (st : Entry)
  (sc : list (Iter Solution)) (r : ProcessResult) (s : Search Solution) :
  GenerateNBlocks_attempt fuel m h blk st sc r = Ret s ->
  pc s = Returned true ->
  submissions (trace s) = 2%nat
  /\ exists tr ok line,
       trace s = tr ++ [EvSubmit (msgBlock (data s)) ok line]
       /\ submissions tr = 1%nat.
Proof.
  unfold GenerateNBlocks_attempt.
  destruct (solveBlock fuel m h blk None None 1 st sc) as [s0| |] eqn:Hrun;
    simpl; try discriminate.
  pose proof Hrun as Hinv. unfold solveBlock in Hinv.
  apply run_inv in Hinv as [Hsub Hret]; [|apply solveBlock_init_inv].
  destruct (pc s0) as [| |[|]] eqn:Hpc.
  - intros [= <-]. congruence.
  - intros [= <-]. congruence.
  - destruct (submitBlock _ r) as [[ok line]|]; [|discriminate].
    intros [= <-] _. simpl.
    rewrite <- (Hret true eq_refl) in Hsub. simpl in Hsub.
    split.
    + rewrite submissions_app, Hsub. reflexivity.
    + exists (trace s0), ok, line. split; [reflexivity|exact Hsub].
  - intros [= <-]. congruence.
Qed.

End SearchFacts.

(** C1 on the reference template: the evaluator offers [good] in the first
    iteration; the validator's submission is accepted, the caller's second
    submission of the same block is refused as a duplicate. *)
Lemma C1_discrete_session_witness :
  exists s,
    @GenerateNBlocks_attempt _ Reference.collaborators 4 Reference.miner0 []
      Reference.template Reference.entry
      [mkIter PollDefault [Candidate Reference.good Reference.accepted]]
      Reference.duplicate = Ret s
    /\ pc s = Returned true
    /\ submissions (trace s) = 2%nat.
Proof.
  pose proof (@C1_discrete_session_submits_twice _ Reference.collaborators
                4 Reference.miner0 [] Reference.template Reference.entry
                [mkIter PollDefault
                   [Candidate Reference.good Reference.accepted]]
                Reference.duplicate) as Htwice.
  destruct (@GenerateNBlocks_attempt _ Reference.collaborators 4
              Reference.miner0 [] Reference.template Reference.entry
              [mkIter PollDefault
                 [Candidate Reference.good Reference.accepted]]
              Reference.duplicate) as [s| |] eqn:Hrun;
    vm_compute in Hrun; try discriminate.
  exists s. split; [reflexivity|].
  assert (pc s = Returned true) as Hpc.
  { injection Hrun as <-. reflexivity. }
  split; [exact Hpc|].
  apply (Htwice s eq_refl Hpc).
Defined.

(** ** The nonce enumeration *)

Section NonceFacts.
Context {Solution : Type} `{!External Solution}.

Lemma run_S fuel (s : Search Solution) :
  run (S fuel) s = (s' <- step s ;; run fuel s').
Proof. reflexivity. Qed.

Lemma run_snoc fuel : forall s : Search Solution,
  run (S fuel) s = (s' <- run fuel s ;; step s').
Proof.
  induction fuel as [|fuel IH]; intros s.
  - simpl. destruct (step s); reflexivity.
  - change (run (S (S fuel)) s) with (s1 <- step s ;; run (S fuel) s1).
    change (run (S fuel) s) with (s1 <- step s ;; run fuel s1).
    destruct (step s) as [s1| |]; simpl; [|reflexivity|reflexivity].
    apply IH.
Qed.

(** The condition of the nonce loop only ever fails through the terminal
    flags: its comparison with [maxNonce] holds of every uint32. *)
Lemma inner_condition (s : Search Solution) :
  Word.is_u32 (nonce s) ->
  (nonce s <=? maxNonce) && negb (IsExiting (data s))
  = negb (IsExiting (data s)).
Proof.
  intros Hn. unfold Word.is_u32 in Hn.
  replace (nonce s <=? maxNonce) with true; [reflexivity|].
  symmetry. apply Z.leb_le. unfold maxNonce. lia.
Qed.

(** The extra-nonce loop leaves before its counter reaches
    [maxExtraNonce]. *)
Lemma outer_condition_last (s : Search Solution) :
  pc s = AtOuter -> extraNonce s = maxExtraNonce ->
  exists s', step s = Ret s' /\ pc s' = Returned (solved (data s)).
Proof.
  intros Hpc Hen. unfold step. rewrite Hpc, Hen.
  rewrite Z.ltb_irrefl. simpl. eexists. split; reflexivity.
Qed.

Lemma step_quiet (s : Search Solution) rest :
  pc s = AtInner -> IsExiting (data s) = false ->
  Word.is_u32 (nonce s) -> script s = quiet :: rest ->
  step s
  = Ret (mkSearch AtInner
           (set_hashesCompleted
              (set_header_of (data s) (fun hd => set_Nonce hd (nonce s)))
              (Word.u64 (hashesCompleted (data s) + 1)))
           (miner s) (hp s) (enOffset s) (extraNonce s)
           (Word.u32 (nonce s + 1)) rest
           (trace s
            ++ [EvSolve (set_Nonce (Header (msgBlock (data s))) (nonce s))
                  (headerBytes (data s)) (nonce s)])).
Proof.
  intros Hpc Hex Hn Hsc. unfold step.
  rewrite Hpc, (inner_condition s Hn), Hex, Hsc. simpl.
  unfold evaluate. simpl. reflexivity.
Qed.

Lemma quiet_steps (k : nat) : forall rest (s0 : Search Solution),
  pc s0 = AtInner -> IsExiting (data s0) = false ->
  Word.is_u32 (nonce s0) -> script s0 = replicate k quiet ++ rest ->
  exists s, run k s0 = Ret s /\ quiet_after s0 s k /\ script s = rest
            /\ miner s = miner s0 /\ hp s = hp s0.
Proof.
  induction k as [|k IH]; intros rest s0 Hpc Hex Hn Hsc.
  - exists s0. split; [reflexivity|]. split; [|auto].
    unfold quiet_after. rewrite Z.add_0_r, Z.mod_small by exact Hn.
    simpl. rewrite app_nil_r. repeat split; auto.
  - rewrite replicate_S_end, <- app_assoc in Hsc. simpl in Hsc.
    destruct (IH (quiet :: rest) s0 Hpc Hex Hn Hsc)
      as (s1 & Hrun & Hq & Hsc1 & Hm1 & Hh1).
    destruct Hq as (Hpc1 & Hen1 & Hoff1 & Hn1 & Hex1 & Hb1 & Hhd1 & Htr1).
    assert (Word.is_u32 (nonce s1)) as Hu1.
    { rewrite Hn1. unfold Word.is_u32. apply Z.mod_pos_bound. lia. }
    rewrite run_snoc, Hrun. simpl.
    rewrite (step_quiet s1 rest Hpc1 Hex1 Hu1 Hsc1).
    eexists. split; [reflexivity|]. split; [|auto].
    unfold quiet_after.
    cbn [pc extraNonce enOffset nonce data trace].
    split; [reflexivity|]. split; [exact Hen1|]. split; [exact Hoff1|].
    split.
    { rewrite Hn1. unfold Word.u32, Word.wrap.
      rewrite Zplus_mod_idemp_l. f_equal. lia. }
    split; [exact Hex1|]. split; [exact Hb1|]. split.
    { intros x. apply Hhd1. }
    rewrite Htr1, seq_S, map_app, <- app_assoc.
    cbn [map Nat.add]. rewrite Hhd1, Hb1, Hn1. reflexivity.
Qed.

Lemma visits_solves (f : nat -> Z) hd bytes (l : list nat) :
  visits (map (fun j => EvSolve (set_Nonce hd (f j)) bytes (f j)) l)
  = map (fun j => (ExtraData hd, f j)) l.
Proof.
  induction l as [|j l IH]; [reflexivity|].
  simpl. unfold visits in *. simpl. rewrite IH. reflexivity.
Qed.

(** C9.  Absent any terminal condition the search does not sweep the pairs
    of extra nonce and nonce once each.  After [n] quiet iterations, for
    any [n], [solveBlock] is still inside the nonce loop of the first extra
    nonce (counter 0, that is the random offset itself), and its [k]-th
    evaluator invocation carried nonce [k mod 2^32]: incrementing the uint32
    loop variable past [maxNonce] wraps to 0 while [i <= maxNonce] keeps
    holding, so invocation 2^32 repeats invocation 0 and no second extra
    nonce is ever written. *)
Theorem C9_search_never_leaves_first_extra_nonce
  (n : nat) (m : CPUMiner) (h : heap) (blk : MsgBlock) (q term : chan)
  (id : Z) (st : Entry) :
  let offset := match en_RandomUint64 st with Some v => v | None => 0 end in
  let extra := PutUint64 (ExtraData (Header blk)) (Word.u64 (0 + offset)) in
  exists s : Search Solution,
    solveBlock (S n) m h blk q term id st (replicate n quiet) = Ret s
    /\ pc s = AtInner
    /\ extraNonce s = 0
    /\ script s = []
    /\ visits (trace s)
       = map (fun k => (extra, Z.of_nat k mod 2 ^ 32)) (seq 0 n).
Proof.
  intros offset extra.
  unfold solveBlock. rewrite run_S.
  set (s0 := mkSearch AtInner
               (enter_extraNonce
                  (mkData id paramN paramK false false blk [] q term 0
                     (en_Now st) (en_LastUpdated st)) 0 offset)
               m h offset 0 0 (replicate n (@quiet Solution)) []).
  assert (step (solveBlock_init m h blk q term id st (replicate n quiet))
          = Ret s0) as ->.
  { reflexivity. }
  simpl res_bind.
  destruct (quiet_steps n [] s0) as (s & Hrun & Hq & Hsc & _).
  - reflexivity.
  - reflexivity.
  - unfold Word.is_u32. simpl. lia.
  - simpl. rewrite app_nil_r. reflexivity.
  - exists s. split; [exact Hrun|].
    destruct Hq as (Hpc & Hen & _ & _ & _ & _ & _ & Htr).
    split; [exact Hpc|]. split; [exact Hen|]. split; [exact Hsc|].
    rewrite Htr. simpl trace. rewrite app_nil_l.
    rewrite (visits_solves (fun j => (0 + Z.of_nat j) mod 2 ^ 32)).
    reflexivity.
Qed.

End NonceFacts.

(** ** Closing channels *)

Section CloseFacts.

Lemma is_open_valid c h :
  is_open c h = true -> exists a, c = Some a /\ (a < length h)%nat.
Proof.
  destruct c as [a|]; simpl; [|discriminate].
  destruct (h !! a) as [st|] eqn:Ha; [|discriminate].
  intros _. exists a. split; [reflexivity|]. eapply lookup_lt_Some; eauto.
Qed.

Lemma is_closed_valid c h :
  is_closed c h = true -> exists a, c = Some a /\ (a < length h)%nat.
Proof.
  destruct c as [a|]; simpl; [|discriminate].
  destruct (h !! a) as [st|] eqn:Ha; [|discriminate].
  intros _. exists a. split; [reflexivity|]. eapply lookup_lt_Some; eauto.
Qed.

Lemma is_open_not_closed c h : is_open c h = true -> is_closed c h = false.
Proof.
  destruct c as [a|]; simpl; [|discriminate].
  destruct (h !! a) as [st|]; [|discriminate].
  destruct (ch_closed st); [discriminate|reflexivity].
Qed.

Lemma close_chan_open c h :
  is_open c h = true ->
  exists h', close_chan c h = Ret h'
    /\ length h' = length h
    /\ is_closed c h' = true
    /\ (forall c', is_closed c' h = true -> is_closed c' h' = true)
    /\ (forall c', c' <> c -> is_open c' h' = is_open c' h).
Proof.
  destruct c as [a|]; simpl; [|discriminate].
  destruct (h !! a) as [st|] eqn:Ha; [|discriminate].
  destruct (ch_closed st) eqn:Hc; [discriminate|]. intros _.
  pose proof (lookup_lt_Some _ _ _ Ha) as Hlt.
  eexists. split; [reflexivity|]. split; [apply length_insert|].
  split; [rewrite list_lookup_insert_eq by exact Hlt; reflexivity|].
  split.
  - intros [a'|]; simpl; [|discriminate].
    destruct (decide (a = a')) as [<-|Hne].
    + rewrite list_lookup_insert_eq by exact Hlt. reflexivity.
    + rewrite list_lookup_insert_ne by exact Hne. auto.
  - intros [a'|] Hne; simpl; [|reflexivity].
    rewrite list_lookup_insert_ne by congruence. reflexivity.
Qed.

Lemma close_chan_ret c h h' : close_chan c h = Ret h' -> is_open c h = true.
Proof.
  destruct c as [a|]; simpl; [|discriminate].
  destruct (h !! a) as [st|]; [|discriminate].
  destruct (ch_closed st); [discriminate|reflexivity].
Qed.

Lemma close_chan_sound c h h' :
  close_chan c h = Ret h' ->
  is_closed c h' = true
  /\ (forall c', is_closed c' h = true -> is_closed c' h' = true)
  /\ (forall c', c' <> c -> is_open c' h' = is_open c' h).
Proof.
  intros Hc. pose proof (close_chan_ret _ _ _ Hc) as Ho.
  destruct (close_chan_open c h Ho) as (h1 & Hc1 & _ & H1 & H2 & H3).
  rewrite Hc in Hc1. injection Hc1 as <-. auto.
Qed.

Lemma heap_grows_closed c (h ext : heap) :
  is_closed c h = true -> is_closed c (h ++ ext) = true.
Proof.
  intros Hc. destruct (is_closed_valid c h Hc) as (a & -> & Hlt).
  simpl in *. rewrite lookup_app_l by exact Hlt. exact Hc.
Qed.

Lemma heap_grows_open c (h ext : heap) :
  is_open c h = true -> is_open c (h ++ ext) = true.
Proof.
  intros Hc. destruct (is_open_valid c h Hc) as (a & -> & Hlt).
  simpl in *. rewrite lookup_app_l by exact Hlt. exact Hc.
Qed.

End CloseFacts.

(** ** The supervisor *)

Section SupervisorFacts.
Context {Solution : Type} `{!External Solution}.

(** [Stop] on a running pool miner whose quit channel is open. *)
Lemma Stop_running m h ev :
  started m = true -> discreteMining m = false ->
  is_open (quit m) h = true ->
  exists h', Stop (m, h, ev)
             = Ret (set_started (set_wg m 0) false, h',
                    ev ++ [EvClose (quit m); EvWaitAll])
    /\ is_closed (quit m) h' = true.
Proof.
  intros Hs Hd Ho. unfold Stop. rewrite Hs, Hd. simpl.
  destruct (close_chan_open (quit m) h Ho) as (h' & -> & _ & Hc & _).
  simpl. eauto.
Qed.

(** [Stop] is a no-op on a miner that is not running or is in discrete
    mode. *)
Lemma Stop_noop m h ev :
  started m = false \/ discreteMining m = true ->
  Stop (m, h, ev) = Ret (m, h, ev).
Proof.
  intros [Hs|Hd]; unfold Stop; [rewrite Hs|rewrite Hd]; simpl;
    [reflexivity|]. rewrite orb_true_r. reflexivity.
Qed.

(** C7 (amended).  [SetNumWorkers(n)] stores the platform default when
    [n < 0] and [n] otherwise.  With [n = 0] it first calls [Stop], which
    stops a running pool miner (quit channel closed, started flag cleared)
    but leaves a miner in discrete mode running.  In every case the wake-up
    is sent on [updateNumWorkers] exactly when the miner is still marked
    started afterwards. *)
Theorem C7_SetNumWorkers_configures_and_wakes
  (n : Z) (m : CPUMiner) (h : heap) (ev : list event) :
  Word.is_i32 n ->
  (started m = true -> discreteMining m = false ->
   is_open (quit m) h = true) ->
  let stops := (n =? 0) && started m && negb (discreteMining m) in
  exists m' h',
    SetNumWorkers n (m, h, ev)
    = Ret (m', h',
           ev ++ (if stops then [EvClose (quit m); EvWaitAll] else [])
              ++ (if started m' then [EvWake] else []))
    /\ numWorkers m' = (if n <? 0 then defaultNumWorkers else n)
    /\ started m' = (if stops then false else started m)
    /\ (stops = true -> is_closed (quit m) h' = true)
    /\ (stops = false -> h' = h)
    /\ discreteMining m' = discreteMining m
    /\ runningWorkers m' = runningWorkers m.
Proof.
  intros Hn Hq stops. unfold SetNumWorkers.
  assert (forall m0, numWorkers
            (if n <? 0 then set_numWorkers m0 defaultNumWorkers
             else set_numWorkers m0 (Word.u32 n))
          = (if n <? 0 then defaultNumWorkers else n)) as Hcount.
  { intros m0. destruct (n <? 0) eqn:Hneg; simpl; [reflexivity|].
    apply Z.ltb_ge in Hneg. apply WordFacts.u32_of_nonneg_i32; auto. }
  destruct (n =? 0) eqn:Hz.
  - apply Z.eqb_eq in Hz. subst n.
    destruct (started m) eqn:Hs; destruct (discreteMining m) eqn:Hd;
      subst stops; cbv iota.
    + rewrite Stop_noop by auto.
      exists (set_numWorkers m (Word.u32 0)), h.
      simpl. rewrite Hs. repeat split; auto; discriminate.
    + destruct (Stop_running m h ev Hs Hd (Hq eq_refl eq_refl))
        as (h' & -> & Hc).
      exists (set_numWorkers (set_started (set_wg m 0) false) (Word.u32 0)), h'.
      simpl. rewrite ?app_nil_r. repeat split; auto; discriminate.
    + rewrite Stop_noop by auto.
      exists (set_numWorkers m (Word.u32 0)), h.
      simpl. rewrite ?Hs, ?app_nil_r. repeat split; auto; discriminate.
    + rewrite Stop_noop by auto.
      exists (set_numWorkers m (Word.u32 0)), h.
      simpl. rewrite ?Hs, ?app_nil_r. repeat split; auto; discriminate.
  - subst stops. cbv iota. simpl res_bind. cbv beta iota.
    assert (started (if n <? 0 then set_numWorkers m defaultNumWorkers
                     else set_numWorkers m (Word.u32 n)) = started m) as Hst.
    { destruct (n <? 0); reflexivity. }
    rewrite Hst.
    exists (if n <? 0 then set_numWorkers m defaultNumWorkers
            else set_numWorkers m (Word.u32 n)), h.
    rewrite Hcount, Hst. simpl.
    split; [destruct (started m); rewrite ?app_nil_r; reflexivity|].
    repeat split; auto; try discriminate; destruct (n <? 0); reflexivity.
Qed.

End SupervisorFacts.

(** C7, as stated, fails in discrete mode: [SetNumWorkers(0)] does not stop
    the miner, which stays started, and the wake-up is sent. *)
Lemma C7_counterexample_discrete_mode :
  started Reference.discrete = true
  /\ @SetNumWorkers _ Reference.collaborators 0 (Reference.discrete, [], [])
     = Ret (set_numWorkers Reference.discrete 0, [], [EvWake])
  /\ started (set_numWorkers Reference.discrete 0) = true.
Proof. repeat split. Qed.

(** C7 on the running reference miner: [SetNumWorkers(0)] closes the quit
    channel (channel 0), waits, clears the started flag and sends no
    wake-up. *)
Lemma C7_SetNumWorkers_witness :
  exists m' h',
    @SetNumWorkers _ Reference.collaborators 0 Reference.running
    = Ret (m', h',
           [EvGoSpeedMonitor; EvGoController; EvClose (Some 0%nat);
            EvWaitAll])
    /\ numWorkers m' = 0 /\ started m' = false.
Proof.
  destruct (@C7_SetNumWorkers_configures_and_wakes _ Reference.collaborators
              0 Reference.running.1.1 Reference.running.1.2
              Reference.running.2)
    as (m' & h' & Hrun & Hn & Hs & _).
  - unfold Word.is_i32. lia.
  - reflexivity.
  - exists m', h'. split; [|split; [exact Hn|exact Hs]].
    change Reference.running
      with (Reference.running.1.1, Reference.running.1.2, Reference.running.2).
    rewrite Hrun. simpl in Hs. rewrite Hs. reflexivity.
Defined.

(** ** The pool controller *)

Section ControllerFacts.

Lemma set_runningWorkers_id m : set_runningWorkers m (runningWorkers m) = m.
Proof. destruct m. reflexivity. Qed.

Lemma index_last {A : Type} (l : list A) (x : A) :
  index (l ++ [x]) (Z.of_nat (length (l ++ [x])) - 1) = Some x.
Proof.
  unfold index. rewrite length_app. simpl.
  replace (Z.of_nat (length l + 1) - 1) with (Z.of_nat (length l)) by lia.
  rewrite Nat2Z.id.
  replace ((0 <=? Z.of_nat (length l))
           && (Z.of_nat (length l) <? Z.of_nat (length l + 1))) with true.
  - apply list_lookup_middle. reflexivity.
  - symmetry. apply andb_true_iff. split; [apply Z.leb_le|apply Z.ltb_lt]; lia.
Qed.

Lemma index_out_of_range {A : Type} (l : list A) (i : Z) :
  Z.of_nat (length l) <= i -> index l i = None.
Proof.
  intros Hi. unfold index.
  replace (i <? Z.of_nat (length l)) with false.
  - rewrite andb_false_r. reflexivity.
  - symmetry. apply Z.ltb_ge. exact Hi.
Qed.

Lemma snoc_cases {A : Type} (l : list A) :
  l = [] \/ exists l0 x, l = l0 ++ [x].
Proof. induction l as [|x l0 _] using rev_ind; eauto. Qed.

Lemma retire_done fuel i m h ev :
  i < numWorkers m -> retire fuel i (m, h, ev) = Ret (m, h, ev).
Proof.
  intros Hi. assert ((i >=? numWorkers m) = false) as Hc.
  { rewrite Z.geb_leb. apply Z.leb_gt. exact Hi. }
  destruct fuel; simpl; rewrite Hc; reflexivity.
Qed.

Lemma retire_step fuel i m h ev c h' :
  numWorkers m <= i -> index (runningWorkers m) i = Some c ->
  close_chan c h = Ret h' ->
  retire (S fuel) i (m, h, ev)
  = retire fuel (Word.u32 (i - 1))
      (set_runningWorkers m
         (take (Z.to_nat i) (<[Z.to_nat i := None]> (runningWorkers m))),
       h', ev ++ [EvClose c]).
Proof.
  intros Hi Hidx Hclose.
  assert ((i >=? numWorkers m) = true) as Hc.
  { rewrite Z.geb_leb. apply Z.leb_le. exact Hi. }
  simpl. rewrite Hc, Hidx, Hclose. reflexivity.
Qed.

Lemma retire_out_of_range fuel i m h ev :
  numWorkers m <= i -> index (runningWorkers m) i = None ->
  retire (S fuel) i (m, h, ev) = Panic.
Proof.
  intros Hi Hidx.
  assert ((i >=? numWorkers m) = true) as Hc.
  { rewrite Z.geb_leb. apply Z.leb_le. exact Hi. }
  simpl. rewrite Hc, Hidx. reflexivity.
Qed.

(** The retiring loop on a well-formed active list with a surplus of [d]
    workers over a target of at least one: it closes the last [d] channels,
    most recent first, and keeps the others. *)
Lemma retire_surplus (d : nat) : forall m h ev fuel,
  1 <= numWorkers m ->
  NoDup (runningWorkers m) ->
  Forall (fun c => is_open c h = true) (runningWorkers m) ->
  Z.of_nat (length (runningWorkers m)) = numWorkers m + Z.of_nat d ->
  Z.of_nat (length (runningWorkers m)) < 2 ^ 32 ->
  (d <= fuel)%nat ->
  let W := Z.to_nat (numWorkers m) in
  exists h',
    retire fuel (Z.of_nat (length (runningWorkers m)) - 1) (m, h, ev)
    = Ret (set_runningWorkers m (take W (runningWorkers m)), h',
           ev ++ map EvClose (reverse (drop W (runningWorkers m))))
    /\ Forall (fun c => is_closed c h' = true) (drop W (runningWorkers m))
    /\ Forall (fun c => is_open c h' = true) (take W (runningWorkers m))
    /\ (forall c, is_closed c h = true -> is_closed c h' = true).
Proof.
  induction d as [|d IH]; intros m h ev fuel HW Hnd Hopen Hlen Hbound Hfuel W.
  - exists h. rewrite retire_done by lia.
    assert (length (runningWorkers m) = W) as HlenW by (subst W; lia).
    rewrite take_ge, drop_ge by lia. simpl.
    rewrite app_nil_r, set_runningWorkers_id.
    split; [reflexivity|]. split; [constructor|]. split; [exact Hopen|auto].
  - destruct fuel as [|fuel]; [lia|].
    destruct (snoc_cases (runningWorkers m)) as [Hrw|(rw0 & c & Hrw)].
    { rewrite Hrw in Hlen. simpl in Hlen. lia. }
    rewrite Hrw in Hlen, Hbound, Hnd, Hopen.
    rewrite length_app in Hlen, Hbound. simpl in Hlen, Hbound.
    apply NoDup_app in Hnd as (Hnd0 & Hfresh & _).
    apply Forall_app in Hopen as [Hopen0 Hopenc].
    rewrite Forall_singleton in Hopenc.
    destruct (close_chan_open c h Hopenc)
      as (h1 & Hclose & _ & Hclosed & Hmono & Hother).
    assert (W <= length rw0)%nat as HWle by (subst W; lia).
    erewrite retire_step;
      [|rewrite Hrw, length_app; simpl; lia
       |rewrite Hrw; apply index_last
       |exact Hclose].
    rewrite Hrw, length_app. simpl length.
    replace (Z.to_nat (Z.of_nat (length rw0 + 1) - 1)) with (length rw0)
      by lia.
    rewrite take_insert_ge, take_app_length by lia.
    replace (Word.u32 (Z.of_nat (length rw0 + 1) - 1 - 1))
      with (Z.of_nat (length rw0) - 1).
    2:{ rewrite WordFacts.u32_id; [lia|]. unfold Word.is_u32. lia. }
    destruct (IH (set_runningWorkers m rw0) h1 (ev ++ [EvClose c]) fuel)
      as (h' & Hret & Hcl & Hop & Hmono').
    + exact HW.
    + exact Hnd0.
    + simpl. apply Forall_forall. intros c' Hc'.
      rewrite Hother.
      * rewrite Forall_forall in Hopen0. apply Hopen0. exact Hc'.
      * intros ->. apply (Hfresh c Hc'). left.
    + simpl. lia.
    + simpl. lia.
    + lia.
    + simpl in Hret, Hcl, Hop. fold W in Hret, Hcl, Hop.
      exists h'. rewrite Hret.
      rewrite take_app_le, drop_app_le by lia.
      rewrite reverse_snoc. simpl. rewrite <- app_assoc. simpl.
      split; [reflexivity|].
      split; [|split; [exact Hop|auto]].
      apply Forall_app. split; [exact Hcl|].
      rewrite Forall_singleton. apply Hmono'. exact Hclosed.
Qed.

End ControllerFacts.

Section ResizeFacts.
Context {Solution : Type} `{!External Solution}.

Lemma spawned_app ev1 ev2 : spawned (ev1 ++ ev2) = spawned ev1 ++ spawned ev2.
Proof.
  induction ev1 as [|e ev1 IH]; [reflexivity|].
  destruct e; simpl; rewrite ?IH; reflexivity.
Qed.

Lemma spawned_closes cs : spawned (map EvClose cs) = [].
Proof. induction cs as [|c cs IH]; [reflexivity|exact IH]. Qed.

Lemma launch_one_eq m h ev :
  launch_one (m, h, ev)
  = (set_workerWg
       (set_miningStoppper
          (set_runningWorkers m (runningWorkers m ++ [Some (length h)]))
          (miningStoppper m ++ [Some (length (h ++ [mkChan 0 0 false]))]))
       (workerWg m + 1),
     (h ++ [mkChan 0 0 false]) ++ [mkChan 1 0 false],
     ev ++ [EvGo (Word.u32
                    (Z.of_nat
                       (length
                          (miningStoppper m
                           ++ [Some (length (h ++ [mkChan 0 0 false]))]))))
                 (Some (length h))
                 (Some (length (h ++ [mkChan 0 0 false])))]).
Proof. reflexivity. Qed.

(** [k] passes of the launching loop: [k] fresh open quit channels are
    appended to the active list, [k] goroutines are started on them, and the
    wait group counts them. *)
Lemma launch_iter (k : nat) : forall m h ev,
  exists m' ext evs,
    Nat.iter k launch_one (m, h, ev) = (m', h ++ ext, ev ++ evs)
    /\ runningWorkers m' = runningWorkers m ++ map w_quit (spawned evs)
    /\ length (spawned evs) = k
    /\ Forall (fun w => w_alive w = true) (spawned evs)
    /\ workerWg m' = workerWg m + Z.of_nat k
    /\ numWorkers m' = numWorkers m
    /\ (NoDup (runningWorkers m) ->
        Forall (fun c => is_open c h = true) (runningWorkers m) ->
        NoDup (runningWorkers m')
        /\ Forall (fun c => is_open c (h ++ ext) = true) (runningWorkers m')).
Proof.
  induction k as [|k IH]; intros m h ev.
  - exists m, [], []. simpl. rewrite !app_nil_r.
    repeat split; auto; lia.
  - destruct (IH m h ev)
      as (m1 & ext1 & evs1 & Hit & Hrw & Hlen & Hal & Hwg & Hnw & Hwf).
    simpl. rewrite Hit, launch_one_eq.
    eexists _, (ext1 ++ [mkChan 0 0 false; mkChan 1 0 false]), (evs1 ++ [_]).
    split.
    { rewrite <- !app_assoc. simpl. reflexivity. }
    rewrite spawned_app. simpl.
    split; [rewrite Hrw, map_app, <- app_assoc; reflexivity|].
    split; [rewrite length_app, Hlen; simpl; lia|].
    split; [apply Forall_app; split; [exact Hal|repeat constructor]|].
    split; [rewrite Hwg; lia|].
    split; [exact Hnw|].
    intros Hnd Hopen. destruct (Hwf Hnd Hopen) as [Hnd1 Hopen1].
    split.
    + apply NoDup_app. split; [exact Hnd1|]. split; [|apply NoDup_singleton].
      intros c Hc Hin. apply list_elem_of_singleton in Hin. subst c.
      rewrite Forall_forall in Hopen1. specialize (Hopen1 _ Hc).
      apply is_open_valid in Hopen1 as (a & [= <-] & Hlt). lia.
    + apply Forall_app. split.
      * eapply Forall_impl; [exact Hopen1|]. intros c Hc. simpl in Hc.
        replace (h ++ ext1 ++ [mkChan 0 0 false; mkChan 1 0 false])
          with ((h ++ ext1) ++ [mkChan 0 0 false; mkChan 1 0 false])
          by (rewrite <- app_assoc; reflexivity).
        apply heap_grows_open. exact Hc.
      * rewrite Forall_singleton. simpl.
        replace (h ++ ext1 ++ [mkChan 0 0 false; mkChan 1 0 false])
          with ((h ++ ext1) ++ [mkChan 0 0 false; mkChan 1 0 false])
          by (rewrite <- app_assoc; reflexivity).
        rewrite list_lookup_middle by reflexivity. reflexivity.
Qed.

End ResizeFacts.

Section ResizeClaims.
Context {Solution : Type} `{!External Solution}.

Lemma NoDup_take_of {A : Type} (l : list A) n : NoDup l -> NoDup (take n l).
Proof.
  intros Hnd. rewrite <- (take_drop n l) in Hnd.
  apply NoDup_app in Hnd as (Hnd & _). exact Hnd.
Qed.

(** The controller's reaction to a resize signal, on a well-formed pool and
    a target of at least one worker. *)
Lemma resize_ok m h ev :
  1 <= numWorkers m < 2 ^ 32 -> ctl_wf m h ->
  let W := Z.to_nat (numWorkers m) in
  let R := length (runningWorkers m) in
  exists m' h' evs,
    on_updateNumWorkers (m, h, ev) = Ret (m', h', ev ++ evs)
    /\ length (runningWorkers m') = W
    /\ numWorkers m' = numWorkers m
    /\ ctl_wf m' h'
    /\ workerWg m' = workerWg m + Z.of_nat (length (spawned evs))
    /\ Forall (fun w => w_alive w = true /\ w_quit w ∈ runningWorkers m')
         (spawned evs)
    /\ (forall c, c ∈ runningWorkers m ->
          c ∈ runningWorkers m' \/ is_closed c h' = true)
    /\ (forall c, is_closed c h = true -> is_closed c h' = true)
    /\ ((R <= W)%nat ->
        runningWorkers m' = runningWorkers m ++ map w_quit (spawned evs)
        /\ length (spawned evs) = (W - R)%nat)
    /\ ((W < R)%nat ->
        runningWorkers m' = take W (runningWorkers m)
        /\ evs = map EvClose (reverse (drop W (runningWorkers m)))
        /\ Forall (fun c => is_closed c h' = true)
             (drop W (runningWorkers m))).
Proof.
  intros HW (Hnd & Hopen & Hbound) W R.
  unfold on_updateNumWorkers.
  rewrite WordFacts.u32_id by (unfold Word.is_u32; lia).
  destruct (numWorkers m =? Z.of_nat (length (runningWorkers m))) eqn:Heq.
  - (* no change *)
    apply Z.eqb_eq in Heq.
    exists m, h, []. rewrite app_nil_r. simpl.
    split; [reflexivity|]. split; [subst W; lia|]. split; [reflexivity|].
    split; [repeat split; assumption|]. split; [lia|].
    split; [constructor|]. split; [auto|]. split; [auto|].
    split; [intros _; rewrite app_nil_r; split; [reflexivity|subst W R; lia]|].
    intros Hlt. subst W R. lia.
  - apply Z.eqb_neq in Heq.
    destruct (numWorkers m >? Z.of_nat (length (runningWorkers m))) eqn:Hgt.
    + (* deficit: launch *)
      rewrite Z.gtb_gt in Hgt.
      rewrite WordFacts.u32_id by (unfold Word.is_u32; lia).
      unfold launchWorkers.
      destruct (launch_iter
                  (Z.to_nat (numWorkers m - Z.of_nat (length (runningWorkers m))))
                  m h ev)
        as (m' & ext & evs & Hit & Hrw & Hlen & Hal & Hwg & Hnw & Hwf).
      destruct (Hwf Hnd Hopen) as [Hnd' Hopen'].
      exists m', (h ++ ext), evs. rewrite Hit.
      assert (length (runningWorkers m') = W) as HlenW.
      { rewrite Hrw, length_app, length_map, Hlen. subst W. lia. }
      split; [reflexivity|]. split; [exact HlenW|]. split; [exact Hnw|].
      split; [repeat split; [exact Hnd'|exact Hopen'|rewrite HlenW; subst W; lia]|].
      split; [rewrite Hwg, Hlen; reflexivity|].
      split.
      { apply Forall_forall. intros w Hw. split.
        - rewrite Forall_forall in Hal. apply Hal. exact Hw.
        - rewrite Hrw. apply elem_of_app. right.
          apply list_elem_of_fmap. exists w. auto. }
      split; [intros c Hc; left; rewrite Hrw; apply elem_of_app; auto|].
      split; [intros c Hc; apply heap_grows_closed; exact Hc|].
      split; [intros _; split; [exact Hrw|rewrite Hlen; subst W R; lia]|].
      intros Hlt. subst W R. lia.
    + (* surplus: retire *)
      assert (numWorkers m < Z.of_nat (length (runningWorkers m))) as Hlt.
      { destruct (Z.gtb_spec (numWorkers m)
                    (Z.of_nat (length (runningWorkers m)))); [discriminate|lia]. }
      rewrite WordFacts.u32_id by (unfold Word.is_u32; lia).
      destruct (retire_surplus (length (runningWorkers m) - W) m h ev
                  (S (length (runningWorkers m))))
        as (h' & Hret & Hcl & Hop & Hmono); try assumption; try lia.
      fold W in Hret, Hcl, Hop.
      exists (set_runningWorkers m (take W (runningWorkers m))), h',
        (map EvClose (reverse (drop W (runningWorkers m)))).
      rewrite Hret. simpl.
      assert (length (take W (runningWorkers m)) = W) as HlenW.
      { rewrite length_take. subst W. lia. }
      split; [reflexivity|]. split; [exact HlenW|]. split; [reflexivity|].
      split.
      { repeat split; simpl;
          [apply NoDup_take_of; exact Hnd|exact Hop|rewrite HlenW; subst W; lia]. }
      rewrite spawned_closes. simpl.
      split; [lia|]. split; [constructor|].
      split.
      { intros c Hc. rewrite <- (take_drop W (runningWorkers m)) in Hc.
        apply elem_of_app in Hc as [Hc|Hc]; [left; exact Hc|right].
        rewrite Forall_forall in Hcl. apply Hcl. exact Hc. }
      split; [exact Hmono|].
      split; [intros Hle; subst W R; lia|].
      intros _. split; [reflexivity|]. split; [reflexivity|exact Hcl].
Qed.

(** With a target of zero and a non-empty active list the retiring loop
    runs its uint32 counter below zero and indexes out of range. *)
Lemma retire_to_zero_panics (L : nat) : forall m h ev,
  numWorkers m = 0 ->
  NoDup (runningWorkers m) ->
  Forall (fun c => is_open c h = true) (runningWorkers m) ->
  length (runningWorkers m) = S L ->
  Z.of_nat (length (runningWorkers m)) < 2 ^ 32 ->
  retire (S (S L)) (Z.of_nat (S L) - 1) (m, h, ev) = Panic.
Proof.
  induction L as [|L IH]; intros m h ev HW Hnd Hopen Hlen Hbound;
    destruct (snoc_cases (runningWorkers m)) as [Hrw|(rw0 & c & Hrw)];
    try (rewrite Hrw in Hlen; discriminate);
    rewrite Hrw in Hnd, Hopen, Hbound;
    apply NoDup_app in Hnd as (Hnd0 & Hfresh & _);
    apply Forall_app in Hopen as [Hopen0 Hopenc];
    rewrite Forall_singleton in Hopenc;
    destruct (close_chan_open c h Hopenc)
      as (h1 & Hclose & _ & _ & _ & Hother).
  - assert (length rw0 = 0%nat) as Hlen0.
    { rewrite Hrw, length_app in Hlen. simpl in Hlen. lia. }
    erewrite retire_step;
      [|rewrite HW; lia
       |rewrite Hrw;
        replace (Z.of_nat 1 - 1) with (Z.of_nat (length (rw0 ++ [c])) - 1)
          by (rewrite length_app, Hlen0; reflexivity);
        apply index_last
       |exact Hclose].
    change (Word.u32 (Z.of_nat 1 - 1 - 1)) with (2 ^ 32 - 1).
    apply retire_out_of_range; simpl; [rewrite HW; lia|].
    apply index_out_of_range. rewrite length_take. lia.
  - assert (length rw0 = S L) as Hlen0.
    { rewrite Hrw, length_app in Hlen. simpl in Hlen. lia. }
    rewrite length_app in Hbound. simpl in Hbound.
    erewrite retire_step;
      [|rewrite HW; lia
       |rewrite Hrw;
        replace (Z.of_nat (S (S L)) - 1)
          with (Z.of_nat (length (rw0 ++ [c])) - 1)
          by (rewrite length_app, Hlen0; simpl; lia);
        apply index_last
       |exact Hclose].
    replace (Word.u32 (Z.of_nat (S (S L)) - 1 - 1)) with (Z.of_nat (S L) - 1).
    2:{ rewrite WordFacts.u32_id; [lia|]. unfold Word.is_u32. lia. }
    replace (Z.to_nat (Z.of_nat (S (S L)) - 1)) with (length rw0) by lia.
    rewrite Hrw, take_insert_ge, take_app_length by lia.
    apply IH; simpl; try assumption; try lia.
    apply Forall_forall. intros c' Hc'. rewrite Hother.
    + rewrite Forall_forall in Hopen0. apply Hopen0. exact Hc'.
    + intros ->. apply (Hfresh c Hc'). left.
Qed.

End ResizeClaims.

Section PoolClaims.
Context {Solution : Type} `{!External Solution}.

Lemma resize_to_zero_panics m h ev :
  numWorkers m = 0 -> ctl_wf m h -> runningWorkers m <> [] ->
  on_updateNumWorkers (m, h, ev) = Panic.
Proof.
  intros HW (Hnd & Hopen & Hbound) Hne.
  destruct (length (runningWorkers m)) as [|L] eqn:Hlen.
  { destruct (runningWorkers m); [congruence|discriminate]. }
  unfold on_updateNumWorkers. rewrite Hlen.
  rewrite WordFacts.u32_id by (unfold Word.is_u32; lia).
  rewrite HW.
  replace (0 =? Z.of_nat (S L)) with false by (symmetry; apply Z.eqb_neq; lia).
  replace (0 >? Z.of_nat (S L)) with false.
  2:{ symmetry. rewrite Z.gtb_ltb. apply Z.ltb_ge. lia. }
  rewrite WordFacts.u32_id by (unfold Word.is_u32; lia).
  apply retire_to_zero_panics; auto. rewrite Hlen. exact Hbound.
Qed.

(** What [SetNumWorkers] leaves behind is what [NumWorkers] reads; the
    active worker list is not touched. *)
Lemma SetNumWorkers_count n m h ev m' h' ev' :
  Word.is_i32 n ->
  SetNumWorkers n (m, h, ev) = Ret (m', h', ev') ->
  numWorkers m' = (if n <? 0 then defaultNumWorkers else n)
  /\ runningWorkers m' = runningWorkers m.
Proof.
  intros Hn. unfold SetNumWorkers.
  match goal with
  | |- context [res_bind ?x _] =>
      assert (forall m1 h1 ev1,
                x = Ret (m1, h1, ev1) ->
                runningWorkers m1 = runningWorkers m) as Hstop;
      [|destruct x as [[[m1 h1] ev1]| |] eqn:Hs]
  end; try discriminate.
  { intros m1 h1 ev1. destruct (n =? 0); [|intros [= <- _ _]; reflexivity].
    unfold Stop. destruct (negb (started m) || discreteMining m);
      [intros [= <- _ _]; reflexivity|].
    destruct (close_chan (quit m) h); simpl; try discriminate.
    intros [= <- _ _]. reflexivity. }
  specialize (Hstop m1 h1 ev1 eq_refl).
  simpl res_bind. cbv beta iota.
  destruct (n <? 0) eqn:Hneg; simpl.
  - destruct (started m1); intros [= <- _ _]; simpl; auto.
  - apply Z.ltb_ge in Hneg.
    destruct (started m1); intros [= <- _ _]; simpl;
      (split; [apply WordFacts.u32_of_nonneg_i32; auto|exact Hstop]).
Qed.

(** For every target worker count [W >= 1] read while the controller
    processes a resize signal on a well-formed pool, the active worker list
    afterwards has exactly [W] entries: a deficit is filled by launching
    [W - R] workers on fresh channels appended to the list (and counted by
    the worker wait group), a surplus is retired by closing the quit
    channels of the most recently created workers, last first, and
    truncating the list to its first [W] entries.  [NumWorkers()] returns
    the count [SetNumWorkers] has stored, whatever the length of the active
    list still is. *)
Lemma resize_converges_for_positive_targets
  (m : CPUMiner) (h : heap) (ev : list event) :
  1 <= numWorkers m < 2 ^ 32 -> ctl_wf m h ->
  let W := Z.to_nat (numWorkers m) in
  let R := length (runningWorkers m) in
  (exists m' h' evs,
     on_updateNumWorkers (m, h, ev) = Ret (m', h', ev ++ evs)
     /\ Z.of_nat (length (runningWorkers m')) = numWorkers m'
     /\ numWorkers m' = numWorkers m
     /\ ctl_wf m' h'
     /\ workerWg m' = workerWg m + Z.of_nat (length (spawned evs))
     /\ ((R <= W)%nat ->
         runningWorkers m' = runningWorkers m ++ map w_quit (spawned evs)
         /\ length (spawned evs) = (W - R)%nat)
     /\ ((W < R)%nat ->
         runningWorkers m' = take W (runningWorkers m)
         /\ evs = map EvClose (reverse (drop W (runningWorkers m)))
         /\ Forall (fun c => is_closed c h' = true)
              (drop W (runningWorkers m))))
  /\ (forall n m1 h1 ev1,
        Word.is_i32 n ->
        SetNumWorkers n (m, h, ev) = Ret (m1, h1, ev1) ->
        NumWorkers m1 = Word.i32 (if n <? 0 then defaultNumWorkers else n)
        /\ (0 <= n -> NumWorkers m1 = n)
        /\ runningWorkers m1 = runningWorkers m).
Proof.
  intros HW Hwf W R. split.
  - destruct (resize_ok m h ev HW Hwf)
      as (m' & h' & evs & Hrun & Hlen & Hnw & Hwf' & Hwg & _ & _ & _
          & Hdef & Hsur).
    exists m', h', evs. fold W in Hlen. fold W R in Hdef, Hsur.
    split; [exact Hrun|]. split; [rewrite Hlen, Hnw; subst W; lia|].
    split; [exact Hnw|]. split; [exact Hwf'|]. split; [exact Hwg|].
    split; [exact Hdef|exact Hsur].
  - intros n m1 h1 ev1 Hn Hset.
    destruct (SetNumWorkers_count n m h ev m1 h1 ev1 Hn Hset) as [Hc Hrw].
    unfold NumWorkers. rewrite Hc.
    split; [reflexivity|]. split; [|exact Hrw].
    intros Hpos. replace (n <? 0) with false
      by (symmetry; apply Z.ltb_ge; exact Hpos).
    apply WordFacts.i32_id. exact Hn.
Qed.

Lemma SetNumWorkers_split n w :
  SetNumWorkers n w
  = (w' <- (if n =? 0 then Stop w else Ret w) ;; SetNumWorkers_locked n w').
Proof. reflexivity. Qed.

(** C5.  The resize reaction reconciles the active worker list with every
    configured count of at least one, and with none that is zero.  For a
    count [W >= 1] read on a well-formed pool, the active list afterwards
    has exactly [W] entries: a deficit is filled by launching workers on
    fresh channels appended to the list, a surplus is retired by closing
    the quit channels of the most recently created workers, last first, and
    truncating the list to its first [W] entries.  For the count zero on a
    non-empty list the retiring loop
    [for i := numRunning - 1; i >= m.numWorkers; i--] closes every channel
    of the list and then, its uint32 counter wrapping below zero with
    [i >= 0] still true, indexes the list out of range.  The count is read
    as zero by a running controller when a [Start] slips in between the
    [Stop] that [SetNumWorkers(0)] calls and the locked part of
    [SetNumWorkers(0)], which then stores the zero and wakes the new
    controller.  [NumWorkers()] returns the count [SetNumWorkers] has
    stored, whatever the length of the active list still is. *)
Theorem C5_resize_to_zero_target_panics
  (m : CPUMiner) (h : heap) (ev : list event) :
  ctl_wf m h -> runningWorkers m <> [] ->
  on_updateNumWorkers (set_numWorkers m 0, h, ev) = Panic
  /\ (forall target, 1 <= target < 2 ^ 32 ->
        let W := Z.to_nat target in
        let R := length (runningWorkers m) in
        exists m' h' evs,
          on_updateNumWorkers (set_numWorkers m target, h, ev)
          = Ret (m', h', ev ++ evs)
          /\ Z.of_nat (length (runningWorkers m')) = target
          /\ numWorkers m' = target
          /\ ctl_wf m' h'
          /\ workerWg m' = workerWg m + Z.of_nat (length (spawned evs))
          /\ ((R <= W)%nat ->
              runningWorkers m' = runningWorkers m ++ map w_quit (spawned evs)
              /\ length (spawned evs) = (W - R)%nat)
          /\ ((W < R)%nat ->
              runningWorkers m' = take W (runningWorkers m)
              /\ evs = map EvClose (reverse (drop W (runningWorkers m)))
              /\ Forall (fun c => is_closed c h' = true)
                   (drop W (runningWorkers m))))
  /\ (forall n m1 h1 ev1,
        Word.is_i32 n ->
        SetNumWorkers n (m, h, ev) = Ret (m1, h1, ev1) ->
        NumWorkers m1 = Word.i32 (if n <? 0 then defaultNumWorkers else n)
        /\ (0 <= n -> NumWorkers m1 = n)
        /\ runningWorkers m1 = runningWorkers m).
Proof.
  intros Hwf Hne. split; [|split].
  - apply resize_to_zero_panics; [reflexivity|exact Hwf|exact Hne].
  - intros target HW W R.
    destruct (resize_converges_for_positive_targets
                (set_numWorkers m target) h ev HW Hwf)
      as [(m' & h' & evs & Hrun & Hlen & Hnw & Hwf' & Hwg & Hdef & Hsur) _].
    change (numWorkers m' = target) in Hnw.
    exists m', h', evs. split; [exact Hrun|].
    split; [rewrite Hlen; exact Hnw|]. split; [exact Hnw|].
    split; [exact Hwf'|]. split; [exact Hwg|].
    split; [exact Hdef|exact Hsur].
  - intros n m1 h1 ev1 Hn Hset.
    destruct (SetNumWorkers_count n m h ev m1 h1 ev1 Hn Hset) as [Hc Hrw].
    unfold NumWorkers. rewrite Hc.
    split; [reflexivity|]. split; [|exact Hrw].
    intros Hpos. replace (n <? 0) with false
      by (symmetry; apply Z.ltb_ge; exact Hpos).
    apply WordFacts.i32_id. exact Hn.
Qed.

End PoolClaims.

(** C5 on the reference miner (one worker by default): the miner is
    running; [SetNumWorkers(0)] calls [Stop], which returns; a [Start]
    slips in and its controller launches one worker; the locked part of
    [SetNumWorkers(0)] stores the zero and, the miner being started, wakes
    the controller, whose reaction panics. *)
Lemma C5_zero_target_witness :
  exists m h ev,
    (w <- Stop (controller_start Reference.running) ;;
     @SetNumWorkers_locked _ Reference.collaborators 0
       (controller_start (Start w)))
    = Ret (m, h, ev)
    /\ started m = true
    /\ numWorkers m = 0
    /\ length (runningWorkers m) = 1%nat
    /\ on_updateNumWorkers (m, h, ev) = Panic.
Proof.
  destruct (w <- Stop (controller_start Reference.running) ;;
            @SetNumWorkers_locked _ Reference.collaborators 0
              (controller_start (Start w)))
    as [[[m h] ev]| |] eqn:Hrun;
    vm_compute in Hrun; try discriminate.
  exists m, h, ev. split; [reflexivity|].
  injection Hrun as <- <- <-.
  split; [reflexivity|]. split; [reflexivity|]. split; [reflexivity|].
  match goal with
  | |- on_updateNumWorkers (?m1, ?h1, ?ev1) = Panic =>
      refine (proj1 (@C5_resize_to_zero_target_panics
                       _ Reference.collaborators m1 h1 ev1 _ _))
  end.
  - split; [|split].
    + apply NoDup_singleton.
    + repeat constructor.
    + vm_compute. reflexivity.
  - discriminate.
Defined.

(** ** Shutdown order *)

Section WorkerFacts.

Lemma alive_count_cons w ws :
  alive_count (w :: ws) = (if w_alive w then 1 else 0) + alive_count ws.
Proof.
  unfold alive_count. rewrite filter_cons.
  destruct (decide (w_alive w = true)) as [Ha|Ha].
  - rewrite Ha. simpl length. lia.
  - destruct (w_alive w); [congruence|]. lia.
Qed.

Lemma alive_count_app ws1 ws2 :
  alive_count (ws1 ++ ws2) = alive_count ws1 + alive_count ws2.
Proof.
  unfold alive_count. rewrite filter_app, length_app. lia.
Qed.

Lemma alive_count_nonneg ws : 0 <= alive_count ws.
Proof. unfold alive_count. lia. Qed.

Lemma alive_count_all ws :
  Forall (fun w => w_alive w = true) ws ->
  alive_count ws = Z.of_nat (length ws).
Proof.
  induction 1 as [|w ws Hw _ IH]; [reflexivity|].
  rewrite alive_count_cons, Hw, IH. simpl length. lia.
Qed.

Lemma alive_count_zero ws : alive_count ws = 0 -> all_exited ws.
Proof.
  induction ws as [|w ws IH]; intros Hz; [constructor|].
  rewrite alive_count_cons in Hz.
  pose proof (alive_count_nonneg ws).
  destruct (w_alive w) eqn:Ha; [lia|].
  constructor; [exact Ha|]. apply IH. lia.
Qed.

Lemma alive_count_retire ws i w :
  ws !! i = Some w -> w_alive w = true ->
  alive_count (<[i := retire_worker w]> ws) = alive_count ws - 1.
Proof.
  intros Hi Ha.
  pose proof (lookup_lt_Some _ _ _ Hi) as Hlt.
  rewrite insert_take_drop by exact Hlt.
  replace (alive_count ws)
    with (alive_count (take i ws ++ w :: drop (S i) ws))
    by (rewrite take_drop_middle by exact Hi; reflexivity).
  rewrite !alive_count_app, !alive_count_cons, Ha.
  change (w_alive (retire_worker w)) with false. cbv iota. lia.
Qed.

Lemma all_exited_lookup ws i w :
  all_exited ws -> ws !! i = Some w -> w_alive w = false.
Proof.
  intros Hall Hi. unfold all_exited in Hall.
  rewrite Forall_forall in Hall. apply Hall.
  eapply list_elem_of_lookup_2. exact Hi.
Qed.

Lemma close_all_sound cs : forall h ev h' ev',
  close_all cs h ev = Ret (h', ev') ->
  Forall (fun c => is_closed c h' = true) cs
  /\ (forall c, is_closed c h = true -> is_closed c h' = true).
Proof.
  induction cs as [|c cs IH]; intros h ev h' ev'; simpl.
  - intros [= <- _]. split; [constructor|auto].
  - destruct (close_chan c h) as [h1| |] eqn:Hc; simpl; try discriminate.
    intros Hrest. apply IH in Hrest as [Hall Hmono].
    apply close_chan_sound in Hc as (Hcl & Hmono1 & _).
    split; [constructor; auto|auto].
Qed.

Lemma close_chan_other c h h' c' :
  close_chan c h = Ret h' -> c' <> c -> is_closed c' h' = is_closed c' h.
Proof.
  destruct c as [a|]; simpl; [|discriminate].
  destruct (h !! a) as [st|] eqn:Ha; [|discriminate].
  destruct (ch_closed st); [discriminate|]. intros [= <-] Hne.
  destruct c' as [a'|]; simpl; [|reflexivity].
  rewrite list_lookup_insert_ne by congruence. reflexivity.
Qed.

Lemma close_all_ok cs : forall h ev,
  NoDup cs -> Forall (fun c => is_open c h = true) cs ->
  exists h',
    close_all cs h ev = Ret (h', ev ++ map EvClose cs)
    /\ Forall (fun c => is_closed c h' = true) cs
    /\ (forall c, c ∉ cs ->
          is_open c h' = is_open c h /\ is_closed c h' = is_closed c h).
Proof.
  induction cs as [|c cs IH]; intros h ev Hnd Hopen.
  - exists h. simpl. rewrite app_nil_r. repeat split; auto.
  - apply NoDup_cons in Hnd as [Hc Hnd].
    apply Forall_cons in Hopen as [Ho Hopen].
    destruct (close_chan_open c h Ho) as (h1 & Hclose & _ & Hcl & _ & Hframe).
    destruct (IH h1 (ev ++ [EvClose c]) Hnd) as (h' & Hrest & Hall & Hout).
    { rewrite Forall_forall in Hopen |- *. intros c' Hc'.
      rewrite Hframe; [auto|]. intros ->. contradiction. }
    exists h'. simpl. rewrite Hclose. simpl. rewrite Hrest.
    split; [rewrite <- app_assoc; reflexivity|].
    split.
    + constructor; [|exact Hall].
      destruct (Hout c Hc) as [_ ->]. exact Hcl.
    + intros c' Hc'. apply not_elem_of_cons in Hc' as [Hne Hc'].
      destruct (Hout c' Hc') as [-> ->].
      split; [apply Hframe; exact Hne|].
      eapply close_chan_other; eauto.
Qed.

Lemma index_elem_of {A : Type} (l : list A) (i : Z) (x : A) :
  index l i = Some x -> x ∈ l.
Proof.
  unfold index. destruct (_ && _); [|discriminate].
  apply list_elem_of_lookup_2.
Qed.

End WorkerFacts.

Section ShutdownFacts.
Context {Solution : Type} `{!External Solution}.

Lemma pool_init_inv m h :
  workerWg m = 0 -> Word.is_u32 (numWorkers m) -> pool_inv (pool_init m h).
Proof.
  intros Hwg Hu.
  destruct (launch_iter (Z.to_nat (numWorkers (set_runningWorkers m [])))
              (set_runningWorkers m []) h [])
    as (m' & ext & evs & Hit & Hrw & Hlen & Hal & Hwg' & Hnw & Hwf).
  unfold pool_init, controller_start, launchWorkers.
  rewrite Hit. simpl in Hrw, Hwg', Hnw, Hlen.
  destruct Hwf as [Hnd Hopen]; [constructor|constructor|].
  unfold pool_inv. simpl.
  split; [rewrite Hwg', Hwg, (alive_count_all _ Hal), Hlen; lia|].
  split; [rewrite Hnw; exact Hu|].
  split.
  { intros _. split.
    - split; [exact Hnd|]. split; [exact Hopen|].
      rewrite Hrw, length_map, Hlen. unfold Word.is_u32 in Hu. lia.
    - apply Forall_forall. intros w Hw _. left. rewrite Hrw.
      apply list_elem_of_fmap. exists w. auto. }
  split; [congruence|discriminate].
Qed.

Lemma pool_step_inv p l p' : pool_inv p -> pool_step p l p' -> pool_inv p'.
Proof.
  intros (Hwg & Hu & Hloop & Hwait & Hstop) Hstep.
  destruct Hstep as [m h c ws v Hv
                    |m h ws m' h' ev Hres
                    |m h ws m' h' ev Hquit
                    |m h c ws i w Hi Ha
                    |m h c ws i w Hi Ha Hcl
                    |m h ws m' h' ev Hz Haft];
    simpl in Hwg, Hu, Hloop, Hwait, Hstop.
  - (* configure *)
    unfold pool_inv. simpl.
    split; [exact Hwg|]. split; [exact Hv|].
    split; [|split; assumption].
    intros Hc. destruct (Hloop Hc) as [(Hnd & Hopen & Hb) Hws].
    split; [repeat split; assumption|exact Hws].
  - (* resize *)
    destruct (Hloop eq_refl) as [Hwf Hws].
    assert (exists evs,
              ev = evs
              /\ numWorkers m' = numWorkers m
              /\ ctl_wf m' h'
              /\ workerWg m' = workerWg m + Z.of_nat (length (spawned evs))
              /\ Forall (fun w => w_alive w = true
                                  /\ w_quit w ∈ runningWorkers m')
                   (spawned evs)
              /\ (forall c, c ∈ runningWorkers m ->
                    c ∈ runningWorkers m' \/ is_closed c h' = true)
              /\ (forall c, is_closed c h = true -> is_closed c h' = true))
      as (evs & -> & Hnw & Hwf' & Hwg' & Hnew & Hold & Hmono).
    { destruct (Z.eq_dec (numWorkers m) 0) as [Hzero|Hpos].
      - destruct (runningWorkers m) as [|c0 rw] eqn:Hrw.
        + unfold on_updateNumWorkers in Hres. rewrite Hrw, Hzero in Hres.
          simpl in Hres. injection Hres as <- <- <-.
          exists []. simpl. rewrite Hrw.
          repeat split; auto; try lia; try apply Hwf;
            try (intros c Hc; inversion Hc).
        + rewrite resize_to_zero_panics in Hres; [discriminate|auto|auto|].
          rewrite Hrw. discriminate.
      - destruct (resize_ok m h []) as (m1 & h1 & evs & Hrun & _ & H1 & H2
                                        & H3 & H4 & H5 & H6 & _); auto.
        { unfold Word.is_u32 in Hu. lia. }
        rewrite Hres in Hrun. simpl in Hrun. injection Hrun as -> -> ->.
        exists evs. auto 10. }
    unfold pool_inv. simpl.
    split.
    { rewrite alive_count_app, Hwg', Hwg.
      rewrite (alive_count_all (spawned evs)); [reflexivity|].
      eapply Forall_impl; [exact Hnew|]. intros w [Hw _]. exact Hw. }
    split; [rewrite Hnw; exact Hu|].
    split; [|split; [congruence|discriminate]].
    intros _. split; [exact Hwf'|].
    apply Forall_app. split.
    + eapply Forall_impl; [exact Hws|]. intros w Hw Ha.
      destruct (Hw Ha) as [Hin|Hc]; [apply Hold; exact Hin|right; auto].
    + eapply Forall_impl; [exact Hnew|]. intros w [_ Hw] _. left. exact Hw.
  - (* shutdown *)
    destruct (Hloop eq_refl) as [Hwf Hws].
    unfold on_quit in Hquit.
    destruct (close_all (runningWorkers m) h []) as [[h1 ev1]| |] eqn:Hca;
      simpl in Hquit; try discriminate.
    injection Hquit as <- <- <-.
    apply close_all_sound in Hca as [Hall Hmono].
    unfold pool_inv. simpl.
    split; [exact Hwg|]. split; [exact Hu|].
    split; [discriminate|]. split; [|discriminate].
    intros _. unfold all_told_to_quit.
    eapply Forall_impl; [exact Hws|]. intros w Hw Ha.
    destruct (Hw Ha) as [Hin|Hc]; [|auto].
    rewrite Forall_forall in Hall. apply Hall. exact Hin.
  - (* report *)
    unfold pool_inv. simpl. auto.
  - (* exit *)
    unfold pool_inv. simpl.
    split; [rewrite (alive_count_retire ws i w Hi Ha), Hwg; reflexivity|].
    split; [exact Hu|].
    split; [|split].
    + intros Hc. destruct (Hloop Hc) as [Hwf Hws].
      split; [exact Hwf|]. apply Forall_insert; [exact Hws|].
      simpl. discriminate.
    + intros Hc. unfold all_told_to_quit.
      apply Forall_insert; [apply Hwait; exact Hc|]. simpl. discriminate.
    + intros Hc. unfold all_exited.
      apply Forall_insert; [apply Hstop; exact Hc|]. reflexivity.
  - (* stop monitor *)
    unfold after_wait in Haft.
    destruct (close_chan (speedMonitorQuit m) h) as [h1| |] eqn:Hc;
      simpl in Haft; try discriminate.
    injection Haft as <- <- <-.
    apply close_chan_sound in Hc as (_ & Hmono & _).
    unfold pool_inv. simpl.
    split; [exact Hwg|]. split; [exact Hu|].
    split; [discriminate|]. split.
    + intros _. unfold all_told_to_quit.
      eapply Forall_impl; [apply Hwait; discriminate|].
      intros w Hw Ha. auto.
    + intros _. apply alive_count_zero. congruence.
Qed.

Lemma pool_exec_inv p tr p' : pool_inv p -> pool_exec p tr p' -> pool_inv p'.
Proof.
  intros Hinv Hexec. induction Hexec as [p|p l p' ls p'' Hstep _ IH];
    [exact Hinv|].
  apply IH. eapply pool_step_inv; eauto.
Qed.

Lemma pool_exec_app p tr1 p1 tr2 p2 :
  pool_exec p tr1 p1 -> pool_exec p1 tr2 p2 -> pool_exec p (tr1 ++ tr2) p2.
Proof.
  intros H1 H2. induction H1 as [p|p l p' ls p'' Hstep _ IH]; [exact H2|].
  simpl. econstructor; [exact Hstep|]. apply IH. exact H2.
Qed.

(** The controller leaves its loop through the shutdown reaction only. *)
Lemma pool_exec_leaves_loop p tr p' :
  pool_exec p tr p' -> pl_ctl p = CtlLoop -> pl_ctl p' <> CtlLoop ->
  exists ta pa pb tb,
    tr = ta ++ LShutdown :: tb
    /\ pool_exec p ta pa /\ pool_step pa LShutdown pb /\ pool_exec pb tb p'.
Proof.
  intros Hexec. induction Hexec as [p|p l p' ls p'' Hstep Hrest IH];
    intros Hloop Hleft; [congruence|].
  destruct l.
  5:{ inversion Hstep; subst; simpl in *.
      destruct IH as (ta & pa & pb & tb & -> & Ha & Hs & Hb); auto.
      exists (LExit i :: ta), pa, pb, tb. split; [reflexivity|].
      split; [econstructor; eauto|auto]. }
  4:{ inversion Hstep; subst; simpl in *.
      destruct IH as (ta & pa & pb & tb & -> & Ha & Hs & Hb); auto.
      exists (LReport i :: ta), pa, pb, tb. split; [reflexivity|].
      split; [econstructor; eauto|auto]. }
  3:{ exists [], p, p', ls. split; [reflexivity|].
      split; [constructor|auto]. }
  2:{ inversion Hstep; subst; simpl in *.
      destruct IH as (ta & pa & pb & tb & -> & Ha & Hs & Hb); auto.
      exists (LResize :: ta), pa, pb, tb. split; [reflexivity|].
      split; [econstructor; eauto|auto]. }
  1:{ inversion Hstep; subst; simpl in *.
      destruct IH as (ta & pa & pb & tb & -> & Ha & Hs & Hb); auto.
      exists (LConfigure v :: ta), pa, pb, tb. split; [reflexivity|].
      split; [econstructor; eauto|auto]. }
  inversion Hstep; subst; simpl in *. discriminate.
Qed.

(** Once the controller has stopped the monitor and every worker has
    exited, no goroutine of the pool is left to report: the only thing that
    can still happen is a write of the configured count. *)
Lemma pool_exec_stopped p tr p' :
  pool_exec p tr p' -> pl_ctl p = CtlStopped -> all_exited (pl_workers p) ->
  Forall (fun l => is_LReport l = false) tr.
Proof.
  intros Hexec. induction Hexec as [p|p l p' ls p'' Hstep _ IH];
    intros Hc Hall; [constructor|].
  inversion Hstep; subst; simpl in *; try discriminate.
  - constructor; [reflexivity|]. apply IH; assumption.
  - match goal with
    | Hl : _ !! _ = Some ?w, Ha : w_alive ?w = true |- _ =>
        pose proof (all_exited_lookup _ _ _ Hall Hl); congruence
    end.
  - match goal with
    | Hl : _ !! _ = Some ?w, Ha : w_alive ?w = true |- _ =>
        pose proof (all_exited_lookup _ _ _ Hall Hl); congruence
    end.
Qed.

(** In every run of the pool from the moment the controller has launched
    its workers: the monitor's quit channel is closed only after the
    shutdown reaction, which leaves the quit channel of every goroutine
    still alive closed; at the moment the controller closes the monitor's
    quit channel every worker goroutine has exited; and no hash-count
    report follows. *)
Lemma monitor_stopped_after_workers_exit
  (m : CPUMiner) (h : heap) (tr1 tr2 : list Label) (p1 p2 p3 : Pool) :
  workerWg m = 0 -> Word.is_u32 (numWorkers m) ->
  pool_exec (pool_init m h) tr1 p1 ->
  pool_step p1 LStopMonitor p2 ->
  pool_exec p2 tr2 p3 ->
  (exists ta pa pb tb,
     tr1 = ta ++ LShutdown :: tb
     /\ pool_exec (pool_init m h) ta pa
     /\ pool_step pa LShutdown pb
     /\ all_told_to_quit (pl_workers pb) (pl_heap pb)
     /\ pool_exec pb tb p1)
  /\ all_exited (pl_workers p1)
  /\ is_closed (speedMonitorQuit (pl_miner p1)) (pl_heap p2) = true
  /\ Forall (fun l => is_LReport l = false) tr2.
Proof.
  intros Hwg Hu Hrun Hstop Hafter.
  pose proof (pool_init_inv m h Hwg Hu) as Hinv0.
  pose proof (pool_exec_inv _ _ _ Hinv0 Hrun) as Hinv1.
  pose proof (pool_step_inv _ _ _ Hinv1 Hstop) as Hinv2.
  assert (pl_ctl (pool_init m h) = CtlLoop) as Hloop0.
  { unfold pool_init. destruct (controller_start (m, h, [])) as [[? ?] ?].
    reflexivity. }
  assert (pl_ctl p1 = CtlWaiting /\ pl_ctl p2 = CtlStopped
          /\ pl_workers p2 = pl_workers p1
          /\ is_closed (speedMonitorQuit (pl_miner p1)) (pl_heap p2) = true)
    as (Hc1 & Hc2 & Hws & Hclosed).
  { inversion Hstop as [| | | | |m0 h0 ws0 m0' h0' ev0 Hz Haft]; subst; simpl.
    repeat split.
    unfold after_wait in Haft.
    destruct (close_chan (speedMonitorQuit m0) h0) as [h1| |] eqn:Hc;
      simpl in Haft; try discriminate.
    injection Haft as <- <- <-.
    apply close_chan_sound in Hc as (Hcl & _). exact Hcl. }
  split.
  - destruct (pool_exec_leaves_loop _ _ _ Hrun Hloop0)
      as (ta & pa & pb & tb & Htr & Ha & Hs & Hb); [congruence|].
    exists ta, pa, pb, tb. split; [exact Htr|]. split; [exact Ha|].
    split; [exact Hs|]. split; [|exact Hb].
    pose proof (pool_exec_inv _ _ _ Hinv0 Ha) as Hinva.
    pose proof (pool_step_inv _ _ _ Hinva Hs) as (_ & _ & _ & Hwait & _).
    apply Hwait. inversion Hs; subst; simpl. discriminate.
  - destruct Hinv2 as (_ & _ & _ & _ & Hex). specialize (Hex Hc2).
    rewrite Hws in Hex.
    split; [exact Hex|]. split; [exact Hclosed|].
    apply (pool_exec_stopped _ _ _ Hafter Hc2).
    rewrite Hws. exact Hex.
Qed.

(** *** What the reactions leave alone *)

Lemma launch_iter_keeps (k : nat) : forall m h ev c,
  is_open c h = true -> c ∉ runningWorkers m ->
  is_open c (Nat.iter k launch_one (m, h, ev)).1.2 = true
  /\ (c ∉ runningWorkers (Nat.iter k launch_one (m, h, ev)).1.1)
  /\ speedMonitorQuit (Nat.iter k launch_one (m, h, ev)).1.1
     = speedMonitorQuit m.
Proof.
  induction k as [|k IH]; intros m h ev c Ho Hnin; [simpl; auto|].
  destruct (IH m h ev c Ho Hnin) as (Ho1 & Hnin1 & Hs1).
  change (Nat.iter (S k) launch_one (m, h, ev))
    with (launch_one (Nat.iter k launch_one (m, h, ev))).
  destruct (Nat.iter k launch_one (m, h, ev)) as [[m1 h1] ev1].
  cbn [fst snd] in Ho1, Hnin1, Hs1.
  rewrite launch_one_eq. cbn [fst snd].
  split; [apply heap_grows_open, heap_grows_open; exact Ho1|].
  split; [|exact Hs1].
  cbn [runningWorkers set_workerWg set_miningStoppper set_runningWorkers].
  rewrite elem_of_app, list_elem_of_singleton.
  intros [Hin|Heq]; [contradiction|]. subst c.
  apply is_open_valid in Ho1 as (a & [= <-] & Hlt). lia.
Qed.

Lemma retire_keeps fuel : forall i m h ev m' h' ev' c,
  retire fuel i (m, h, ev) = Ret (m', h', ev') ->
  is_open c h = true -> c ∉ runningWorkers m ->
  is_open c h' = true /\ (c ∉ runningWorkers m')
  /\ speedMonitorQuit m' = speedMonitorQuit m.
Proof.
  induction fuel as [|fuel IH]; intros i m h ev m' h' ev' c.
  - simpl. destruct (i >=? numWorkers m); [discriminate|].
    intros [= <- <- <-]. auto.
  - cbn [retire]. destruct (i >=? numWorkers m).
    2:{ intros [= <- <- <-]. auto. }
    destruct (index (runningWorkers m) i) as [c0|] eqn:Hix; [|discriminate].
    destruct (close_chan c0 h) as [h1| |] eqn:Hclose; simpl; try discriminate.
    intros Hrest Ho Hnin.
    apply index_elem_of in Hix.
    apply close_chan_sound in Hclose as (_ & _ & Hother).
    apply IH with (c := c) in Hrest.
    + exact Hrest.
    + rewrite Hother; [exact Ho|]. intros ->. contradiction.
    + simpl. intros Hin. apply elem_of_take in Hin as (j & Hj & Hlt).
      apply list_lookup_insert_Some in Hj as [(Heq & _ & _)|[Hne Hj]]; [lia|].
      apply Hnin. eapply list_elem_of_lookup_2. exact Hj.
Qed.

Lemma on_updateNumWorkers_keeps m h ev m' h' ev' c :
  on_updateNumWorkers (m, h, ev) = Ret (m', h', ev') ->
  is_open c h = true -> c ∉ runningWorkers m ->
  is_open c h' = true /\ (c ∉ runningWorkers m')
  /\ speedMonitorQuit m' = speedMonitorQuit m.
Proof.
  unfold on_updateNumWorkers.
  destruct (numWorkers m =? _).
  { intros [= <- <- <-]. auto. }
  destruct (numWorkers m >? _).
  - unfold launchWorkers. intros [= Hl] Ho Hnin.
    match type of Hl with
    | Nat.iter ?k launch_one _ = _ =>
        pose proof (launch_iter_keeps k m h ev c Ho Hnin) as Hk
    end.
    rewrite Hl in Hk. exact Hk.
  - apply retire_keeps.
Qed.

Lemma close_all_keeps cs : forall h ev h' ev' c,
  close_all cs h ev = Ret (h', ev') -> c ∉ cs ->
  is_open c h' = is_open c h.
Proof.
  induction cs as [|c0 cs IH]; intros h ev h' ev' c; simpl.
  - intros [= <- _] _. reflexivity.
  - destruct (close_chan c0 h) as [h1| |] eqn:Hclose; simpl; try discriminate.
    intros Hrest Hnin. apply not_elem_of_cons in Hnin as [Hne Hnin].
    rewrite (IH _ _ _ _ _ Hrest Hnin).
    apply close_chan_sound in Hclose as (_ & _ & Hother).
    apply Hother. exact Hne.
Qed.

(** *** The monitor's quit channel stays open until it is stopped *)

Lemma pool_init_monitor m h :
  is_open (speedMonitorQuit m) h = true -> monitor_inv (pool_init m h).
Proof.
  intros Ho. unfold pool_init, controller_start, launchWorkers.
  pose proof (launch_iter_keeps
                (Z.to_nat (numWorkers (set_runningWorkers m [])))
                (set_runningWorkers m []) h [] (speedMonitorQuit m) Ho)
    as Hk.
  destruct (Nat.iter _ launch_one (set_runningWorkers m [], h, []))
    as [[m' h'] ev'].
  cbn [fst snd] in Hk.
  destruct Hk as (Ho' & Hnin & Hs); [apply not_elem_of_nil|].
  simpl in Hs. unfold monitor_inv. simpl. rewrite Hs. auto.
Qed.

Lemma pool_step_monitor p l p' :
  monitor_inv p -> pool_step p l p' -> monitor_inv p'.
Proof.
  intros [Hopen Hapart] Hstep.
  destruct Hstep as [m h c ws v Hv
                    |m h ws m' h' ev Hres
                    |m h ws m' h' ev Hquit
                    |m h c ws i w Hi Ha
                    |m h c ws i w Hi Ha Hcl
                    |m h ws m' h' ev Hz Haft];
    simpl in Hopen, Hapart; unfold monitor_inv; simpl.
  - auto.
  - destruct (on_updateNumWorkers_keeps _ _ _ _ _ _ (speedMonitorQuit m) Hres)
      as (Ho & Hnin & Hs); [apply Hopen; discriminate|auto|].
    rewrite Hs. auto.
  - unfold on_quit in Hquit.
    destruct (close_all (runningWorkers m) h []) as [[h1 ev1]| |] eqn:Hca;
      simpl in Hquit; try discriminate.
    injection Hquit as <- <- <-.
    split; [|discriminate]. intros _.
    rewrite (close_all_keeps _ _ _ _ _ _ Hca (Hapart eq_refl)).
    apply Hopen. discriminate.
  - auto.
  - auto.
  - split; [congruence|discriminate].
Qed.

Lemma pool_exec_monitor p tr p' :
  monitor_inv p -> pool_exec p tr p' -> monitor_inv p'.
Proof.
  intros Hinv Hexec. induction Hexec as [p|p l p' ls p'' Hstep _ IH];
    [exact Hinv|].
  apply IH. eapply pool_step_monitor; eauto.
Qed.

Lemma pool_step_shutdown p pb :
  pool_step p LShutdown pb ->
  exists m' h' ev,
    on_quit (pl_miner p, pl_heap p, []) = Ret (m', h', ev)
    /\ pb = mkPool m' h' CtlWaiting (pl_workers p).
Proof.
  intros Hs. inversion Hs as [| |m h ws m' h' ev Hq| | |]; subst; simpl.
  exists m', h', ev. auto.
Qed.

(** *** After the shutdown reaction every worker can exit, and then the
    monitor is stopped *)

Lemma alive_exists ws :
  0 < alive_count ws -> exists i w, ws !! i = Some w /\ w_alive w = true.
Proof.
  induction ws as [|w ws IH]; [unfold alive_count; simpl; lia|].
  rewrite alive_count_cons. destruct (w_alive w) eqn:Ha.
  - intros _. exists 0%nat, w. auto.
  - intros Hpos. destruct IH as (i & w' & Hi & Ha'); [lia|].
    exists (S i), w'. auto.
Qed.

Lemma workers_can_exit (n : nat) : forall p,
  pl_ctl p = CtlWaiting -> pool_inv p -> monitor_inv p ->
  alive_count (pl_workers p) = Z.of_nat n ->
  exists exits p1 p2,
    pool_exec p exits p1
    /\ Forall (fun l => is_LExit l = true) exits
    /\ length exits = n
    /\ pool_step p1 LStopMonitor p2.
Proof.
  induction n as [|n IH]; intros [m h c ws] Hc Hinv Hmon Hn;
    simpl in Hc, Hn; subst c.
  - destruct Hinv as (Hwg & _). simpl in Hwg.
    destruct Hmon as [Hopen _]. simpl in Hopen.
    destruct (close_chan_open (speedMonitorQuit m) h) as (h' & Hclose & _);
      [apply Hopen; discriminate|].
    exists [], (mkPool m h CtlWaiting ws). eexists.
    split; [apply exec_done|]. split; [constructor|]. split; [reflexivity|].
    eapply step_stop_monitor; [lia|].
    unfold after_wait. rewrite Hclose. reflexivity.
  - destruct (alive_exists ws) as (i & w & Hi & Ha); [lia|].
    assert (is_closed (w_quit w) h = true) as Hcl.
    { destruct Hinv as (_ & _ & _ & Hwait & _). simpl in Hwait.
      specialize (Hwait ltac:(discriminate)).
      unfold all_told_to_quit in Hwait. rewrite Forall_forall in Hwait.
      apply Hwait; [eapply list_elem_of_lookup_2; exact Hi|exact Ha]. }
    pose proof (step_exit m h CtlWaiting ws i w Hi Ha Hcl) as Hstep.
    destruct (IH (mkPool (set_workerWg m (workerWg m - 1)) h CtlWaiting
                         (<[i := retire_worker w]> ws))
                eq_refl (pool_step_inv _ _ _ Hinv Hstep)
                (pool_step_monitor _ _ _ Hmon Hstep))
      as (exits & p1 & p2 & Hexec & Hall & Hlen & Hstop).
    { simpl. rewrite (alive_count_retire ws i w Hi Ha). lia. }
    exists (LExit i :: exits), p1, p2.
    split; [econstructor; [exact Hstep|exact Hexec]|].
    split; [constructor; [reflexivity|exact Hall]|].
    split; [simpl; rewrite Hlen; reflexivity|exact Hstop].
Qed.

(** C6.  Global shutdown of a pool whose controller has launched its
    workers, the monitor's quit channel being open.  Whenever the
    controller is in its loop, the shutdown reaction is possible, and it
    closes the quit channel of every active worker, so that every worker
    goroutine still alive has been told to quit, and leaves the monitor's
    quit channel open.  From then on, as long as the controller waits, the
    monitor's quit channel stays open and the workers still alive can all
    exit, after which the controller can stop the monitor.  And in every
    run, the controller closes the monitor's quit channel only after a
    shutdown reaction and after every worker goroutine has exited, and no
    hash-count report follows. *)
Theorem C6_shutdown_closes_workers_waits_then_stops_monitor
  (m : CPUMiner) (h : heap) :
  workerWg m = 0 -> Word.is_u32 (numWorkers m) ->
  is_open (speedMonitorQuit m) h = true ->
  (forall ta pa,
     pool_exec (pool_init m h) ta pa -> pl_ctl pa = CtlLoop ->
     (exists pb, pool_step pa LShutdown pb)
     /\ forall pb, pool_step pa LShutdown pb ->
          pl_ctl pb = CtlWaiting
          /\ Forall (fun c => is_closed c (pl_heap pb) = true)
               (runningWorkers (pl_miner pa))
          /\ all_told_to_quit (pl_workers pb) (pl_heap pb)
          /\ is_open (speedMonitorQuit (pl_miner pb)) (pl_heap pb) = true
          /\ forall tb p1,
               pool_exec pb tb p1 -> pl_ctl p1 = CtlWaiting ->
               is_open (speedMonitorQuit (pl_miner p1)) (pl_heap p1) = true
               /\ exists exits p1' p2,
                    pool_exec p1 exits p1'
                    /\ Forall (fun l => is_LExit l = true) exits
                    /\ Z.of_nat (length exits) = alive_count (pl_workers p1)
                    /\ pool_step p1' LStopMonitor p2)
  /\ (forall tr1 p1 p2 tr2 p3,
        pool_exec (pool_init m h) tr1 p1 ->
        pool_step p1 LStopMonitor p2 ->
        pool_exec p2 tr2 p3 ->
        (exists ta pa pb tb,
           tr1 = ta ++ LShutdown :: tb
           /\ pool_exec (pool_init m h) ta pa
           /\ pool_step pa LShutdown pb
           /\ all_told_to_quit (pl_workers pb) (pl_heap pb)
           /\ pool_exec pb tb p1)
        /\ all_exited (pl_workers p1)
        /\ is_closed (speedMonitorQuit (pl_miner p1)) (pl_heap p2) = true
        /\ Forall (fun l => is_LReport l = false) tr2).
Proof.
  intros Hwg Hu Hopen.
  pose proof (pool_init_inv m h Hwg Hu) as Hinv0.
  pose proof (pool_init_monitor m h Hopen) as Hmon0.
  split.
  - intros ta pa Ha Hloop.
    pose proof (pool_exec_inv _ _ _ Hinv0 Ha) as Hinva.
    pose proof (pool_exec_monitor _ _ _ Hmon0 Ha) as Hmona.
    destruct pa as [ma ha ca wsa]. simpl in Hloop. subst ca.
    destruct Hinva as (Hwga & Hua & Hloopa & Hrest).
    destruct (Hloopa eq_refl) as [(Hnd & Hopena & Hbound) Hws].
    destruct (close_all_ok (runningWorkers ma) ha [] Hnd Hopena)
      as (h' & Hca & Hall & Hout).
    split.
    + eexists. eapply step_shutdown. unfold on_quit. rewrite Hca.
      reflexivity.
    + intros pb Hs.
      assert (pool_inv (mkPool ma ha CtlLoop wsa)) as Hinva
        by (split; [exact Hwga|split; [exact Hua|split; [exact Hloopa|exact Hrest]]]).
      pose proof (pool_step_inv _ _ _ Hinva Hs) as Hinvb.
      pose proof (pool_step_monitor _ _ _ Hmona Hs) as Hmonb.
      assert (pl_ctl pb = CtlWaiting /\ pl_heap pb = h') as [Hcb Hhb].
      { inversion Hs as [| |m1 h1 ws1 m1' h1' ev1 Hq| | |]; subst; simpl.
        unfold on_quit in Hq. rewrite Hca in Hq. simpl in Hq.
        injection Hq as <- <- <-. auto. }
      split; [exact Hcb|].
      split; [simpl; rewrite Hhb; exact Hall|].
      split.
      { destruct Hinvb as (_ & _ & _ & Hwait & _). apply Hwait. congruence. }
      split.
      { destruct Hmonb as [Ho _]. apply Ho. congruence. }
      intros tb p1 Hb Hc1.
      pose proof (pool_exec_inv _ _ _ Hinvb Hb) as Hinv1.
      pose proof (pool_exec_monitor _ _ _ Hmonb Hb) as Hmon1.
      split.
      { destruct Hmon1 as [Ho _]. apply Ho. congruence. }
      destruct (workers_can_exit
                  (Z.to_nat (alive_count (pl_workers p1))) p1 Hc1 Hinv1 Hmon1)
        as (exits & p1' & p2 & Hexec & Hex & Hlen & Hstop).
      { pose proof (alive_count_nonneg (pl_workers p1)). lia. }
      exists exits, p1', p2.
      split; [exact Hexec|]. split; [exact Hex|]. split; [|exact Hstop].
      pose proof (alive_count_nonneg (pl_workers p1)). lia.
  - intros tr1 p1 p2 tr2 p3 Hrun Hstop Hafter.
    exact (monitor_stopped_after_workers_exit m h tr1 tr2 p1 p2 p3
             Hwg Hu Hrun Hstop Hafter).
Qed.

End ShutdownFacts.

(** C6 on the running reference miner, whose controller launches one
    worker: the shutdown reaction closes the worker's quit channel (channel
    2) and leaves the monitor's (channel 1) open; the worker exits, and
    only then can the controller stop the monitor; all workers have exited
    by then and the monitor's quit channel ends up closed. *)
Lemma C6_shutdown_witness :
  exists pb exits p1 p2,
    pool_step (pool_init Reference.running.1.1 Reference.running.1.2)
      LShutdown pb
    /\ is_closed (Some 2%nat) (pl_heap pb) = true
    /\ is_open (Some 1%nat) (pl_heap pb) = true
    /\ pool_exec pb exits p1
    /\ length exits = 1%nat
    /\ pool_step p1 LStopMonitor p2
    /\ all_exited (pl_workers p1)
    /\ is_closed (speedMonitorQuit (pl_miner p1)) (pl_heap p2) = true.
Proof.
  destruct (C6_shutdown_closes_workers_waits_then_stops_monitor
              Reference.running.1.1 Reference.running.1.2)
    as [Hdown Hstopped].
  - reflexivity.
  - vm_compute. split; [discriminate|reflexivity].
  - reflexivity.
  - destruct (Hdown [] _ (exec_done _) eq_refl) as [(pb & Hs) Hfacts].
    destruct (Hfacts pb Hs) as (Hcb & Hall & _ & Hopen & Hprogress).
    destruct (Hprogress [] pb (exec_done _) Hcb)
      as (_ & exits & p1 & p2 & Hexec & _ & Hlen & Hstop).
    destruct (Hstopped (LShutdown :: exits) p1 p2 [] p2)
      as (_ & Hexited & Hclosed & _).
    { econstructor; [exact Hs|exact Hexec]. }
    { exact Hstop. }
    { apply exec_done. }
    exists pb, exits, p1, p2.
    split; [exact Hs|].
    split.
    { rewrite Forall_forall in Hall. apply Hall. vm_compute. left. }
    destruct (pool_step_shutdown _ _ Hs) as (m' & h' & ev & Hq & Hpb).
    vm_compute in Hq. injection Hq as Hm' Hh' Hev'.
    split.
    { assert (speedMonitorQuit (pl_miner pb) = Some 1%nat) as <-; [|exact Hopen].
      rewrite Hpb, <- Hm'. reflexivity. }
    split; [exact Hexec|].
    split.
    { assert (alive_count (pl_workers pb) = 1) as Hone
        by (rewrite Hpb; reflexivity).
      lia. }
    split; [exact Hstop|]. split; [exact Hexited|exact Hclosed].
Defined.

(** * Further properties of the code *)

(** ** The logged coinbase amount *)

Section AmountFacts.

Lemma i64_absorb a v : Word.i64 (Word.i64 a + v) = Word.i64 (a + v).
Proof.
  unfold Word.i64.
  replace ((a + 2 ^ 63) mod 2 ^ 64 - 2 ^ 63 + v + 2 ^ 63)
    with ((a + 2 ^ 63) mod 2 ^ 64 + v) by lia.
  rewrite Zplus_mod_idemp_l. f_equal. f_equal. lia.
Qed.

Lemma coinbase_fold outs : forall a,
  fold_left (fun acc out => Word.i64 (acc + Value out)) outs (Word.i64 a)
  = Word.i64 (a + total_value outs).
Proof.
  induction outs as [|out outs IH]; intros a; simpl.
  - rewrite Z.add_0_r. reflexivity.
  - rewrite i64_absorb, IH. f_equal. lia.
Qed.

Lemma coinbaseTxGenerated_wrapped (outs : list TxOut) :
  coinbaseTxGenerated outs = Word.i64 (total_value outs).
Proof.
  unfold coinbaseTxGenerated.
  change 0 with (Word.i64 0) at 1. rewrite coinbase_fold. reflexivity.
Qed.

End AmountFacts.

Section AmountTheorems.
Context {Solution : Type} `{!External Solution}.

(** X1.  The amount [submitBlock] logs for an accepted block is the exact
    sum of the outputs of the block's first transaction reduced to int64:
    the running [+=] over int64 loses nothing but multiples of 2^64, and
    nothing at all when the exact sum fits; later transactions do not count. *)
Theorem submitBlock_logs_wrapped_coinbase_total block r coinbase rest :
  accepted_connected r = true ->
  Transactions block = coinbase :: rest ->
  submitBlock block r
  = Some (true, LogAccepted (Word.i64 (total_value (TxOuts coinbase))))
  /\ (- 2 ^ 63 <= total_value (TxOuts coinbase) < 2 ^ 63 ->
      submitBlock block r
      = Some (true, LogAccepted (total_value (TxOuts coinbase)))).
Proof.
  intros Hacc Htx.
  destruct (submitBlock_success block r Hacc) as (cb & rest' & Htx' & Hs).
  { rewrite Htx. discriminate. }
  rewrite Htx in Htx'. injection Htx' as <- <-.
  rewrite Hs, coinbaseTxGenerated_wrapped.
  split; [reflexivity|].
  intros Hfit. unfold Word.i64. rewrite Z.mod_small by lia.
  do 3 f_equal. lia.
Qed.

End AmountTheorems.

Lemma submitBlock_logs_witness :
  @submitBlock _ Reference.collaborators
    (mkBlock Reference.header0
       [mkMsgTx [mkTxOut 50; mkTxOut 7]; mkMsgTx [mkTxOut 1000]])
    Reference.accepted
  = Some (true, LogAccepted 57).
Proof.
  apply (@submitBlock_logs_wrapped_coinbase_total _ Reference.collaborators
           (mkBlock Reference.header0
              [mkMsgTx [mkTxOut 50; mkTxOut 7]; mkMsgTx [mkTxOut 1000]])
           Reference.accepted (mkMsgTx [mkTxOut 50; mkTxOut 7])
           [mkMsgTx [mkTxOut 1000]] eq_refl eq_refl).
  change (- 2 ^ 63 <= 57 < 2 ^ 63). lia.
Defined.

(** ** The extra nonce in the header *)

Section ExtraNonceFacts.
Context {Solution : Type} `{!External Solution}.

Lemma length_le_bytes k v : length (le_bytes k v) = k.
Proof.
  revert v. induction k as [|k IH]; intros v; simpl; [reflexivity|].
  rewrite IH. reflexivity.
Qed.

Lemma le_decode_le_bytes k : forall v,
  le_decode (le_bytes k v) = v mod 2 ^ (8 * Z.of_nat k).
Proof.
  induction k as [|k IH]; intros v.
  - simpl. rewrite Z.mod_1_r. reflexivity.
  - change (le_bytes (S k) v)
      with (Z.land v 255 :: le_bytes k (Z.shiftr v 8)).
    simpl le_decode. rewrite IH.
    change 255 with (Z.ones 8). rewrite Z.land_ones by lia.
    rewrite Z.shiftr_div_pow2 by lia.
    replace (8 * Z.of_nat (S k)) with (8 + 8 * Z.of_nat k) by lia.
    rewrite Z.pow_add_r by lia.
    change (2 ^ 8) with 256.
    rewrite Z.rem_mul_r by lia. reflexivity.
Qed.

Lemma PutUint64_split b v :
  (8 <= length b)%nat -> PutUint64 b v = le_bytes 8 v ++ drop 8 b.
Proof.
  intros Hlen. unfold PutUint64, copy.
  rewrite length_le_bytes, take_ge by (rewrite length_le_bytes; lia).
  reflexivity.
Qed.

(** X2.  Entering the body of the extra-nonce loop writes the counter plus
    the random offset, wrapped to 64 bits, into the first eight bytes of
    [ExtraData] in little-endian order; the other bytes and all other header
    fields are kept, and the session's header bytes are those of the new
    header. *)
Theorem enter_extraNonce_writes_wrapped_sum
  (d : callbackData) (extraNonce enOffset : Z) :
  (8 <= length (ExtraData (Header (msgBlock d))))%nat ->
  let hd := Header (msgBlock d) in
  let d' := enter_extraNonce d extraNonce enOffset in
  let hd' := Header (msgBlock d') in
  le_decode (take 8 (ExtraData hd')) = (extraNonce + enOffset) mod 2 ^ 64
  /\ drop 8 (ExtraData hd') = drop 8 (ExtraData hd)
  /\ length (ExtraData hd') = length (ExtraData hd)
  /\ PrevBlock hd' = PrevBlock hd /\ Bits hd' = Bits hd
  /\ Nonce hd' = Nonce hd /\ Timestamp hd' = Timestamp hd
  /\ EquihashSolution hd' = EquihashSolution hd
  /\ Transactions (msgBlock d') = Transactions (msgBlock d)
  /\ headerBytes d' = fst (SerializeAllHeaderBytes hd').
Proof.
  intros Hlen hd d' hd'.
  assert (ExtraData hd'
          = le_bytes 8 (Word.u64 (extraNonce + enOffset))
            ++ drop 8 (ExtraData hd)) as Hex.
  { subst hd' d'. unfold enter_extraNonce, set_header_of. simpl.
    apply PutUint64_split. exact Hlen. }
  rewrite Hex.
  rewrite take_app_length' by (rewrite length_le_bytes; reflexivity).
  rewrite drop_app_length' by (rewrite length_le_bytes; reflexivity).
  rewrite le_decode_le_bytes.
  split.
  { unfold Word.u64, Word.wrap. change (8 * Z.of_nat 8) with 64.
    apply Z.mod_mod. lia. }
  split; [reflexivity|].
  split; [rewrite length_app, length_le_bytes, length_drop; subst hd; lia|].
  repeat split.
Qed.

End ExtraNonceFacts.

Lemma enter_extraNonce_witness :
  le_decode
    (take 8 (ExtraData (Header (msgBlock
       (@enter_extraNonce _ Reference.collaborators (Reference.session 0 0)
          (2 ^ 64 - 1) 5)))))
  = 4.
Proof.
  pose proof (@enter_extraNonce_writes_wrapped_sum _ Reference.collaborators
                (Reference.session 0 0) (2 ^ 64 - 1) 5) as Hw.
  destruct Hw as (Hdec & _); [vm_compute; lia|].
  rewrite Hdec. reflexivity.
Defined.

(** ** What a search session submits, and how it counts *)

Section SessionFacts.
Context {Solution : Type} `{!External Solution}.

Lemma submitted_app tr1 tr2 :
  submitted (tr1 ++ tr2) = submitted tr1 ++ submitted tr2.
Proof. unfold submitted. apply omap_app. Qed.

Lemma reported_app tr1 tr2 :
  reported (tr1 ++ tr2) = reported tr1 + reported tr2.
Proof.
  unfold reported. induction tr1 as [|e tr1 IH]; simpl; [reflexivity|].
  rewrite IH. lia.
Qed.

Lemma solves_app tr1 tr2 : solves (tr1 ++ tr2) = solves tr1 + solves tr2.
Proof.
  unfold solves. induction tr1 as [|e tr1 IH]; simpl; [reflexivity|].
  rewrite IH. lia.
Qed.

Lemma submissions_submitted tr : submissions tr = length (submitted tr).
Proof.
  induction tr as [|e tr IH]; [reflexivity|].
  rewrite submissions_cons, IH. destruct e; reflexivity.
Qed.

Lemma updateBlockTime_params d tk :
  cbN (updateBlockTime d tk).1.2 = cbN d
  /\ cbK (updateBlockTime d tk).1.2 = cbK d.
Proof.
  unfold updateBlockTime.
  destruct (stale _ tk); simpl; [split; reflexivity|].
  destruct (tk_UpdateBlockTime tk _) as [b [e|]]; simpl; [split; reflexivity|].
  destruct (SerializeAllHeaderBytes _) as [bytes [e|]]; simpl; split; reflexivity.
Qed.

Lemma validate_safe d m h (x : Probe Solution) v :
  solved d = false ->
  validate d m h x = Ret v ->
  validated_safe d m (v_data v) (v_miner v) (v_events v)
  /\ (v_code v = 0 -> solved (v_data v) = false)
  /\ (v_code v = 1 <-> solved (v_data v) = true).
Proof.
  intros Hs. unfold validate.
  destruct (exiting d) eqn:He.
  { intros [= <-]. simpl. rewrite Hs.
    split; [constructor; simpl; rewrite ?Hs; auto; try congruence; lia|].
    split; [auto|]. split; [lia|discriminate]. }
  destruct x as [p|s r].
  - destruct p as [| |tk|].
    + intros [= <-]. simpl.
      split; [constructor; simpl; auto; try congruence; lia|].
      split; [auto|]. split; [lia|discriminate].
    + intros [= <-]. simpl.
      split; [constructor; simpl; auto; try congruence; lia|].
      split; [auto|]. split; [lia|discriminate].
    + pose proof (updateBlockTime_frame d tk) as (Hsol & _).
      pose proof (updateBlockTime_reports d tk) as (Hev & Hhc).
      pose proof (updateBlockTime_params d tk) as (Hn & Hk).
      destruct (updateBlockTime d tk) as [[ok d'] ev].
      cbn [fst snd] in *. subst ev. rewrite Hs in Hsol.
      assert (validated_safe d m d' m [EvReport (hashesCompleted d)]) as Hsafe.
      { constructor; simpl; rewrite ?Hsol, ?Hhc; auto; try congruence; lia. }
      destruct ok; intros [= <-]; simpl;
        (split; [exact Hsafe|]); (split; [auto|]);
        rewrite Hsol; split; (lia || discriminate).
    + intros [= <-]. simpl. rewrite Hs.
      split; [constructor; simpl; rewrite ?Hs; auto; try congruence; lia|].
      split; [auto|]. split; [lia|discriminate].
  - cbv zeta.
    destruct (hash_meets_target (splice d s)) eqn:Hm.
    2:{ intros [= <-]. simpl. rewrite Hs.
        split; [constructor; simpl; rewrite ?Hs; auto; try congruence; lia|].
        split; [auto|]. split; [lia|discriminate]. }
    cbn [cbN cbK headerBytes set_headerBytes set_msgBlock set_solved].
    match goal with
    | |- (if ?rc then _ else _) = _ -> _ => destruct rc eqn:Hv
    end.
    2:{ intros [= <-]. simpl.
        split; [constructor; simpl; auto; try congruence; lia|].
        split; [auto|]. split; [lia|discriminate]. }
    destruct (submitBlock _ r) as [[ok line]|]; [|discriminate].
    destruct (notifyBlockDone _ _ h) as [h'| |]; simpl; try discriminate.
    intros [= <-]. simpl.
    split.
    { constructor; simpl; auto; try lia.
      intros _. unfold is_solution.
      cbn [msgBlock set_solved set_headerBytes set_msgBlock Header set_Header].
      rewrite Hm, Hv. reflexivity. }
    split; [discriminate|]. split; auto.
Qed.

Lemma SolveEquihash_safe probes : forall d m h r,
  solved d = false ->
  SolveEquihash probes d m h = Ret r ->
  validated_safe d m (sv_data r) (sv_miner r) (sv_events r).
Proof.
  induction probes as [|x rest IH]; intros d m h r Hs; simpl.
  - intros [= <-]. simpl.
    constructor; simpl; rewrite ?Hs; auto; try congruence; lia.
  - destruct (validate d m h x) as [v| |] eqn:Hv; simpl; try discriminate.
    destruct (validate_safe d m h x v Hs Hv) as (Hsafe & Hzero & _).
    destruct (v_code v =? 0) eqn:Hc.
    + apply Z.eqb_eq in Hc. specialize (Hzero Hc).
      destruct (SolveEquihash rest _ _ _) as [r'| |] eqn:Hr; simpl;
        try discriminate.
      intros [= <-]. simpl.
      specialize (IH _ _ _ _ Hzero Hr).
      destruct Hsafe as [Hn Hk Hsub Hsol Hmin Hrep Hcnt Hreps Hsv].
      destruct IH as [Hn' Hk' Hsub' Hsol' Hmin' Hrep' Hcnt' Hreps' Hsv'].
      rewrite Hzero in Hsub, Hmin.
      constructor.
      * congruence.
      * congruence.
      * rewrite submitted_app, Hsub. exact Hsub'.
      * intros Ht. rewrite <- Hn, <- Hk. auto.
      * rewrite Hmin'. rewrite Hmin. reflexivity.
      * rewrite reported_app. lia.
      * auto.
      * intros Hpos. rewrite reported_app.
        specialize (Hreps Hpos). specialize (Hcnt Hpos).
        specialize (Hreps' Hcnt). lia.
      * rewrite solves_app. lia.
    + intros [= <-]. simpl. exact Hsafe.
Qed.

Lemma accounted_report tr hc :
  accounted tr hc -> accounted (tr ++ [EvReport hc]) 0.
Proof.
  intros (Hhc & Hrep & k & Hk & Heq).
  unfold accounted. rewrite reported_app, solves_app. simpl.
  split; [lia|]. split; [lia|]. exists k. split; [exact Hk|]. lia.
Qed.

Lemma accounted_count tr hc call ev hc' :
  is_solve call = true ->
  accounted tr hc ->
  solves ev = 0 -> reported ev + hc' = hc -> 0 <= hc' -> 0 <= reported ev ->
  accounted (tr ++ [call] ++ ev) (Word.u64 (hc' + 1)).
Proof.
  intros Hcall (Hhc & Hrep & k & Hk & Heq) Hsv Hsum Hpos Hpos'.
  unfold accounted. rewrite !reported_app, !solves_app.
  assert (reported [call] = 0) as ->.
  { destruct call; try discriminate. reflexivity. }
  assert (solves [call] = 1) as ->.
  { destruct call; try discriminate. reflexivity. }
  pose proof (WordFacts.u64_range (hc' + 1)) as Hr.
  split; [lia|]. split; [lia|].
  exists (k + (hc' + 1) / 2 ^ 64).
  assert (0 <= (hc' + 1) / 2 ^ 64) by (apply Z.div_pos; lia).
  split; [lia|].
  pose proof (Z.div_mod (hc' + 1) (2 ^ 64) ltac:(lia)) as Hdm.
  unfold Word.u64, Word.wrap in *. lia.
Qed.

Lemma evaluate_safe m0 s d h ev probes rest s' :
  solved d = false -> cbN d = paramN -> cbK d = paramK ->
  miner s = m0 ->
  submitted (trace s ++ ev) = [] ->
  accounted (trace s ++ ev) (hashesCompleted d) ->
  evaluate s d h ev probes rest = Ret s' -> session_safe m0 s'.
Proof.
  intros Hs Hn Hk Hm Hsub Hacc. unfold evaluate.
  destruct (SolveEquihash probes _ (miner s) h) as [r| |] eqn:Hr; simpl;
    try discriminate.
  apply SolveEquihash_safe in Hr; [|exact Hs].
  destruct Hr as [Hn' Hk' Hsub' Hsol' Hmin' Hrep' Hcnt' Hreps' Hsv'].
  simpl in Hn', Hk', Hsub', Hsol', Hmin', Hrep', Hcnt', Hreps'.
  intros [= <-]. unfold session_safe.
  cbn [data trace miner pc solved msgBlock cbN cbK hashesCompleted
       set_hashesCompleted].
  split; [congruence|]. split; [congruence|].
  split.
  { rewrite (app_assoc (trace s) ev), submitted_app, Hsub. exact Hsub'. }
  split; [rewrite <- Hn, <- Hk; exact Hsol'|].
  split; [rewrite Hmin', Hm; reflexivity|].
  split; [discriminate|].
  rewrite (app_assoc (trace s) ev).
  destruct Hacc as (Hpos & Hacc').
  eapply accounted_count; eauto.
  split; auto.
Qed.

Lemma step_safe m0 s s' :
  session_safe m0 s -> step s = Ret s' -> session_safe m0 s'.
Proof.
  intros (Hn & Hk & Hsub & Hsol & Hmin & Hret & Hacc). unfold step.
  destruct (pc s) eqn:Hpc.
  - destruct (extraNonce s <? maxExtraNonce); simpl.
    2:{ intros [= <-]. unfold session_safe; simpl.
        repeat (split; [assumption || congruence|]). exact Hacc. }
    destruct (IsExiting (data s)) eqn:Hex; simpl.
    { intros [= <-]. unfold session_safe; simpl.
      repeat (split; [assumption || congruence|]). exact Hacc. }
    unfold IsExiting in Hex. apply orb_false_iff in Hex as [Hs He].
    rewrite Hs in Hsub, Hmin.
    intros [= <-]. unfold session_safe; simpl. rewrite Hs.
    repeat (split; [assumption || congruence|]). exact Hacc.
  - destruct (nonce s <=? maxNonce); simpl.
    2:{ intros [= <-]. unfold session_safe; simpl.
        repeat (split; [assumption || discriminate|]). exact Hacc. }
    destruct (IsExiting (data s)) eqn:Hex; simpl.
    { intros [= <-]. unfold session_safe; simpl.
      repeat (split; [assumption || discriminate|]). exact Hacc. }
    unfold IsExiting in Hex. apply orb_false_iff in Hex as [Hs He].
    rewrite Hs in Hsub, Hmin.
    destruct (script s) as [|it rest].
    { intros [= <-]. unfold session_safe. rewrite Hs.
      repeat (split; [assumption || congruence|]). exact Hacc. }
    destruct (it_poll it) as [| |tk|].
    + intros [= <-]. unfold session_safe; simpl.
      repeat (split; [assumption || congruence|]). exact Hacc.
    + intros [= <-]. unfold session_safe; simpl.
      repeat (split; [assumption || congruence|]). exact Hacc.
    + pose proof (updateBlockTime_frame (data s) tk) as (Hsol' & _).
      pose proof (updateBlockTime_reports (data s) tk) as (Hev & Hhc).
      pose proof (updateBlockTime_params (data s) tk) as (Hn' & Hk').
      destruct (updateBlockTime (data s) tk) as [[ok d'] ev].
      cbn [fst snd] in *. subst ev. rewrite Hs in Hsol'.
      assert (submitted (trace s ++ [EvReport (hashesCompleted (data s))]) = [])
        as Hsub'.
      { rewrite submitted_app, Hsub. reflexivity. }
      assert (accounted (trace s ++ [EvReport (hashesCompleted (data s))])
                (hashesCompleted d')) as Hacc'.
      { rewrite Hhc. apply accounted_report. exact Hacc. }
      destruct ok.
      * apply evaluate_safe; auto; congruence.
      * intros [= <-]. unfold session_safe; simpl. rewrite Hsol'.
        repeat (split; [assumption || congruence|]). exact Hacc'.
    + apply evaluate_safe; auto; rewrite app_nil_r; assumption.
  - intros [= <-]. unfold session_safe. rewrite Hpc.
    repeat (split; [assumption|]). exact Hacc.
Qed.

Lemma run_safe m0 fuel : forall s s',
  session_safe m0 s -> run fuel s = Ret s' -> session_safe m0 s'.
Proof.
  induction fuel as [|fuel IH]; intros s s' Hinv; simpl.
  - intros [= <-]. exact Hinv.
  - destruct (step s) as [s1| |] eqn:Hstep; simpl; try discriminate.
    apply IH. eapply step_safe; eauto.
Qed.

Lemma solveBlock_init_safe m h blk q term id st sc :
  session_safe m (solveBlock_init m h blk q term id st sc).
Proof.
  unfold session_safe, accounted. simpl.
  repeat (split; [reflexivity || discriminate || lia|]).
  exists 0. lia.
Qed.

Lemma solveBlock_safe fuel m h blk q term id st sc s :
  solveBlock fuel m h blk q term id st sc = Ret s -> session_safe m s.
Proof.
  intros Hrun. unfold solveBlock in Hrun.
  eapply run_safe; [apply solveBlock_init_safe|exact Hrun].
Qed.

End SessionFacts.

Section SessionTheorems.
Context {Solution : Type} `{!External Solution}.

(** X3.  Whatever [solveBlock] has done when it is observed (after any
    number of steps, on any template, signals, ticks and evaluator
    behaviour): if the session is solved, exactly one block was handed to
    [submitBlock], namely the block the session holds, that block meets its
    target and passes the verifier on its serialised header, and the miner
    differs from the one the session started on only by the mined counter of
    the block's parent, incremented modulo 256; if the session is not
    solved, nothing was submitted and the miner is untouched. The value
    [solveBlock] returns is the solved flag. *)
Theorem solveBlock_submits_only_its_solution
  fuel m h blk q term id st (sc : list (Iter Solution)) s :
  solveBlock fuel m h blk q term id st sc = Ret s ->
  let b := msgBlock (data s) in
  (solved (data s) = true ->
     submitted (trace s) = [b]
     /\ is_solution paramN paramK b = true
     /\ miner s = count_mined m (PrevBlock (Header b)))
  /\ (solved (data s) = false -> submitted (trace s) = [] /\ miner s = m)
  /\ (forall r, pc s = Returned r -> r = solved (data s)).
Proof.
  intros Hrun b. apply solveBlock_safe in Hrun.
  destruct Hrun as (_ & _ & Hsub & Hsol & Hmin & Hret & _).
  split; [|split].
  - intros Ht. rewrite Ht in Hsub, Hmin. auto.
  - intros Hf. rewrite Hf in Hsub, Hmin. auto.
  - exact Hret.
Qed.

(** X4.  The hash counter of a session loses no evaluator invocation while
    the session runs: at every point the counts already reported to the
    speed monitor plus the session's counter equal the number of evaluator
    invocations, exactly as long as there were fewer than 2^64 of them and
    modulo 2^64 in general (the counter is a uint64). What the counter holds
    when [solveBlock] returns was never reported. *)
Theorem solveBlock_hash_accounting
  fuel m h blk q term id st (sc : list (Iter Solution)) s :
  solveBlock fuel m h blk q term id st sc = Ret s ->
  reported (trace s) + hashesCompleted (data s) <= solves (trace s)
  /\ (reported (trace s) + hashesCompleted (data s)) mod 2 ^ 64
     = solves (trace s) mod 2 ^ 64
  /\ (solves (trace s) < 2 ^ 64 ->
      reported (trace s) + hashesCompleted (data s) = solves (trace s)).
Proof.
  intros Hrun. apply solveBlock_safe in Hrun.
  destruct Hrun as (_ & _ & _ & _ & _ & _ & Hacc).
  destruct Hacc as (Hhc & Hrep & k & Hk & Heq).
  split; [nia|]. split.
  - rewrite Heq. rewrite Z.mod_add by lia. reflexivity.
  - intros Hlt. nia.
Qed.

End SessionTheorems.

Lemma solveBlock_submits_witness :
  exists s,
    @solveBlock _ Reference.collaborators 4 Reference.miner0 []
      Reference.template None None 1 Reference.entry
      [mkIter PollDefault [Candidate Reference.good Reference.accepted]]
    = Ret s
    /\ submitted (trace s) = [msgBlock (data s)]
    /\ pc s = Returned true.
Proof.
  pose proof (@solveBlock_submits_only_its_solution _ Reference.collaborators
                4 Reference.miner0 [] Reference.template None None 1
                Reference.entry
                [mkIter PollDefault
                   [Candidate Reference.good Reference.accepted]]) as Hsafe.
  destruct (@solveBlock _ Reference.collaborators 4 Reference.miner0 []
              Reference.template None None 1 Reference.entry
              [mkIter PollDefault
                 [Candidate Reference.good Reference.accepted]])
    as [s| |] eqn:Hrun;
    vm_compute in Hrun; try discriminate.
  exists s. split; [reflexivity|].
  assert (solved (data s) = true) as Hsolved.
  { injection Hrun as <-. reflexivity. }
  destruct (Hsafe s eq_refl) as (Hyes & _ & _).
  destruct (Hyes Hsolved) as (Hsub & _).
  split; [exact Hsub|].
  injection Hrun as <-. reflexivity.
Defined.

Lemma solveBlock_hash_accounting_witness :
  exists s,
    @solveBlock _ Reference.collaborators 4 Reference.miner0 []
      Reference.template None None 1 Reference.entry
      [quiet; mkIter (PollTick (Reference.tick 1 0)) []; quiet]
    = Ret s
    /\ solves (trace s) = 3
    /\ reported (trace s) + hashesCompleted (data s) = solves (trace s).
Proof.
  pose proof (@solveBlock_hash_accounting _ Reference.collaborators
                4 Reference.miner0 [] Reference.template None None 1
                Reference.entry
                [quiet; mkIter (PollTick (Reference.tick 1 0)) []; quiet])
    as Hacc.
  destruct (@solveBlock _ Reference.collaborators 4 Reference.miner0 []
              Reference.template None None 1 Reference.entry
              [quiet; mkIter (PollTick (Reference.tick 1 0)) []; quiet])
    as [s| |] eqn:Hrun;
    vm_compute in Hrun; try discriminate.
  exists s. split; [reflexivity|].
  assert (solves (trace s) = 3) as Hsolves.
  { injection Hrun as <-. reflexivity. }
  split; [exact Hsolves|].
  destruct (Hacc s eq_refl) as (_ & _ & Hexact).
  apply Hexact. rewrite Hsolves. lia.
Defined.

(** ** Discrete generation *)

Section GenerateFacts.
Context {Solution : Type} `{!External Solution}.

(** A discrete session: when [solveBlock] returns true the block it holds
    has been handed to [submitBlock] twice, by the validator and by the
    caller; when it returns false, never. *)
Lemma GenerateNBlocks_attempt_safe fuel m h blk st
  (sc : list (Iter Solution)) r s :
  GenerateNBlocks_attempt fuel m h blk st sc r = Ret s ->
  let b := msgBlock (data s) in
  (pc s = Returned true ->
     submitted (trace s) = [b; b]
     /\ is_solution paramN paramK b = true
     /\ miner s = count_mined m (PrevBlock (Header b)))
  /\ (pc s = Returned false -> submitted (trace s) = [] /\ miner s = m).
Proof.
  unfold GenerateNBlocks_attempt.
  destruct (solveBlock fuel m h blk None None 1 st sc) as [s0| |] eqn:Hrun;
    simpl; try discriminate.
  apply solveBlock_safe in Hrun.
  destruct Hrun as (_ & _ & Hsub & Hsol & Hmin & Hret & _).
  destruct (pc s0) as [| |[|]] eqn:Hpc.
  - intros [= <-]. rewrite Hpc. split; discriminate.
  - intros [= <-]. rewrite Hpc. split; discriminate.
  - specialize (Hret true eq_refl). symmetry in Hret.
    rewrite Hret in Hsub, Hmin.
    destruct (submitBlock _ r) as [[ok line]|]; [|discriminate].
    intros [= <-]. cbn [data trace miner pc]. split; [|discriminate].
    intros _. rewrite submitted_app, Hsub. auto.
  - specialize (Hret false eq_refl). symmetry in Hret.
    rewrite Hret in Hsub, Hmin.
    intros [= <-]. rewrite Hpc. split; [discriminate|]. auto.
Qed.

Lemma index_Some_range {A : Type} (l : list A) (i : Z) (x : A) :
  index l i = Some x -> 0 <= i < Z.of_nat (length l).
Proof.
  unfold index. destruct (0 <=? i) eqn:H0; simpl; [|discriminate].
  destruct (i <? Z.of_nat (length l)) eqn:H1; [|discriminate].
  intros _. lia.
Qed.

Lemma hashes_insert (bs : list MsgBlock) (b : MsgBlock) (k : nat) :
  <[length bs := hash_of b]> (map hash_of bs ++ replicate (S k) None)
  = map hash_of (bs ++ [b]) ++ replicate k None.
Proof.
  rewrite map_app, <- app_assoc. simpl.
  replace (length bs) with (length (map hash_of bs) + 0)%nat
    by (rewrite length_map; lia).
  rewrite insert_app_r. reflexivity.
Qed.

Lemma mined_all_fields bs : forall m,
  exists mp,
    forall m2, minedOnParents m2 = minedOnParents m ->
      mined_all m2 bs = set_minedOnParents m2 mp.
Proof.
  induction bs as [|b bs IH]; intros m.
  - exists (minedOnParents m). intros m2 <-. destruct m2; reflexivity.
  - destruct (IH (count_mined m (PrevBlock (Header b)))) as (mp & Hmp).
    exists mp. intros m2 Heq.
    change (mined_all m2 (b :: bs))
      with (mined_all (count_mined m2 (PrevBlock (Header b))) bs).
    rewrite Hmp.
    + reflexivity.
    + unfold count_mined, mined. simpl. rewrite Heq. reflexivity.
Qed.

Lemma mined_all_snoc m bs b :
  mined_all m (bs ++ [b])
  = count_mined (mined_all m bs) (PrevBlock (Header b)).
Proof. unfold mined_all. rewrite foldl_app. reflexivity. Qed.

(** The generating loop from a point where [i] blocks have been stored. *)
Lemma generate_loop_spec rounds : forall addrs n i hashes m h ev done r,
  0 <= n < 2 ^ 32 ->
  Z.of_nat (length done) = i -> i <= n ->
  hashes = map hash_of done ++ replicate (Z.to_nat (n - i)) None ->
  generate_loop rounds addrs n i hashes (m, h, ev) = Ret r ->
  exists more h',
    r = (map hash_of (done ++ more),
         (set_discreteMining
            (set_started (set_wg (mined_all m more) 0) false) false,
          h', snd (snd r)))
    /\ Z.of_nat (length (done ++ more)) = n
    /\ i < n
    /\ Forall (fun b => is_solution paramN paramK b = true) more
    /\ submitted (snd (snd r))
       = submitted ev ++ flat_map (fun b => [b; b]) more
    /\ is_closed (speedMonitorQuit m) h' = true.
Proof.
  induction rounds as [|rd rest IH];
    intros addrs n i hashes m h ev done r Hn Hlen Hle Hhashes; simpl;
    [discriminate|].
  destruct (addrs =? 0)%nat; [discriminate|].
  destruct (rd_template rd) as [| |blk].
  - apply IH with (done := done); assumption.
  - apply IH with (done := done); assumption.
  - destruct (GenerateNBlocks_attempt _ m h blk _ _ _) as [s| |] eqn:Hatt;
      simpl; try discriminate.
    apply GenerateNBlocks_attempt_safe in Hatt. cbv zeta in Hatt.
    destruct Hatt as [Hyes Hno].
    destruct (pc s) as [| |[|]] eqn:Hpc; try discriminate.
    + destruct (Hyes eq_refl) as (Hsub & Hsol & Hmin). clear Hyes Hno.
      destruct (index hashes i) as [x|] eqn:Hix; [|discriminate].
      apply index_Some_range in Hix.
      assert (Z.of_nat (length hashes) = n) as Hlh.
      { rewrite Hhashes, length_app, length_map, length_replicate. lia. }
      assert (i < n) as Hlt by lia.
      assert (Word.u32 (i + 1) = i + 1) as Hu.
      { apply WordFacts.u32_id. unfold Word.is_u32. lia. }
      rewrite Hu.
      set (b := msgBlock (data s)) in *.
      assert (<[Z.to_nat i := Some (BlockHash (Header b))]> hashes
              = map hash_of (done ++ [b])
                ++ replicate (Z.to_nat (n - (i + 1))) None) as Hins.
      { rewrite Hhashes.
        replace (Z.to_nat (n - i)) with (S (Z.to_nat (n - (i + 1)))) by lia.
        replace (Z.to_nat i) with (length done) by lia.
        apply hashes_insert. }
      rewrite Hins.
      destruct (i + 1 =? n) eqn:Hend.
      * apply Z.eqb_eq in Hend.
        destruct (close_chan _ (hp s)) as [h'| |] eqn:Hclose; simpl;
          try discriminate.
        intros [= <-]. exists [b], h'.
        apply close_chan_sound in Hclose as (Hclosed & _).
        rewrite Hmin in Hclosed |- *.
        replace (Z.to_nat (n - (i + 1))) with 0%nat by lia.
        simpl replicate. rewrite app_nil_r.
        split; [reflexivity|].
        split; [rewrite length_app; simpl; lia|].
        split; [exact Hlt|].
        split; [constructor; [exact Hsol|constructor]|].
        split; [|exact Hclosed].
        cbn [snd]. rewrite !submitted_app, Hsub. simpl.
        rewrite ?app_nil_r. reflexivity.
      * apply Z.eqb_neq in Hend.
        intros Hrest.
        eapply (IH addrs n (i + 1) _ _ _ _ (done ++ [b])) in Hrest;
          [|exact Hn|rewrite length_app; simpl; lia|lia|reflexivity].
        destruct Hrest as (more & h' & Hr & Hall & _ & Hsols & Hsubs & Hcl).
        exists (b :: more), h'.
        rewrite <- app_assoc in Hr, Hall. simpl in Hr, Hall.
        rewrite Hmin in Hr, Hcl.
        split; [exact Hr|].
        split; [exact Hall|].
        split; [exact Hlt|].
        split; [constructor; assumption|].
        split; [|exact Hcl].
        rewrite Hsubs, submitted_app, Hsub, <- app_assoc. reflexivity.
    + destruct (Hno eq_refl) as (Hsub & Hmin). clear Hyes Hno.
      intros Hrest.
      eapply (IH addrs n i _ _ _ _ done) in Hrest;
        [|exact Hn|exact Hlen|exact Hle|exact Hhashes].
      destruct Hrest as (more & h' & Hr & Hall & Hlt & Hsols & Hsubs & Hcl).
      exists more, h'. rewrite Hmin in Hr, Hcl.
      split; [exact Hr|].
      split; [exact Hall|].
      split; [exact Hlt|].
      split; [exact Hsols|].
      split; [|exact Hcl].
      rewrite Hsubs, submitted_app, Hsub, app_nil_r. reflexivity.
Qed.

End GenerateFacts.

Section GenerateTheorems.
Context {Solution : Type} `{!External Solution}.

(** X5.  When [GenerateNBlocks(n)] returns a list of hashes, it holds [n]
    hashes, none of them nil, in the order in which the blocks were found,
    and [n] is at least one; each is the hash of a block that meets its
    target and passes the verifier; these blocks, each of them twice in a
    row (once by the validator, once by the generating loop), are all that
    was handed to [submitBlock] during the call; the miner afterwards is the
    miner before with the mined counters of the blocks' parents incremented,
    a fresh and now closed speed-monitor quit channel and an empty wait
    group, so it is neither started nor in discrete mode. *)
Theorem GenerateNBlocks_returns_hashes_of_submitted_solutions
  sup addrs n (rounds : list (Round Solution)) m h ev hashes m' h' ev' :
  0 <= n < 2 ^ 32 ->
  GenerateNBlocks sup addrs n rounds (m, h, ev)
  = Ret (inr hashes, (m', h', ev')) ->
  exists blocks,
    hashes = map hash_of blocks
    /\ Z.of_nat (length blocks) = n
    /\ 1 <= n
    /\ Forall (fun b => is_solution paramN paramK b = true) blocks
    /\ submitted ev' = submitted ev ++ flat_map (fun b => [b; b]) blocks
    /\ m' = set_wg (set_speedMonitorQuit (mined_all m blocks)
                      (Some (length h))) 0
    /\ started m' = false /\ discreteMining m' = false
    /\ is_closed (speedMonitorQuit m') h' = true.
Proof.
  intros Hn. unfold GenerateNBlocks.
  destruct sup; simpl; [|discriminate].
  destruct (started m || discreteMining m) eqn:Hidle; [discriminate|].
  apply orb_false_iff in Hidle as [Hst Hdm].
  destruct (generate_loop rounds addrs n 0 _ _) as [r| |] eqn:Hloop; simpl;
    try discriminate.
  eapply (generate_loop_spec rounds addrs n 0 _ _ _ _ []) in Hloop;
    [|exact Hn|reflexivity|lia|rewrite Z.sub_0_r; reflexivity].
  destruct Hloop as (blocks & h1 & Hr & Hlen & Hpos & Hsols & Hsubs & Hcl).
  intros Hret. rewrite Hr in Hret. cbn [fst snd] in Hret.
  injection Hret as <- <- <- Hev. rewrite Hev in Hsubs.
  exists blocks.
  split; [reflexivity|]. split; [exact Hlen|]. split; [lia|].
  split; [exact Hsols|].
  split.
  { rewrite Hsubs, submitted_app. simpl. rewrite app_nil_r. reflexivity. }
  destruct (mined_all_fields blocks m) as (mp & Hmp).
  rewrite (Hmp m eq_refl).
  match goal with
  | |- context [mined_all ?m2 blocks] => rewrite (Hmp m2 eq_refl)
  end.
  split; [|split; [reflexivity|split; [reflexivity|exact Hcl]]].
  destruct m. simpl in Hst, Hdm. subst. reflexivity.
Qed.

Lemma generate_loop_zero (rounds : list (Round Solution)) : forall addrs w,
  generate_loop rounds addrs 0 0 [] w = Panic
  \/ generate_loop rounds addrs 0 0 [] w = OutOfFuel.
Proof.
  induction rounds as [|rd rest IH]; intros addrs [[m h] ev]; simpl;
    [right; reflexivity|].
  destruct (addrs =? 0)%nat; [left; reflexivity|].
  destruct (rd_template rd) as [| |blk]; [apply IH|apply IH|].
  destruct (GenerateNBlocks_attempt _ m h blk _ _ _) as [s| |]; simpl;
    [|left; reflexivity|right; reflexivity].
  destruct (pc s) as [| |[|]];
    [right; reflexivity|right; reflexivity|left; reflexivity|apply IH].
Qed.

(** X6.  [GenerateNBlocks(0)] on an idle miner of a network that supports
    generation never returns: its slice of hashes is empty, so storing the
    hash of the first block found panics (index out of range), after that
    block has been submitted; until then the loop goes on. *)
Theorem GenerateNBlocks_zero_never_returns
  addrs (rounds : list (Round Solution)) m h ev :
  started m = false -> discreteMining m = false ->
  GenerateNBlocks true addrs 0 rounds (m, h, ev) = Panic
  \/ GenerateNBlocks true addrs 0 rounds (m, h, ev) = OutOfFuel.
Proof.
  intros Hst Hdm. unfold GenerateNBlocks. simpl. rewrite Hst, Hdm. simpl.
  match goal with
  | |- context [generate_loop rounds addrs 0 0 [] ?w] =>
      destruct (generate_loop_zero rounds addrs w) as [-> | ->]
  end; [left|right]; reflexivity.
Qed.

End GenerateTheorems.

Lemma GenerateNBlocks_witness :
  exists blocks m' h' ev',
    @GenerateNBlocks _ Reference.collaborators true 1 1
      [mkRound (TemplateBlock Reference.template) Reference.entry
         [mkIter PollDefault [Candidate Reference.good Reference.accepted]]
         4 Reference.duplicate]
      (Reference.miner0, [], [])
    = Ret (inr (map (@hash_of _ Reference.collaborators) blocks),
           (m', h', ev'))
    /\ length blocks = 1%nat
    /\ submitted ev' = flat_map (fun b => [b; b]) blocks.
Proof.
  pose proof (@GenerateNBlocks_returns_hashes_of_submitted_solutions
                _ Reference.collaborators true 1 1
                [mkRound (TemplateBlock Reference.template) Reference.entry
                   [mkIter PollDefault
                      [Candidate Reference.good Reference.accepted]]
                   4 Reference.duplicate]
                Reference.miner0 [] []) as Hgen.
  destruct (@GenerateNBlocks _ Reference.collaborators true 1 1
              [mkRound (TemplateBlock Reference.template) Reference.entry
                 [mkIter PollDefault
                    [Candidate Reference.good Reference.accepted]]
                 4 Reference.duplicate]
              (Reference.miner0, [], []))
    as [[[e|hashes] [[m' h'] ev']]| |] eqn:Hrun;
    vm_compute in Hrun; try discriminate.
  destruct (Hgen hashes m' h' ev' ltac:(lia) eq_refl)
    as (blocks & -> & Hlen & _ & _ & Hsub & _).
  exists blocks, m', h', ev'.
  split; [reflexivity|]. split; [lia|]. exact Hsub.
Defined.

Lemma GenerateNBlocks_zero_witness :
  @GenerateNBlocks _ Reference.collaborators true 1 0
    [mkRound (TemplateBlock Reference.template) Reference.entry
       [mkIter PollDefault [Candidate Reference.good Reference.accepted]]
       4 Reference.duplicate]
    (Reference.miner0, [], [])
  = Panic.
Proof.
  destruct (@GenerateNBlocks_zero_never_returns _ Reference.collaborators 1
              [mkRound (TemplateBlock Reference.template) Reference.entry
                 [mkIter PollDefault
                    [Candidate Reference.good Reference.accepted]]
                 4 Reference.duplicate]
              Reference.miner0 [] [] eq_refl eq_refl) as [Hp|Hf];
    [exact Hp|].
  vm_compute in Hf. discriminate.
Defined.

(** ** Abandon channels *)

Section StopperFacts.
Context {Solution : Type} `{!External Solution}.

Lemma try_send_other c h h' c' :
  try_send c h = Ret h' -> c' <> c -> buffered c' h' = buffered c' h.
Proof.
  destruct c as [a|]; simpl; [|intros [= <-]; reflexivity].
  destruct (h !! a) as [st|] eqn:Ha; [|intros [= <-]; reflexivity].
  destruct (ch_closed st); [discriminate|].
  destruct (ch_len st <? ch_cap st)%nat; [|intros [= <-]; reflexivity].
  intros [= <-] Hne. destruct c' as [a'|]; [|reflexivity]. simpl.
  rewrite list_lookup_insert_ne by congruence. reflexivity.
Qed.

Lemma send_all_other cs : forall h h' c',
  send_all cs h = Ret h' -> c' ∉ cs -> buffered c' h' = buffered c' h.
Proof.
  induction cs as [|c cs IH]; intros h h' c'; simpl.
  - intros [= <-] _. reflexivity.
  - destruct (try_send c h) as [h1| |] eqn:Hs; simpl; try discriminate.
    intros Hrest Hnin. apply not_elem_of_cons in Hnin as [Hne Hnin].
    rewrite (IH _ _ _ Hrest Hnin). eapply try_send_other; eauto.
Qed.

Lemma siblings_from_skip_own stoppers : forall (k j : nat) own,
  NoDup stoppers -> stoppers !! j = Some own ->
  own ∉ siblings_from k stoppers (Z.of_nat (k + j) + 1).
Proof.
  induction stoppers as [|c0 rest IH]; intros k j own Hnd Hj;
    [discriminate|].
  apply NoDup_cons in Hnd as [Hc0 Hnd]. simpl.
  destruct j as [|j]; simpl in Hj.
  - injection Hj as ->. rewrite Nat.add_0_r, Z.eqb_refl.
    intros Hin. apply siblings_from_subset in Hin. contradiction.
  - assert ((Z.of_nat k + 1 =? Z.of_nat (k + S j) + 1) = false) as ->
      by (apply Z.eqb_neq; lia).
    apply not_elem_of_cons. split.
    + intros ->. apply Hc0. eapply list_elem_of_lookup_2. exact Hj.
    + replace (k + S j)%nat with (S k + j)%nat by lia.
      apply IH; assumption.
Qed.

Lemma open_of_not_closed a (h : heap) :
  (a < length h)%nat -> is_closed (Some a) h = false ->
  is_open (Some a) h = true.
Proof.
  intros Hlt. simpl.
  destruct (lookup_lt_is_Some_2 h a Hlt) as [st ->].
  intros ->. reflexivity.
Qed.

Lemma buffered_grows a (h ext : heap) :
  (a < length h)%nat -> buffered (Some a) (h ++ ext) = buffered (Some a) h.
Proof. intros Hlt. simpl. rewrite lookup_app_l by exact Hlt. reflexivity. Qed.

Lemma capacity_grows a (h ext : heap) :
  (a < length h)%nat -> capacity (Some a) (h ++ ext) = capacity (Some a) h.
Proof. intros Hlt. simpl. rewrite lookup_app_l by exact Hlt. reflexivity. Qed.

Lemma stoppers_wf_grows m h ext :
  stoppers_wf m h -> stoppers_wf m (h ++ ext).
Proof.
  intros (Hnd & Hall & Hlen). split; [exact Hnd|]. split; [|exact Hlen].
  eapply Forall_impl; [exact Hall|]. intros c [Ho Hc].
  pose proof (heap_grows_open c h ext Ho) as Ho'.
  destruct (is_open_valid c h Ho) as (a & -> & Hlt).
  split; [exact Ho'|]. rewrite capacity_grows by exact Hlt. exact Hc.
Qed.

(** One pass of the launching loop on well-formed abandon channels. *)
Lemma launch_one_stoppers m h ev :
  stoppers_wf m h ->
  Z.of_nat (length (miningStoppper m)) + 1 < 2 ^ 32 ->
  exists m' ext w,
    launch_one (m, h, ev)
    = (m', h ++ ext, ev ++ [EvGo (w_id w) (w_quit w) (w_term w)])
    /\ stoppers_wf m' (h ++ ext)
    /\ miningStoppper m' = miningStoppper m ++ [w_term w]
    /\ w_id w = Z.of_nat (length (miningStoppper m)) + 1
    /\ buffered (w_term w) (h ++ ext) = 0%nat
    /\ (exists a, w_term w = Some a /\ (a < length (h ++ ext))%nat).
Proof.
  intros (Hnd & Hall & Hlen) Hroom.
  rewrite launch_one_eq.
  exists (set_workerWg
            (set_miningStoppper
               (set_runningWorkers m (runningWorkers m ++ [Some (length h)]))
               (miningStoppper m ++ [Some (length (h ++ [mkChan 0 0 false]))]))
            (workerWg m + 1)),
    [mkChan 0 0 false; mkChan 1 0 false],
    (mkWorker (Z.of_nat (length (miningStoppper m)) + 1) (Some (length h))
       (Some (length (h ++ [mkChan 0 0 false]))) true).
  cbn [w_id w_quit w_term miningStoppper set_workerWg set_miningStoppper
       set_runningWorkers].
  assert (length (h ++ [mkChan 0 0 false]) = S (length h)) as Hl1
    by (rewrite length_app; simpl; lia).
  assert ((h ++ [mkChan 0 0 false; mkChan 1 0 false]) !! S (length h)
          = Some (mkChan 1 0 false)) as Hlook.
  { change (h ++ [mkChan 0 0 false; mkChan 1 0 false])
      with (h ++ [mkChan 0 0 false] ++ [mkChan 1 0 false]).
    rewrite app_assoc. apply list_lookup_middle. symmetry. exact Hl1. }
  split.
  { rewrite <- app_assoc. simpl. f_equal. f_equal. f_equal.
    rewrite length_app. simpl.
    rewrite WordFacts.u32_id by (unfold Word.is_u32; lia).
    f_equal. lia. }
  rewrite Hl1.
  split.
  { split; [|split].
    - apply NoDup_app. split; [exact Hnd|].
      split; [|apply NoDup_singleton].
      intros c Hc Hin. apply list_elem_of_singleton in Hin. subst c.
      rewrite Forall_forall in Hall. destruct (Hall _ Hc) as [Ho _].
      apply is_open_valid in Ho as (a & [= <-] & Hlt). lia.
    - apply Forall_app. split.
      + eapply Forall_impl; [exact Hall|]. intros c [Ho Hc].
        pose proof (heap_grows_open c h
                      [mkChan 0 0 false; mkChan 1 0 false] Ho) as Ho'.
        destruct (is_open_valid c h Ho) as (a & -> & Hlt).
        split; [exact Ho'|]. rewrite capacity_grows by exact Hlt. exact Hc.
      + rewrite Forall_singleton. simpl. rewrite Hlook. auto.
    - cbn [miningStoppper set_workerWg set_miningStoppper set_runningWorkers].
      rewrite length_app. simpl. lia. }
  split; [reflexivity|]. split; [reflexivity|].
  split; [simpl; rewrite Hlook; reflexivity|].
  eexists. split; [reflexivity|]. rewrite length_app. simpl. lia.
Qed.

Lemma launch_stoppers (k : nat) : forall m h ev,
  stoppers_wf m h ->
  Z.of_nat (length (miningStoppper m)) + Z.of_nat k < 2 ^ 32 ->
  exists m' ext evs,
    Nat.iter k launch_one (m, h, ev) = (m', h ++ ext, ev ++ evs)
    /\ stoppers_wf m' (h ++ ext)
    /\ length (spawned evs) = k
    /\ miningStoppper m' = miningStoppper m ++ map w_term (spawned evs)
    /\ Forall (fun w =>
                 miningStoppper m' !! Z.to_nat (w_id w - 1) = Some (w_term w)
                 /\ Z.of_nat (length (miningStoppper m)) < w_id w
                 /\ buffered (w_term w) (h ++ ext) = 0%nat
                 /\ exists a, w_term w = Some a /\ (a < length (h ++ ext))%nat)
         (spawned evs).
Proof.
  induction k as [|k IH]; intros m h ev Hwf Hroom.
  - exists m, [], []. simpl. rewrite !app_nil_r.
    repeat split; try apply Hwf. constructor.
  - destruct (IH m h ev Hwf ltac:(lia))
      as (m1 & ext1 & evs1 & Hit & Hwf1 & Hlen1 & Hst1 & Hall1).
    assert (length (miningStoppper m1)
            = (length (miningStoppper m) + k)%nat) as Hl.
    { rewrite Hst1, length_app, length_map, Hlen1. reflexivity. }
    destruct (launch_one_stoppers m1 (h ++ ext1) (ev ++ evs1) Hwf1
                ltac:(lia))
      as (m2 & ext2 & w & Hone & Hwf2 & Hst2 & Hid & Hbuf & Hvalid).
    simpl. rewrite Hit, Hone.
    exists m2, (ext1 ++ ext2), (evs1 ++ [EvGo (w_id w) (w_quit w) (w_term w)]).
    rewrite !app_assoc. split; [reflexivity|].
    split; [exact Hwf2|].
    rewrite spawned_app. simpl.
    split; [rewrite length_app, Hlen1; simpl; lia|].
    split; [rewrite Hst2, Hst1, map_app, <- app_assoc; reflexivity|].
    apply Forall_app. split.
    + eapply Forall_impl; [exact Hall1|].
      intros w0 (Hpos & Hlow & Hb0 & a & Ha & Hlt).
      split; [rewrite Hst2; apply lookup_app_l_Some; exact Hpos|].
      split; [exact Hlow|].
      split; [|exists a; split; [exact Ha|rewrite length_app; lia]].
      rewrite Ha. rewrite buffered_grows by exact Hlt.
      rewrite <- Ha. exact Hb0.
    + rewrite Forall_singleton. destruct w as [wid wq wt wa].
      cbn [w_id w_term] in *.
      split.
      { rewrite Hst2, Hid.
        replace (Z.to_nat (Z.of_nat (length (miningStoppper m1)) + 1 - 1))
          with (length (miningStoppper m1)) by lia.
        apply list_lookup_middle. reflexivity. }
      split; [lia|]. split; [exact Hbuf|exact Hvalid].
Qed.

End StopperFacts.

Section StopperTheorems.
Context {Solution : Type} `{!External Solution}.

(** X7.  Launching [k] workers on well-formed abandon channels (with room
    below 2^32) keeps them well formed and only appends to
    [m.miningStoppper]: every worker started finds its own abandon channel
    at position [id - 1], above all earlier positions, with nothing buffered
    in it. *)
Theorem launchWorkers_gives_each_worker_its_slot k m h ev :
  0 <= k ->
  stoppers_wf m h ->
  Z.of_nat (length (miningStoppper m)) + k < 2 ^ 32 ->
  exists m' ext evs,
    launchWorkers k (m, h, ev) = (m', h ++ ext, ev ++ evs)
    /\ stoppers_wf m' (h ++ ext)
    /\ Z.of_nat (length (spawned evs)) = k
    /\ miningStoppper m' = miningStoppper m ++ map w_term (spawned evs)
    /\ Forall (fun w =>
                 miningStoppper m' !! Z.to_nat (w_id w - 1) = Some (w_term w)
                 /\ Z.of_nat (length (miningStoppper m)) < w_id w
                 /\ buffered (w_term w) (h ++ ext) = 0%nat)
         (spawned evs).
Proof.
  intros Hk Hwf Hroom. unfold launchWorkers.
  destruct (launch_stoppers (Z.to_nat k) m h ev Hwf ltac:(lia))
    as (m' & ext & evs & Hit & Hwf' & Hlen & Hst & Hall).
  exists m', ext, evs.
  split; [exact Hit|]. split; [exact Hwf'|]. split; [lia|].
  split; [exact Hst|].
  eapply Forall_impl; [exact Hall|].
  intros w (Hpos & Hlow & Hbuf & _). auto.
Qed.

(** X8.  [notifyBlockDone] called by the worker whose abandon channel sits
    at position [i] (its id is [i + 1]) on well-formed abandon channels: it
    does not panic, leaves the caller's own channel as it was, leaves every
    other abandon channel with a signal buffered, touches no channel outside
    [m.miningStoppper], and closes nothing. *)
Theorem notifyBlockDone_signals_all_but_the_caller m h (i : nat) own :
  stoppers_wf m h ->
  miningStoppper m !! i = Some own ->
  exists h',
    notifyBlockDone m (Z.of_nat i + 1) h = Ret h'
    /\ buffered own h' = buffered own h
    /\ (forall (j : nat) c, miningStoppper m !! j = Some c -> j <> i ->
          (1 <= buffered c h')%nat)
    /\ (forall c, c ∉ miningStoppper m -> buffered c h' = buffered c h)
    /\ (forall c, is_closed c h' = is_closed c h)
    /\ stoppers_wf m h'.
Proof.
  intros (Hnd & Hall & Hlen) Hown.
  rewrite notifyBlockDone_siblings by exact Hlen.
  rewrite Forall_forall in Hall.
  destruct (send_all_open (siblings m (Z.of_nat i + 1)) h)
    as (h' & Hsend & Hlh & Hcl & Hcap & Hmono & Hsig).
  { intros c Hc. apply siblings_from_subset in Hc.
    apply is_open_not_closed. apply Hall. exact Hc. }
  exists h'. split; [exact Hsend|].
  split.
  { eapply send_all_other; [exact Hsend|].
    apply (siblings_from_skip_own _ 0%nat i); assumption. }
  split.
  { intros j c Hj Hne. apply Hsig.
    - apply (siblings_from_lookup _ 0%nat j); [exact Hj|]. simpl. lia.
    - destruct (Hall c) as [_ Hc]; [eapply list_elem_of_lookup_2; eauto|].
      rewrite Hc. lia. }
  split.
  { intros c Hc. eapply send_all_other; [exact Hsend|].
    intros Hin. apply Hc. eapply siblings_from_subset. exact Hin. }
  split; [exact Hcl|].
  split; [exact Hnd|]. split; [|exact Hlen].
  rewrite Forall_forall. intros c Hc. destruct (Hall c Hc) as [Ho Hc1].
  destruct (is_open_valid c h Ho) as (a & -> & Hlt).
  split; [|rewrite Hcap; exact Hc1].
  apply open_of_not_closed; [lia|].
  rewrite Hcl. apply is_open_not_closed. exact Ho.
Qed.

End StopperTheorems.

Lemma launchWorkers_witness :
  exists m' h' ev',
    launchWorkers 2 (Reference.miner0, [], []) = (m', h', ev')
    /\ miningStoppper m' = [Some 1%nat; Some 3%nat]
    /\ map w_id (spawned ev') = [1; 2].
Proof.
  destruct (launchWorkers_gives_each_worker_its_slot 2 Reference.miner0
              [] [])
    as (m' & ext & evs & Hrun & _).
  - lia.
  - vm_compute. repeat split; constructor.
  - vm_compute. reflexivity.
  - exists m', ([] ++ ext), ([] ++ evs). split; [exact Hrun|].
    vm_compute in Hrun. injection Hrun as <- <- <-.
    split; reflexivity.
Defined.

Lemma notifyBlockDone_witness :
  exists h',
    notifyBlockDone Reference.pool2.1.1 1 Reference.pool2.1.2 = Ret h'
    /\ buffered (Some 1%nat) h' = 0%nat
    /\ buffered (Some 3%nat) h' = 1%nat.
Proof.
  destruct (notifyBlockDone_signals_all_but_the_caller
              Reference.pool2.1.1 Reference.pool2.1.2 0 (Some 1%nat))
    as (h' & Hrun & _).
  - vm_compute. split; [|split; [|reflexivity]].
    + apply (bool_decide_unpack _). vm_compute. exact I.
    + repeat constructor.
  - reflexivity.
  - exists h'. split; [exact Hrun|].
    vm_compute in Hrun. injection Hrun as <-. split; reflexivity.
Defined.

(** ** No operation closes an abandon channel *)

Section ShapeFacts.
Context {Solution : Type} `{!External Solution}.

Lemma same_shape_refl h : same_shape h h.
Proof. split; auto. Qed.

Lemma same_shape_trans h1 h2 h3 :
  same_shape h1 h2 -> same_shape h2 h3 -> same_shape h1 h3.
Proof.
  intros [Hl1 H1] [Hl2 H2]. split; [congruence|].
  intros c. destruct (H1 c) as [A B]. destruct (H2 c) as [C D].
  split; congruence.
Qed.

Lemma same_chans_refl m : same_chans m m.
Proof. repeat split. Qed.

Lemma same_chans_trans m1 m2 m3 :
  same_chans m1 m2 -> same_chans m2 m3 -> same_chans m1 m3.
Proof.
  intros (A1 & B1 & C1 & D1) (A2 & B2 & C2 & D2).
  repeat split; congruence.
Qed.

Lemma insert_shape (h : heap) a st st' :
  h !! a = Some st ->
  ch_cap st' = ch_cap st -> ch_closed st' = ch_closed st ->
  same_shape h (<[a := st']> h).
Proof.
  intros Ha Hcap Hcl. pose proof (lookup_lt_Some _ _ _ Ha) as Hlt.
  split; [apply length_insert|].
  intros [a'|]; simpl; [|auto].
  destruct (decide (a = a')) as [<-|Hne].
  - rewrite list_lookup_insert_eq by exact Hlt. rewrite Ha, Hcap, Hcl. auto.
  - rewrite list_lookup_insert_ne by exact Hne. auto.
Qed.

Lemma try_send_shape c h h' : try_send c h = Ret h' -> same_shape h h'.
Proof.
  destruct c as [a|]; simpl; [|intros [= <-]; apply same_shape_refl].
  destruct (h !! a) as [st|] eqn:Ha; [|intros [= <-]; apply same_shape_refl].
  destruct (ch_closed st) eqn:Hc; [discriminate|].
  destruct (ch_len st <? ch_cap st)%nat;
    [|intros [= <-]; apply same_shape_refl].
  intros [= <-]. eapply insert_shape; eauto.
Qed.

Lemma recv_shape c h : same_shape h (recv c h).
Proof.
  destruct c as [a|]; simpl; [|apply same_shape_refl].
  destruct (h !! a) as [st|] eqn:Ha; [|apply same_shape_refl].
  eapply insert_shape; eauto.
Qed.

Lemma notify_from_shape stoppers : forall i ownTid h h',
  notify_from i stoppers ownTid h = Ret h' -> same_shape h h'.
Proof.
  induction stoppers as [|c rest IH]; intros i ownTid h h'; simpl.
  - intros [= <-]. apply same_shape_refl.
  - destruct (Word.u32 (i + 1) =? ownTid); [apply IH|].
    destruct (try_send c h) as [h1| |] eqn:Hs; simpl; try discriminate.
    intros Hrest. eapply same_shape_trans.
    + eapply try_send_shape. exact Hs.
    + eapply IH. exact Hrest.
Qed.

Lemma notifyBlockDone_shape m ownTid h h' :
  notifyBlockDone m ownTid h = Ret h' -> same_shape h h'.
Proof. apply notify_from_shape. Qed.

(** Sending on open channels only does not panic, whatever their number. *)
Lemma notify_from_returns stoppers : forall i ownTid h,
  Forall (fun c => is_open c h = true) stoppers ->
  exists h', notify_from i stoppers ownTid h = Ret h'.
Proof.
  induction stoppers as [|c rest IH]; intros i ownTid h Hopen; simpl.
  - eauto.
  - apply Forall_cons in Hopen as [Hc Hrest].
    destruct (Word.u32 (i + 1) =? ownTid); [apply IH; exact Hrest|].
    destruct (try_send_open c h (is_open_not_closed _ _ Hc))
      as (h1 & Hs & _).
    rewrite Hs. simpl. apply IH.
    apply try_send_shape in Hs as [_ Hsh].
    eapply Forall_impl; [exact Hrest|]. intros c' Hc'.
    destruct (Hsh c') as [-> _]. exact Hc'.
Qed.

Lemma validate_shape d m h (x : Probe Solution) v :
  validate d m h x = Ret v ->
  same_shape h (v_heap v) /\ same_chans m (v_miner v).
Proof.
  unfold validate.
  destruct (exiting d).
  { intros [= <-]. split; [apply same_shape_refl|apply same_chans_refl]. }
  destruct x as [p|s r].
  - destruct p as [| |tk|].
    + intros [= <-]. split; [apply recv_shape|apply same_chans_refl].
    + intros [= <-]. split; [apply recv_shape|apply same_chans_refl].
    + destruct (updateBlockTime d tk) as [[ok d'] ev].
      destruct ok; intros [= <-];
        (split; [apply same_shape_refl|apply same_chans_refl]).
    + intros [= <-]. split; [apply same_shape_refl|apply same_chans_refl].
  - cbv zeta.
    destruct (hash_meets_target (splice d s)).
    2:{ intros [= <-]. split; [apply same_shape_refl|apply same_chans_refl]. }
    match goal with
    | |- (if ?rc then _ else _) = _ -> _ => destruct rc
    end.
    2:{ intros [= <-]. split; [apply same_shape_refl|apply same_chans_refl]. }
    destruct (submitBlock _ r) as [[ok line]|]; [|discriminate].
    destruct (notifyBlockDone _ _ h) as [h'| |] eqn:Hn; simpl;
      try discriminate.
    intros [= <-]. simpl. split.
    + eapply notifyBlockDone_shape. exact Hn.
    + repeat split.
Qed.

Lemma SolveEquihash_shape probes : forall d m h r,
  SolveEquihash probes d m h = Ret r ->
  same_shape h (sv_heap r) /\ same_chans m (sv_miner r).
Proof.
  induction probes as [|x rest IH]; intros d m h r; simpl.
  - intros [= <-]. split; [apply same_shape_refl|apply same_chans_refl].
  - destruct (validate d m h x) as [v| |] eqn:Hv; simpl; try discriminate.
    apply validate_shape in Hv as [Hsh Hch].
    destruct (v_code v =? 0).
    + destruct (SolveEquihash rest _ _ _) as [r'| |] eqn:Hr; simpl;
        try discriminate.
      apply IH in Hr as [Hsh' Hch'].
      intros [= <-]. simpl. split.
      * eapply same_shape_trans; eauto.
      * eapply same_chans_trans; eauto.
    + intros [= <-]. simpl. auto.
Qed.

Lemma evaluate_shape s d h ev probes rest s' :
  evaluate s d h ev probes rest = Ret s' ->
  same_shape h (hp s') /\ same_chans (miner s) (miner s').
Proof.
  unfold evaluate.
  destruct (SolveEquihash probes _ (miner s) h) as [r| |] eqn:Hr; simpl;
    try discriminate.
  apply SolveEquihash_shape in Hr. intros [= <-]. exact Hr.
Qed.

Lemma step_shape (s s' : Search Solution) :
  step s = Ret s' ->
  same_shape (hp s) (hp s') /\ same_chans (miner s) (miner s').
Proof.
  unfold step.
  destruct (pc s).
  - destruct (_ && _); intros [= <-];
      (split; [apply same_shape_refl|apply same_chans_refl]).
  - destruct (_ && _).
    2:{ intros [= <-]. split; [apply same_shape_refl|apply same_chans_refl]. }
    destruct (script s) as [|it rest].
    { intros [= <-]. split; [apply same_shape_refl|apply same_chans_refl]. }
    destruct (it_poll it) as [| |tk|].
    + intros [= <-]. split; [apply recv_shape|apply same_chans_refl].
    + intros [= <-]. split; [apply recv_shape|apply same_chans_refl].
    + destruct (updateBlockTime (data s) tk) as [[ok d'] ev].
      destruct ok; [apply evaluate_shape|].
      intros [= <-]. split; [apply same_shape_refl|apply same_chans_refl].
    + apply evaluate_shape.
  - intros [= <-]. split; [apply same_shape_refl|apply same_chans_refl].
Qed.

Lemma run_shape fuel : forall s s' : Search Solution,
  run fuel s = Ret s' ->
  same_shape (hp s) (hp s') /\ same_chans (miner s) (miner s').
Proof.
  induction fuel as [|fuel IH]; intros s s'; simpl.
  - intros [= <-]. split; [apply same_shape_refl|apply same_chans_refl].
  - destruct (step s) as [s1| |] eqn:Hstep; simpl; try discriminate.
    apply step_shape in Hstep as [Hsh Hch].
    intros Hrun. apply IH in Hrun as [Hsh' Hch'].
    split; [eapply same_shape_trans|eapply same_chans_trans]; eauto.
Qed.

Lemma solveBlock_shape fuel m h blk q term id st
  (sc : list (Iter Solution)) s :
  solveBlock fuel m h blk q term id st sc = Ret s ->
  same_shape h (hp s) /\ same_chans m (miner s).
Proof. intros Hrun. apply run_shape in Hrun. exact Hrun. Qed.

End ShapeFacts.

Section SafeFacts.
Context {Solution : Type} `{!External Solution}.

Lemma alloc_shape c h h' : same_shape h h' -> alloc c h -> alloc c h'.
Proof. intros [Hl _]. destruct c; simpl; [lia|auto]. Qed.

Lemma alloc_grows c (h ext : heap) : alloc c h -> alloc c (h ++ ext).
Proof. destruct c; simpl; [rewrite length_app; lia|auto]. Qed.

Lemma stoppers_safe_shape m h m' h' :
  stoppers_safe m h -> same_chans m m' -> same_shape h h' ->
  stoppers_safe m' h'.
Proof.
  intros (Hnd & Hall & Hrw & [Hqa Hq] & [Hsa Hs]) (Est & Erw & Eq & Es) Hsh.
  unfold stoppers_safe. rewrite Est, Erw, Eq, Es.
  split; [exact Hnd|]. split.
  { eapply Forall_impl; [exact Hall|]. intros c [Ho Hc].
    destruct Hsh as [_ Hsh]. destruct (Hsh c) as [-> ->]. auto. }
  split.
  { eapply Forall_impl; [exact Hrw|]. intros c [Ha Hc].
    split; [eapply alloc_shape; eauto|exact Hc]. }
  split; (split; [eapply alloc_shape; eauto|assumption]).
Qed.

Lemma stoppers_safe_grows m h ext :
  stoppers_safe m h -> stoppers_safe m (h ++ ext).
Proof.
  intros (Hnd & Hall & Hrw & [Hqa Hq] & [Hsa Hs]).
  split; [exact Hnd|]. split.
  { eapply Forall_impl; [exact Hall|]. intros c [Ho Hc].
    pose proof (heap_grows_open c h ext Ho) as Ho'.
    destruct (is_open_valid c h Ho) as (a & -> & Hlt).
    split; [exact Ho'|]. rewrite capacity_grows by exact Hlt. exact Hc. }
  split.
  { eapply Forall_impl; [exact Hrw|]. intros c [Ha Hc].
    split; [apply alloc_grows; exact Ha|exact Hc]. }
  split; (split; [apply alloc_grows; assumption|assumption]).
Qed.

Lemma stopper_allocated m h c :
  stoppers_safe m h -> c ∈ miningStoppper m ->
  exists a, c = Some a /\ (a < length h)%nat.
Proof.
  intros (_ & Hall & _) Hc. rewrite Forall_forall in Hall.
  destruct (Hall c Hc) as [Ho _]. apply is_open_valid. exact Ho.
Qed.

Lemma fresh_not_stopper m h (k : nat) :
  stoppers_safe m h -> Some (length h + k)%nat ∉ miningStoppper m.
Proof.
  intros Hsafe Hin.
  destruct (stopper_allocated m h _ Hsafe Hin) as (a & [= <-] & Hlt). lia.
Qed.

Lemma close_chan_capacity c h h' :
  close_chan c h = Ret h' ->
  length h' = length h /\ forall c', capacity c' h' = capacity c' h.
Proof.
  destruct c as [a|]; simpl; [|discriminate].
  destruct (h !! a) as [st|] eqn:Ha; [|discriminate].
  destruct (ch_closed st); [discriminate|]. intros [= <-].
  pose proof (lookup_lt_Some _ _ _ Ha) as Hlt.
  split; [apply length_insert|].
  intros [a'|]; simpl; [|reflexivity].
  destruct (decide (a = a')) as [<-|Hne].
  - rewrite list_lookup_insert_eq by exact Hlt. rewrite Ha. reflexivity.
  - rewrite list_lookup_insert_ne by exact Hne. reflexivity.
Qed.

(** Closing a channel that is not an abandon channel. *)
Lemma stoppers_safe_close m h c h' :
  stoppers_safe m h -> close_chan c h = Ret h' -> c ∉ miningStoppper m ->
  stoppers_safe m h'.
Proof.
  intros (Hnd & Hall & Hrw & [Hqa Hq] & [Hsa Hs]) Hclose Hnin.
  destruct (close_chan_capacity _ _ _ Hclose) as [Hlen Hcap].
  destruct (close_chan_sound _ _ _ Hclose) as (_ & _ & Hopen).
  assert (forall c', alloc c' h -> alloc c' h') as Halloc.
  { intros [a|]; simpl; [lia|auto]. }
  split; [exact Hnd|]. split.
  { rewrite Forall_forall in Hall |- *. intros c' Hc'.
    destruct (Hall c' Hc') as [Ho Hc1].
    rewrite Hcap, Hopen; [auto|]. intros ->. contradiction. }
  split.
  { eapply Forall_impl; [exact Hrw|]. intros c' [Ha Hc']. auto. }
  split; (split; [auto|assumption]).
Qed.

Lemma none_not_stopper m h : stoppers_safe m h -> None ∉ miningStoppper m.
Proof.
  intros Hsafe Hin.
  destruct (stopper_allocated m h _ Hsafe Hin) as (a & [=] & _).
Qed.

Lemma Start_safe m h ev m' h' ev' :
  stoppers_safe m h -> Start (m, h, ev) = (m', h', ev') ->
  stoppers_safe m' h'.
Proof.
  intros Hsafe. unfold Start.
  destruct (started m || discreteMining m).
  { intros [= <- <- <-]. exact Hsafe. }
  unfold make_chan. intros [= <- <- <-].
  pose proof (fresh_not_stopper m h 0 Hsafe) as Hf0.
  pose proof (fresh_not_stopper m h 1 Hsafe) as Hf1.
  rewrite Nat.add_0_r in Hf0.
  apply (stoppers_safe_grows m h
           ([mkChan 0 0 false] ++ [mkChan 0 0 false])) in Hsafe.
  rewrite app_assoc in Hsafe.
  destruct Hsafe as (Hnd & Hall & Hrw & _ & _).
  split; [exact Hnd|]. split; [exact Hall|]. split; [exact Hrw|].
  cbn [quit speedMonitorQuit miningStoppper set_started set_wg
       set_speedMonitorQuit set_quit].
  unfold alloc. rewrite !length_app. simpl.
  split; (split; [lia|]); [exact Hf0|exact Hf1].
Qed.

Lemma Stop_safe m h ev m' h' ev' :
  stoppers_safe m h -> Stop (m, h, ev) = Ret (m', h', ev') ->
  stoppers_safe m' h'.
Proof.
  intros Hsafe. unfold Stop.
  destruct (negb (started m) || discreteMining m).
  { intros [= <- <- <-]. exact Hsafe. }
  destruct (close_chan (quit m) h) as [h1| |] eqn:Hclose; simpl;
    try discriminate.
  intros [= <- <- <-].
  eapply (stoppers_safe_shape m h1); [|repeat split|apply same_shape_refl].
  eapply stoppers_safe_close; [exact Hsafe|exact Hclose|].
  apply Hsafe.
Qed.

Lemma SetNumWorkers_safe n m h ev m' h' ev' :
  stoppers_safe m h -> SetNumWorkers n (m, h, ev) = Ret (m', h', ev') ->
  stoppers_safe m' h'.
Proof.
  intros Hsafe. unfold SetNumWorkers.
  match goal with
  | |- context [res_bind ?x _] =>
      destruct x as [[[m1 h1] ev1]| |] eqn:Hw1
  end; simpl; try discriminate.
  assert (stoppers_safe m1 h1) as Hsafe1.
  { destruct (n =? 0).
    - eapply Stop_safe; eauto.
    - injection Hw1 as <- <- <-. exact Hsafe. }
  intros Hret.
  assert (same_chans m1 m' /\ h' = h1) as [Hch ->].
  { destruct (n <? 0); simpl in Hret;
      match type of Hret with
      | (if ?b then _ else _) = _ => destruct b
      end; injection Hret as <- <- <-; split; repeat split. }
  eapply stoppers_safe_shape; [exact Hsafe1|exact Hch|apply same_shape_refl].
Qed.

Lemma launch_one_safe m h ev m' h' ev' :
  stoppers_safe m h -> launch_one (m, h, ev) = (m', h', ev') ->
  stoppers_safe m' h'.
Proof.
  intros Hsafe. rewrite launch_one_eq. intros [= <- <- <-].
  pose proof (fresh_not_stopper m h 0 Hsafe) as Hf0.
  pose proof (fresh_not_stopper m h 1 Hsafe) as Hf1.
  rewrite Nat.add_0_r in Hf0.
  assert (forall c, alloc c h -> c <> Some (length h + 1)%nat) as Hold.
  { intros [a|] Ha; [|discriminate]. simpl in Ha. intros [= ->]. lia. }
  assert (length (h ++ [mkChan 0 0 false]) = (length h + 1)%nat) as Hl1
    by (rewrite length_app; reflexivity).
  assert (((h ++ [mkChan 0 0 false]) ++ [mkChan 1 0 false])
            !! (length h + 1)%nat = Some (mkChan 1 0 false)) as Hlook.
  { apply list_lookup_middle. symmetry. exact Hl1. }
  pose proof (stoppers_safe_grows m h
                ([mkChan 0 0 false] ++ [mkChan 1 0 false]) Hsafe) as Hbig.
  rewrite app_assoc in Hbig.
  destruct Hsafe as (_ & _ & Hrw0 & [Hqa0 _] & [Hsa0 _]).
  destruct Hbig as (Hnd & Hall & Hrw & [Hqa Hq] & [Hsa Hs]).
  unfold stoppers_safe.
  cbn [quit speedMonitorQuit miningStoppper runningWorkers set_workerWg
       set_miningStoppper set_runningWorkers].
  rewrite Hl1.
  split.
  { apply NoDup_app. split; [exact Hnd|].
    split; [|apply NoDup_singleton].
    intros c Hc Hin. apply list_elem_of_singleton in Hin. subst c.
    contradiction. }
  split.
  { apply Forall_app. split; [exact Hall|].
    rewrite Forall_singleton. simpl. rewrite Hlook. auto. }
  split.
  { apply Forall_app. split.
    - rewrite Forall_forall in Hrw, Hrw0 |- *. intros c Hc.
      destruct (Hrw c Hc) as [Ha Hnin]. destruct (Hrw0 c Hc) as [Ha0 _].
      split; [exact Ha|].
      rewrite elem_of_app, list_elem_of_singleton.
      intros [Hin|Heq]; [contradiction|]. exact (Hold _ Ha0 Heq).
    - rewrite Forall_singleton. split.
      + simpl. rewrite !length_app. simpl. lia.
      + rewrite elem_of_app, list_elem_of_singleton.
        intros [Hin|Heq]; [contradiction|]. injection Heq. lia. }
  split.
  - split; [exact Hqa|].
    rewrite elem_of_app, list_elem_of_singleton.
    intros [Hin|Heq]; [contradiction|]. exact (Hold _ Hqa0 Heq).
  - split; [exact Hsa|].
    rewrite elem_of_app, list_elem_of_singleton.
    intros [Hin|Heq]; [contradiction|]. exact (Hold _ Hsa0 Heq).
Qed.

Lemma launch_iter_safe (k : nat) : forall m h ev m' h' ev',
  stoppers_safe m h -> Nat.iter k launch_one (m, h, ev) = (m', h', ev') ->
  stoppers_safe m' h'.
Proof.
  induction k as [|k IH]; intros m h ev m' h' ev' Hsafe; simpl.
  - intros [= <- <- <-]. exact Hsafe.
  - destruct (Nat.iter k launch_one (m, h, ev)) as [[m1 h1] ev1] eqn:Hit.
    intros Hone. eapply launch_one_safe; [|exact Hone].
    eapply IH; eauto.
Qed.

Lemma stoppers_safe_running m h rw :
  stoppers_safe m h ->
  (forall c, c ∈ rw -> c ∈ runningWorkers m) ->
  stoppers_safe (set_runningWorkers m rw) h.
Proof.
  intros (Hnd & Hall & Hrw & Hq & Hs) Hsub.
  split; [exact Hnd|]. split; [exact Hall|]. split; [|split; assumption].
  simpl. rewrite Forall_forall in Hrw |- *. intros c Hc. apply Hrw, Hsub, Hc.
Qed.

Lemma controller_start_safe m h ev m' h' ev' :
  stoppers_safe m h -> controller_start (m, h, ev) = (m', h', ev') ->
  stoppers_safe m' h'.
Proof.
  intros Hsafe. unfold controller_start, launchWorkers.
  apply launch_iter_safe.
  apply stoppers_safe_running; [exact Hsafe|].
  intros c Hc. apply elem_of_nil in Hc. contradiction.
Qed.

Lemma retire_safe fuel : forall i m h ev m' h' ev',
  stoppers_safe m h -> retire fuel i (m, h, ev) = Ret (m', h', ev') ->
  stoppers_safe m' h'.
Proof.
  induction fuel as [|fuel IH]; intros i m h ev m' h' ev' Hsafe.
  - simpl. destruct (i >=? numWorkers m); [discriminate|].
    intros [= <- <- <-]. exact Hsafe.
  - cbn [retire]. destruct (i >=? numWorkers m).
    2:{ intros [= <- <- <-]. exact Hsafe. }
    destruct (index (runningWorkers m) i) as [c|] eqn:Hix; [|discriminate].
    destruct (close_chan c h) as [h1| |] eqn:Hclose; simpl; try discriminate.
    apply IH.
    apply index_elem_of in Hix.
    assert (c ∉ miningStoppper m) as Hnin.
    { destruct Hsafe as (_ & _ & Hrw & _). rewrite Forall_forall in Hrw.
      apply Hrw. exact Hix. }
    apply stoppers_safe_running.
    + eapply stoppers_safe_close; eauto.
    + intros c' Hc'. apply elem_of_take in Hc' as (j & Hj & Hlt).
      apply list_lookup_insert_Some in Hj as [(Heq & _ & _)|[Hne Hj]]; [lia|].
      eapply list_elem_of_lookup_2. exact Hj.
Qed.

Lemma on_updateNumWorkers_safe m h ev m' h' ev' :
  stoppers_safe m h -> on_updateNumWorkers (m, h, ev) = Ret (m', h', ev') ->
  stoppers_safe m' h'.
Proof.
  intros Hsafe. unfold on_updateNumWorkers.
  destruct (numWorkers m =? _).
  { intros [= <- <- <-]. exact Hsafe. }
  destruct (numWorkers m >? _).
  - intros [= Hl]. unfold launchWorkers in Hl.
    eapply launch_iter_safe; eauto.
  - apply retire_safe. exact Hsafe.
Qed.

Lemma close_all_safe cs : forall m h ev h' ev',
  stoppers_safe m h ->
  Forall (fun c => c ∉ miningStoppper m) cs ->
  close_all cs h ev = Ret (h', ev') ->
  stoppers_safe m h'.
Proof.
  induction cs as [|c cs IH]; intros m h ev h' ev' Hsafe Hnin; simpl.
  - intros [= <- _]. exact Hsafe.
  - apply Forall_cons in Hnin as [Hc Hrest].
    destruct (close_chan c h) as [h1| |] eqn:Hclose; simpl; try discriminate.
    apply IH; [|exact Hrest].
    eapply stoppers_safe_close; eauto.
Qed.

Lemma on_quit_safe m h ev m' h' ev' :
  stoppers_safe m h -> on_quit (m, h, ev) = Ret (m', h', ev') ->
  stoppers_safe m' h'.
Proof.
  intros Hsafe. unfold on_quit.
  destruct (close_all (runningWorkers m) h ev) as [[h1 ev1]| |] eqn:Hc;
    simpl; try discriminate.
  intros [= <- <- <-].
  eapply close_all_safe; [exact Hsafe| |exact Hc].
  destruct Hsafe as (_ & _ & Hrw & _).
  eapply Forall_impl; [exact Hrw|]. intros c [_ Hc']. exact Hc'.
Qed.

Lemma after_wait_safe m h ev m' h' ev' :
  stoppers_safe m h -> after_wait (m, h, ev) = Ret (m', h', ev') ->
  stoppers_safe m' h'.
Proof.
  intros Hsafe. unfold after_wait.
  destruct (close_chan (speedMonitorQuit m) h) as [h1| |] eqn:Hclose; simpl;
    try discriminate.
  intros [= <- <- <-].
  eapply (stoppers_safe_shape m h1); [|repeat split|apply same_shape_refl].
  eapply stoppers_safe_close; [exact Hsafe|exact Hclose|].
  apply Hsafe.
Qed.

Lemma solveBlock_safe_chans fuel m h blk q term id st
  (sc : list (Iter Solution)) s :
  stoppers_safe m h ->
  solveBlock fuel m h blk q term id st sc = Ret s ->
  stoppers_safe (miner s) (hp s).
Proof.
  intros Hsafe Hrun. apply solveBlock_shape in Hrun as [Hsh Hch].
  eapply stoppers_safe_shape; eauto.
Qed.

Lemma GenerateNBlocks_attempt_chans fuel m h blk st
  (sc : list (Iter Solution)) r s :
  stoppers_safe m h ->
  GenerateNBlocks_attempt fuel m h blk st sc r = Ret s ->
  stoppers_safe (miner s) (hp s)
  /\ speedMonitorQuit (miner s) = speedMonitorQuit m.
Proof.
  intros Hsafe. unfold GenerateNBlocks_attempt.
  destruct (solveBlock fuel m h blk None None 1 st sc) as [s0| |] eqn:Hrun;
    simpl; try discriminate.
  pose proof (solveBlock_safe_chans _ _ _ _ _ _ _ _ _ _ Hsafe Hrun) as Hs0.
  apply solveBlock_shape in Hrun as [_ (_ & _ & _ & Hsmq)].
  destruct (pc s0) as [| |[|]]; try (intros [= <-]; auto).
  destruct (submitBlock _ r) as [[ok line]|]; [|discriminate].
  intros [= <-]. auto.
Qed.

Lemma generate_loop_chans rounds : forall addrs n i hashes m h ev r,
  stoppers_safe m h ->
  generate_loop rounds addrs n i hashes (m, h, ev) = Ret r ->
  stoppers_safe r.2.1.1 r.2.1.2.
Proof.
  induction rounds as [|rd rest IH]; intros addrs n i hashes m h ev r Hsafe;
    simpl; [discriminate|].
  destruct (addrs =? 0)%nat; [discriminate|].
  destruct (rd_template rd) as [| |blk]; [apply IH; exact Hsafe..|].
  destruct (GenerateNBlocks_attempt _ m h blk _ _ _) as [s| |] eqn:Hatt;
    simpl; try discriminate.
  apply GenerateNBlocks_attempt_chans in Hatt as [Hs _]; [|exact Hsafe].
  destruct (pc s) as [| |[|]]; try discriminate.
  - destruct (index hashes i) as [x|]; [|discriminate].
    destruct (Word.u32 (i + 1) =? n).
    + destruct (close_chan _ (hp s)) as [h'| |] eqn:Hclose; simpl;
        try discriminate.
      intros [= <-]. cbn [fst snd].
      eapply (stoppers_safe_shape (miner s) h');
        [|repeat split|apply same_shape_refl].
      eapply stoppers_safe_close; [exact Hs|exact Hclose|]. apply Hs.
    + apply IH. exact Hs.
  - apply IH. exact Hs.
Qed.

Lemma GenerateNBlocks_safe sup addrs n (rounds : list (Round Solution))
  m h ev r :
  stoppers_safe m h ->
  GenerateNBlocks sup addrs n rounds (m, h, ev) = Ret r ->
  stoppers_safe r.2.1.1 r.2.1.2.
Proof.
  intros Hsafe. unfold GenerateNBlocks.
  destruct (negb sup); [intros [= <-]; exact Hsafe|].
  destruct (started m || discreteMining m); [intros [= <-]; exact Hsafe|].
  unfold make_chan.
  destruct (generate_loop rounds addrs n 0 _ _) as [r1| |] eqn:Hloop; simpl;
    try discriminate.
  intros [= <-]. cbn [fst snd].
  eapply generate_loop_chans; [|exact Hloop].
  pose proof (fresh_not_stopper m h 0 Hsafe) as Hf0.
  rewrite Nat.add_0_r in Hf0.
  apply (stoppers_safe_grows m h [mkChan 0 0 false]) in Hsafe.
  destruct Hsafe as (Hnd & Hall & Hrw & Hq & _).
  split; [exact Hnd|]. split; [exact Hall|]. split; [exact Hrw|].
  split; [exact Hq|].
  split; [|exact Hf0]. simpl. rewrite length_app. simpl. lia.
Qed.

Lemma perform_safe (a : Action Solution) m h ev m' h' ev' :
  stoppers_safe m h -> perform a (m, h, ev) = Ret (m', h', ev') ->
  stoppers_safe m' h'.
Proof.
  intros Hsafe.
  destruct a as [op| | | | |fuel blk q term id st sc|sup addrs n rounds];
    cbn [perform].
  - destruct op as [| |n]; cbn [apply_op].
    + intros [= Hs]. eapply (Start_safe m h ev); [exact Hsafe|exact Hs].
    + eapply Stop_safe; eauto.
    + eapply SetNumWorkers_safe; eauto.
  - intros [= Hs].
    eapply (controller_start_safe m h ev); [exact Hsafe|exact Hs].
  - eapply on_updateNumWorkers_safe; eauto.
  - eapply on_quit_safe; eauto.
  - eapply after_wait_safe; eauto.
  - unfold generateBlocks_attempt.
    destruct (solveBlock fuel m h blk q term id st sc) as [s| |] eqn:Hrun;
      simpl; try discriminate.
    intros [= <- <- <-]. eapply solveBlock_safe_chans; eauto.
  - destruct (GenerateNBlocks sup addrs n rounds (m, h, ev)) as [r| |] eqn:Hg;
      simpl; try discriminate.
    intros Hret. apply GenerateNBlocks_safe in Hg; [|exact Hsafe].
    destruct r as [x [[m1 h1] ev1]]. injection Hret as <- <- <-. exact Hg.
Qed.

Lemma perform_all_safe (acts : list (Action Solution)) : forall m h ev m' h' ev',
  stoppers_safe m h -> perform_all acts (m, h, ev) = Ret (m', h', ev') ->
  stoppers_safe m' h'.
Proof.
  induction acts as [|a rest IH]; intros m h ev m' h' ev' Hsafe; simpl.
  - intros [= <- <- <-]. exact Hsafe.
  - destruct (perform a (m, h, ev)) as [[[m1 h1] ev1]| |] eqn:Hp; simpl;
      try discriminate.
    apply IH. eapply perform_safe; eauto.
Qed.

Lemma newCPUMiner_safe : stoppers_safe newCPUMiner [].
Proof.
  unfold stoppers_safe. simpl.
  split; [constructor|]. split; [constructor|]. split; [constructor|].
  split; (split; [exact I|apply not_elem_of_nil]).
Qed.

End SafeFacts.

Section SafeTheorems.
Context {Solution : Type} `{!External Solution}.

(** X9.  No operation of the file closes an abandon channel or reuses one as
    a quit channel. From a state in which the abandon channels are pairwise
    distinct, open, of capacity one and apart from the quit channels (the
    new miner is such a state), any sequence of supervisor calls, controller
    reactions, search sessions and discrete generations that returns ends in
    such a state again; there [notifyBlockDone] returns for every worker id,
    its best-effort sends never meeting a closed channel. *)
Theorem abandon_channels_are_never_closed
  (acts : list (Action Solution)) m h ev m' h' ev' :
  stoppers_safe m h ->
  perform_all acts (m, h, ev) = Ret (m', h', ev') ->
  stoppers_safe m' h'
  /\ forall ownTid, exists h'',
       notifyBlockDone m' ownTid h' = Ret h'' /\ stoppers_safe m' h''.
Proof.
  intros Hsafe Hrun.
  pose proof (perform_all_safe acts _ _ _ _ _ _ Hsafe Hrun) as Hsafe'.
  split; [exact Hsafe'|].
  intros ownTid. unfold notifyBlockDone.
  destruct (notify_from_returns
              (take (Z.to_nat (Word.u32 (Z.of_nat (length (miningStoppper m')))))
                 (miningStoppper m')) 0 ownTid h') as (h'' & Hn).
  { apply Forall_take. destruct Hsafe' as (_ & Hall & _).
    eapply Forall_impl; [exact Hall|]. intros c [Ho _]. exact Ho. }
  exists h''. split; [exact Hn|].
  eapply stoppers_safe_shape;
    [exact Hsafe'|apply same_chans_refl|eapply notify_from_shape; exact Hn].
Qed.

End SafeTheorems.

Lemma abandon_channels_witness :
  exists m' h' ev',
    @perform_all _ Reference.collaborators
      [ActOp OpStart; ActControllerStart;
       ActOp (OpSetNumWorkers 2); ActResize;
       ActSession 4 Reference.template (Some 4%nat) (Some 5%nat) 2
         Reference.entry
         [mkIter PollDefault [Candidate Reference.good Reference.accepted]];
       ActOp OpStop; ActShutdown; ActAfterWait]
      (Reference.miner0, [], [])
    = Ret (m', h', ev')
    /\ miningStoppper m' = [Some 3%nat; Some 5%nat]
    /\ stoppers_safe m' h'.
Proof.
  pose proof (@abandon_channels_are_never_closed _ Reference.collaborators
                [ActOp OpStart; ActControllerStart;
                 ActOp (OpSetNumWorkers 2); ActResize;
                 ActSession 4 Reference.template (Some 4%nat) (Some 5%nat) 2
                   Reference.entry
                   [mkIter PollDefault
                      [Candidate Reference.good Reference.accepted]];
                 ActOp OpStop; ActShutdown; ActAfterWait]
                Reference.miner0 [] []) as Hsafe.
  destruct (@perform_all _ Reference.collaborators
              [ActOp OpStart; ActControllerStart;
               ActOp (OpSetNumWorkers 2); ActResize;
               ActSession 4 Reference.template (Some 4%nat) (Some 5%nat) 2
                 Reference.entry
                 [mkIter PollDefault
                    [Candidate Reference.good Reference.accepted]];
               ActOp OpStop; ActShutdown; ActAfterWait]
              (Reference.miner0, [], []))
    as [[[m' h'] ev']| |] eqn:Hrun;
    vm_compute in Hrun; try discriminate.
  exists m', h', ev'. split; [reflexivity|].
  split; [injection Hrun as <- _ _; reflexivity|].
  apply (Hsafe m' h' ev'); [|reflexivity].
  apply (@newCPUMiner_safe _ Reference.collaborators).
Defined.

(** ** Shutdown and repeated calls *)

Section ShutdownFacts.
Context {Solution : Type} `{!External Solution}.

Lemma mining_after_snoc b ops op :
  mining_after b (ops ++ [op])
  = match op with
    | OpStart => true
    | OpStop => false
    | OpSetNumWorkers n => if n =? 0 then false else mining_after b ops
    end.
Proof. unfold mining_after. rewrite foldl_app. reflexivity. Qed.


End ShutdownFacts.

Section ShutdownTheorems.
Context {Solution : Type} `{!External Solution}.

(** X10.  The controller's reaction to the quit signal on a well-formed
    active list does not panic: it closes the quit channel of every active
    worker, once each and in list order, and then waits for the workers; it
    opens or closes no channel outside the list (in particular not the speed
    monitor's) and leaves the miner as it is. *)
Theorem on_quit_closes_exactly_the_active_workers m h ev :
  ctl_wf m h ->
  exists h',
    on_quit (m, h, ev)
    = Ret (m, h', ev ++ map EvClose (runningWorkers m) ++ [EvWaitWorkers])
    /\ Forall (fun c => is_closed c h' = true) (runningWorkers m)
    /\ (forall c, c ∉ runningWorkers m ->
          is_open c h' = is_open c h /\ is_closed c h' = is_closed c h).
Proof.
  intros (Hnd & Hopen & _). unfold on_quit.
  destruct (close_all_ok (runningWorkers m) h ev Hnd Hopen)
    as (h' & -> & Hall & Hout).
  exists h'. simpl. rewrite <- app_assoc. auto.
Qed.

(** X11.  A wake-up that finds nothing to do changes nothing: once the
    controller has reacted to a resize signal for a target of at least one
    worker, a second reaction with the same target launches and retires no
    worker. *)
Theorem resize_is_idempotent m h ev :
  1 <= numWorkers m < 2 ^ 32 -> ctl_wf m h ->
  exists w',
    on_updateNumWorkers (m, h, ev) = Ret w'
    /\ on_updateNumWorkers w' = Ret w'.
Proof.
  intros Hn Hwf.
  destruct (resize_ok m h ev Hn Hwf)
    as (m' & h' & evs & Hrun & Hlen & Hnw & _).
  exists (m', h', ev ++ evs). split; [exact Hrun|].
  unfold on_updateNumWorkers.
  rewrite Hlen, Hnw, Z2Nat.id by lia.
  rewrite WordFacts.u32_id by (unfold Word.is_u32; lia).
  rewrite Z.eqb_refl. reflexivity.
Qed.


End ShutdownTheorems.

Lemma on_quit_witness :
  exists h',
    on_quit (Reference.pool2.1.1, Reference.pool2.1.2, [])
    = Ret (Reference.pool2.1.1, h',
           [EvClose (Some 0%nat); EvClose (Some 2%nat); EvWaitWorkers])
    /\ is_closed (Some 2%nat) h' = true
    /\ is_open (Some 3%nat) h' = true.
Proof.
  destruct (on_quit_closes_exactly_the_active_workers
              Reference.pool2.1.1 Reference.pool2.1.2 [])
    as (h' & Hrun & Hall & Hout).
  - vm_compute. split; [|split; [|reflexivity]].
    + apply (bool_decide_unpack _). vm_compute. exact I.
    + repeat constructor.
  - exists h'. split; [exact Hrun|].
    vm_compute in Hrun. injection Hrun as <-. split; reflexivity.
Defined.

Lemma resize_idempotent_witness :
  exists w',
    on_updateNumWorkers
      (set_numWorkers Reference.pool2.1.1 1, Reference.pool2.1.2, [])
    = Ret w'
    /\ on_updateNumWorkers w' = Ret w'
    /\ runningWorkers w'.1.1 = [Some 0%nat].
Proof.
  destruct (resize_is_idempotent
              (set_numWorkers Reference.pool2.1.1 1) Reference.pool2.1.2 [])
    as (w' & Hrun & Hagain).
  - simpl. lia.
  - vm_compute. split; [|split; [|reflexivity]].
    + apply (bool_decide_unpack _). vm_compute. exact I.
    + repeat constructor.
  - exists w'. split; [exact Hrun|]. split; [exact Hagain|].
    vm_compute in Hrun. injection Hrun as <-. reflexivity.
Defined.


(** ** The pool worker *)

Section WorkerFacts.
Context {Solution : Type} `{!External Solution}.









End WorkerFacts.

Section WorkerTheorems.
Context {Solution : Type} `{!External Solution}.

(** X13.  A pool worker leaves its loop only by the quit case of the select
    at its top, and then takes itself off the worker wait group. By then it
    has handed to [submitBlock] exactly the blocks its sessions solved, each
    of them once and each meeting its target and passing the verifier, and
    it has changed the miner in nothing but the mined counters of these
    blocks' parents and the wait group. *)
Theorem generateBlocks_submits_each_solution_once
  simnet addrs (rounds : list (WorkerRound Solution)) q term id
  m h ev m' h' ev' :
  generateBlocks simnet addrs rounds q term id (m, h, ev)
  = Ret (m', h', ev') ->
  exists blocks,
    submitted ev' = submitted ev ++ blocks
    /\ Forall (fun b => is_solution paramN paramK b = true) blocks
    /\ m' = set_workerWg (mined_all m blocks) (workerWg m - 1)
    /\ Exists (fun rd => wr_quit rd = true) rounds.
Proof.
  revert m h ev m' h' ev'.
  induction rounds as [|rd rest IH]; intros m h ev m' h' ev'; simpl;
    [discriminate|].
  destruct (wr_quit rd) eqn:Hq.
  { intros [= <- <- <-]. exists []. rewrite app_nil_r.
    split; [reflexivity|]. split; [constructor|].
    split; [reflexivity|]. left. exact Hq. }
  destruct (addrs =? 0)%nat; [discriminate|].
  destruct (wr_template rd) as [| |blk].
  - intros Hrest. apply IH in Hrest as (bs & Hsubs & Hsols & Hm & Hx).
    exists bs. repeat (split; [assumption|]). right. exact Hx.
  - intros Hrest. apply IH in Hrest as (bs & Hsubs & Hsols & Hm & Hx).
    exists bs. repeat (split; [assumption|]). right. exact Hx.
  - destruct (simnet && _).
    { intros Hrest. apply IH in Hrest as (bs & Hsubs & Hsols & Hm & Hx).
      exists bs. repeat (split; [assumption|]). right. exact Hx. }
    unfold generateBlocks_attempt.
    destruct (solveBlock _ m h blk q term id _ _) as [s| |] eqn:Hrun;
      simpl; try discriminate.
    apply solveBlock_safe in Hrun.
    destruct Hrun as (_ & _ & Hsub & Hsol & Hmin & Hret & _).
    destruct (pc s) as [| |r]; try discriminate.
    intros Hrest. apply IH in Hrest as (bs & Hsubs & Hsols & Hm & Hx).
    destruct (solved (data s)) eqn:Hsolved.
    + exists (msgBlock (data s) :: bs).
      split; [rewrite Hsubs, submitted_app, Hsub, <- app_assoc; reflexivity|].
      split; [constructor; auto|].
      split; [|right; exact Hx].
      rewrite Hm, Hmin. reflexivity.
    + exists bs.
      split; [rewrite Hsubs, submitted_app, Hsub, app_nil_r; reflexivity|].
      split; [exact Hsols|]. split; [|right; exact Hx].
      rewrite Hm, Hmin. reflexivity.
Qed.


End WorkerTheorems.

Lemma generateBlocks_witness :
  exists m' h' ev' b,
    @generateBlocks _ Reference.collaborators false 1
      [mkWorkerRound false (TemplateBlock Reference.template) Reference.entry
         [mkIter PollDefault [Candidate Reference.good Reference.accepted]] 4;
       mkWorkerRound false TemplateNone Reference.entry [] 0;
       mkWorkerRound true TemplateNone Reference.entry [] 0]
      (Some 2%nat) (Some 3%nat) 1 Reference.pool2
    = Ret (m', h', ev')
    /\ submitted ev' = [b]
    /\ mined m' [7] = 1.
Proof.
  pose proof (@generateBlocks_submits_each_solution_once _
                Reference.collaborators false 1
                [mkWorkerRound false (TemplateBlock Reference.template)
                   Reference.entry
                   [mkIter PollDefault
                      [Candidate Reference.good Reference.accepted]] 4;
                 mkWorkerRound false TemplateNone Reference.entry [] 0;
                 mkWorkerRound true TemplateNone Reference.entry [] 0]
                (Some 2%nat) (Some 3%nat) 1
                Reference.pool2.1.1 Reference.pool2.1.2 Reference.pool2.2)
    as Hspec.
  change (Reference.pool2.1.1, Reference.pool2.1.2, Reference.pool2.2)
    with Reference.pool2 in Hspec.
  destruct (@generateBlocks _ Reference.collaborators false 1
              [mkWorkerRound false (TemplateBlock Reference.template)
                 Reference.entry
                 [mkIter PollDefault
                    [Candidate Reference.good Reference.accepted]] 4;
               mkWorkerRound false TemplateNone Reference.entry [] 0;
               mkWorkerRound true TemplateNone Reference.entry [] 0]
              (Some 2%nat) (Some 3%nat) 1 Reference.pool2)
    as [[[m' h'] ev']| |] eqn:Hrun;
    vm_compute in Hrun; try discriminate.
  destruct (Hspec m' h' ev' eq_refl) as (blocks & Hsub & _ & _ & _).
  assert (length (submitted ev') = 1%nat /\ mined m' [7] = 1) as [Hlen Hm].
  { injection Hrun as <- _ <-. split; reflexivity. }
  destruct (submitted ev') as [|b [|b' rest]] eqn:Hs; try discriminate.
  exists m', h', ev', b. split; [reflexivity|]. split; [exact Hs|exact Hm].
Defined.


(** ** The validator and the timer, call by call *)

Section CallFacts.
Context {Solution : Type} `{!External Solution}.

Lemma validate_code_range d m h (x : Probe Solution) v :
  validate d m h x = Ret v -> v_code v = 0 \/ v_code v = 1 \/ v_code v = 2.
Proof.
  unfold validate.
  destruct (exiting d); [intros [= <-]; simpl; auto|].
  destruct x as [p|s r].
  - destruct p as [| |tk|]; try (intros [= <-]; simpl; auto).
    destruct (updateBlockTime d tk) as [[ok d'] ev].
    destruct ok; intros [= <-]; simpl; auto.
  - cbv zeta.
    destruct (hash_meets_target (splice d s)); [|intros [= <-]; simpl; auto].
    match goal with
    | |- (if ?rc then _ else _) = _ -> _ => destruct rc
    end; [|intros [= <-]; simpl; auto].
    destruct (submitBlock _ r) as [[ok line]|]; [|discriminate].
    destruct (notifyBlockDone _ _ h) as [h'| |]; simpl; try discriminate.
    intros [= <-]. simpl. auto.
Qed.

(** X15.  One call of the validator on a session that is not solved,
    whatever the probe and whether or not the abort flag is set: the answer
    is 0, 1 or 2; it is 1 exactly when the call leaves the session solved,
    and then the call has handed one block to [submitBlock], the block the
    session now holds, which meets its target and passes the verifier, and
    has counted it on its parent; on any other answer it has submitted
    nothing and left the miner alone. *)
Theorem validate_submits_exactly_when_it_answers_one
  d m h (x : Probe Solution) v :
  solved d = false ->
  validate d m h x = Ret v ->
  let b := msgBlock (v_data v) in
  (v_code v = 0 \/ v_code v = 1 \/ v_code v = 2)
  /\ (v_code v = 1 <-> solved (v_data v) = true)
  /\ (v_code v = 1 ->
        submitted (v_events v) = [b]
        /\ is_solution (cbN d) (cbK d) b = true
        /\ v_miner v = count_mined m (PrevBlock (Header b)))
  /\ (v_code v = 0 \/ v_code v = 2 ->
        submitted (v_events v) = [] /\ v_miner v = m).
Proof.
  intros Hs Hv b.
  pose proof (validate_code_range _ _ _ _ _ Hv) as Hrange.
  destruct (validate_safe d m h x v Hs Hv) as (Hsafe & _ & Hone).
  destruct Hsafe as [_ _ Hsub Hsol Hmin _ _ _ _].
  split; [exact Hrange|]. split; [exact Hone|]. split.
  - intros Hc. apply Hone in Hc. rewrite Hc in Hsub, Hmin. auto.
  - intros Hc.
    destruct (solved (v_data v)) eqn:Hsolved; [|auto].
    destruct Hone as [_ Hone]. specialize (Hone eq_refl). lia.
Qed.

(** X16.  One call of [updateBlockTime]. Whatever it returns, it reports the
    hashes counted so far, resets the counter, and leaves the terminal
    flags, the creation time and the session's parameters alone. A session
    older than 60 seconds is declared stale before anything else is touched:
    template, header bytes and stored mempool stamp stay. A session not
    older than 3 seconds is not declared stale: the only failures left are
    those of the timestamp update and of the re-serialisation, and on
    success the session holds the updated template, its serialisation and
    the current mempool stamp. *)
Theorem updateBlockTime_by_age d tk :
  let r := updateBlockTime d tk in
  let d' := r.1.2 in
  (r.2 = [EvReport (hashesCompleted d)] /\ hashesCompleted d' = 0
   /\ solved d' = solved d /\ exiting d' = exiting d
   /\ lastGenerated d' = lastGenerated d
   /\ cbN d' = cbN d /\ cbK d' = cbK d)
  /\ (tk_Now60 tk > lastGenerated d + 60 * Second ->
      r.1.1 = false /\ msgBlock d' = msgBlock d
      /\ headerBytes d' = headerBytes d /\ lastTxUpdate d' = lastTxUpdate d)
  /\ (tk_Now3 tk <= lastGenerated d + 3 * Second ->
      tk_Now60 tk <= lastGenerated d + 60 * Second ->
      let u := tk_UpdateBlockTime tk (msgBlock d) in
      let ser := SerializeAllHeaderBytes (Header u.1) in
      lastTxUpdate d' = tk_LastUpdated' tk
      /\ msgBlock d' = u.1
      /\ (r.1.1 = true <-> u.2 = None /\ ser.2 = None)
      /\ (r.1.1 = true -> headerBytes d' = ser.1)).
Proof.
  cbv zeta.
  pose proof (updateBlockTime_frame d tk) as (Hsol & Hex & Hgen & _ & _ & _).
  pose proof (updateBlockTime_reports d tk) as (Hev & Hhc).
  pose proof (updateBlockTime_params d tk) as (Hn & Hk).
  split; [auto 10|]. split.
  - intros Hold.
    assert (stale d tk = true) as Hst.
    { apply stale_iff. right. exact Hold. }
    unfold updateBlockTime. rewrite stale_reset_hashes, Hst. simpl. auto.
  - intros Hyoung Hnot.
    assert (stale d tk = false) as Hst.
    { destruct (stale d tk) eqn:Hst; [|reflexivity].
      apply stale_iff in Hst. lia. }
    unfold updateBlockTime. rewrite stale_reset_hashes, Hst. simpl.
    destruct (tk_UpdateBlockTime tk (msgBlock d)) as [b [e|]]; simpl.
    { split; [reflexivity|]. split; [reflexivity|].
      split; [|discriminate]. split; [discriminate|]. intros [? _].
      discriminate. }
    destruct (SerializeAllHeaderBytes (Header b)) as [bytes [e|]]; simpl.
    { split; [reflexivity|]. split; [reflexivity|].
      split; [|discriminate]. split; [discriminate|]. intros [_ ?].
      discriminate. }
    split; [reflexivity|]. split; [reflexivity|]. split; [|reflexivity].
    split; auto.
Qed.

End CallFacts.

Lemma validate_submits_witness :
  exists v,
    @validate _ Reference.collaborators (Reference.session 0 0)
      Reference.miner0 [] (Candidate Reference.good Reference.accepted)
    = Ret v
    /\ v_code v = 1
    /\ submitted (v_events v) = [msgBlock (v_data v)].
Proof.
  pose proof (@validate_submits_exactly_when_it_answers_one _
                Reference.collaborators (Reference.session 0 0)
                Reference.miner0 []
                (Candidate Reference.good Reference.accepted)) as Hval.
  destruct (@validate _ Reference.collaborators (Reference.session 0 0)
              Reference.miner0 []
              (Candidate Reference.good Reference.accepted))
    as [v| |] eqn:Hrun;
    vm_compute in Hrun; try discriminate.
  exists v. split; [reflexivity|].
  assert (v_code v = 1) as Hc by (injection Hrun as <-; reflexivity).
  split; [exact Hc|].
  destruct (Hval v eq_refl eq_refl) as (_ & _ & Hone & _).
  apply Hone. exact Hc.
Defined.

Lemma updateBlockTime_by_age_witness :
  (@updateBlockTime _ Reference.collaborators (Reference.session 0 0)
     (Reference.tick (61 * Second) 0)).1.1 = false
  /\ (@updateBlockTime _ Reference.collaborators (Reference.session 0 0)
        (Reference.tick (2 * Second) 7)).1.1 = true.
Proof.
  destruct (@updateBlockTime_by_age _ Reference.collaborators
              (Reference.session 0 0) (Reference.tick (61 * Second) 0))
    as (_ & Hold & _).
  destruct (@updateBlockTime_by_age _ Reference.collaborators
              (Reference.session 0 0) (Reference.tick (2 * Second) 7))
    as (_ & _ & Hyoung).
  split.
  - apply Hold. vm_compute. reflexivity.
  - destruct Hyoung as (_ & _ & Hiff & _).
    + vm_compute. discriminate.
    + vm_compute. discriminate.
    + apply Hiff. split; reflexivity.
Defined.

(** ** Freedom from panics *)

Section PanicFacts.
Context {Solution : Type} `{!External Solution}.

Lemma updateBlockTime_coinbase d tk :
  keeps_coinbase tk -> has_coinbase (msgBlock d) ->
  has_coinbase (msgBlock (updateBlockTime d tk).1.2).
Proof.
  intros Hk Hb. unfold updateBlockTime.
  destruct (stale _ tk); simpl; [exact Hb|].
  specialize (Hk (msgBlock d) Hb).
  destruct (tk_UpdateBlockTime tk (msgBlock d)) as [b [e|]]; simpl in *;
    [exact Hk|].
  destruct (SerializeAllHeaderBytes _) as [bytes [e|]]; simpl; exact Hk.
Qed.

Lemma notifyBlockDone_returns m ownTid h :
  stoppers_safe m h -> exists h', notifyBlockDone m ownTid h = Ret h'.
Proof.
  intros (_ & Hall & _). unfold notifyBlockDone.
  apply notify_from_returns. apply Forall_take.
  eapply Forall_impl; [exact Hall|]. intros c [Ho _]. exact Ho.
Qed.

Lemma validate_returns d m h (x : Probe Solution) :
  stoppers_safe m h -> has_coinbase (msgBlock d) ->
  probe_keeps_coinbase x ->
  exists v, validate d m h x = Ret v /\ has_coinbase (msgBlock (v_data v)).
Proof.
  intros Hsafe Hb Hk. unfold validate.
  destruct (exiting d); [eexists; split; [reflexivity|exact Hb]|].
  destruct x as [p|s r].
  - destruct p as [| |tk|];
      try (eexists; split; [reflexivity|exact Hb]).
    pose proof (updateBlockTime_coinbase d tk Hk Hb) as Hb'.
    destruct (updateBlockTime d tk) as [[ok d'] ev]. cbn [fst snd] in Hb'.
    destruct ok; eexists; split; try reflexivity; exact Hb'.
  - cbv zeta.
    destruct (hash_meets_target (splice d s));
      [|eexists; split; [reflexivity|exact Hb]].
    match goal with
    | |- context [if ?rc then _ else _] => destruct rc
    end; [|eexists; split; [reflexivity|exact Hb]].
    match goal with
    | |- context [submitBlock ?b r] =>
        destruct (submitBlock_returns b r) as (ok & line & ->); [exact Hb|]
    end.
    match goal with
    | |- context [notifyBlockDone ?m' ?t h] =>
        destruct (notifyBlockDone_returns m' t h) as (h' & ->)
    end.
    { eapply stoppers_safe_shape;
        [exact Hsafe|repeat split|apply same_shape_refl]. }
    simpl. eexists. split; [reflexivity|exact Hb].
Qed.

Lemma SolveEquihash_returns probes : forall d m h,
  stoppers_safe m h -> has_coinbase (msgBlock d) ->
  Forall probe_keeps_coinbase probes ->
  exists r, SolveEquihash probes d m h = Ret r
    /\ has_coinbase (msgBlock (sv_data r)).
Proof.
  induction probes as [|x rest IH]; intros d m h Hsafe Hb Hk; simpl.
  - eexists. split; [reflexivity|exact Hb].
  - apply Forall_cons in Hk as [Hx Hrest].
    destruct (validate_returns d m h x Hsafe Hb Hx) as (v & Hv & Hb').
    rewrite Hv. simpl.
    destruct (v_code v =? 0).
    + apply validate_shape in Hv as [Hsh Hch].
      destruct (IH (v_data v) (v_miner v) (v_heap v)) as (r & Hr & Hb'');
        [eapply stoppers_safe_shape; eauto|exact Hb'|exact Hrest|].
      rewrite Hr. simpl. eexists. split; [reflexivity|exact Hb''].
    + eexists. split; [reflexivity|exact Hb'].
Qed.

Lemma evaluate_returns s d h ev probes rest :
  stoppers_safe (miner s) h -> has_coinbase (msgBlock d) ->
  Forall probe_keeps_coinbase probes ->
  Forall iter_keeps_coinbase rest ->
  exists s', evaluate s d h ev probes rest = Ret s' /\ search_ok s'.
Proof.
  intros Hsafe Hb Hk Hrest. unfold evaluate.
  match goal with
  | |- context [SolveEquihash probes ?d1 (miner s) h] =>
      destruct (SolveEquihash_returns probes d1 (miner s) h Hsafe Hb Hk)
        as (r & Hr & Hb')
  end.
  rewrite Hr. simpl. eexists. split; [reflexivity|].
  apply SolveEquihash_shape in Hr as [Hsh Hch].
  split; [|split]; simpl; [|exact Hb'|exact Hrest].
  eapply stoppers_safe_shape; eauto.
Qed.

Lemma step_returns (s : Search Solution) :
  search_ok s -> exists s', step s = Ret s' /\ search_ok s'.
Proof.
  intros (Hsafe & Hb & Hk). unfold step.
  destruct (pc s).
  - destruct (_ && _); eexists; (split; [reflexivity|]);
      (split; [exact Hsafe|split; [exact Hb|exact Hk]]).
  - destruct (_ && _);
      [|eexists; split; [reflexivity|];
        (split; [exact Hsafe|split; [exact Hb|exact Hk]])].
    destruct (script s) as [|it rest] eqn:Hsc.
    { exists s. split; [reflexivity|]. unfold search_ok. rewrite Hsc.
      split; [exact Hsafe|split; [exact Hb|exact Hk]]. }
    apply Forall_cons in Hk as [[Hpoll Hprobes] Hrest].
    destruct (it_poll it) as [| |tk|].
    + eexists. split; [reflexivity|].
      split; [|split; [exact Hb|exact Hrest]]. simpl.
      eapply stoppers_safe_shape;
        [exact Hsafe|apply same_chans_refl|apply recv_shape].
    + eexists. split; [reflexivity|].
      split; [|split; [exact Hb|exact Hrest]]. simpl.
      eapply stoppers_safe_shape;
        [exact Hsafe|apply same_chans_refl|apply recv_shape].
    + pose proof (updateBlockTime_coinbase (data s) tk Hpoll Hb) as Hb'.
      destruct (updateBlockTime (data s) tk) as [[ok d'] ev].
      cbn [fst snd] in Hb'.
      destruct ok.
      * apply evaluate_returns; assumption.
      * eexists. split; [reflexivity|].
        split; [exact Hsafe|split; [exact Hb'|exact Hrest]].
    + apply evaluate_returns; assumption.
  - exists s. split; [reflexivity|].
    split; [exact Hsafe|split; [exact Hb|exact Hk]].
Qed.

Lemma run_returns fuel : forall s : Search Solution,
  search_ok s -> exists s', run fuel s = Ret s' /\ search_ok s'.
Proof.
  induction fuel as [|fuel IH]; intros s Hok; simpl.
  - exists s. auto.
  - destruct (step_returns s Hok) as (s1 & -> & Hok1). simpl.
    apply IH. exact Hok1.
Qed.

End PanicFacts.

Section LoopPanicFacts.
Context {Solution : Type} `{!External Solution}.

Lemma index_in_range {A : Type} (l : list A) (i : Z) :
  0 <= i < Z.of_nat (length l) -> exists x, index l i = Some x.
Proof.
  intros Hi. unfold index.
  replace (0 <=? i) with true by (symmetry; apply Z.leb_le; lia).
  replace (i <? Z.of_nat (length l)) with true
    by (symmetry; apply Z.ltb_lt; lia).
  simpl. apply lookup_lt_is_Some_2. lia.
Qed.

Lemma GenerateNBlocks_attempt_returns fuel m h blk st
  (sc : list (Iter Solution)) r :
  stoppers_safe m h -> has_coinbase blk ->
  Forall iter_keeps_coinbase sc ->
  exists s,
    GenerateNBlocks_attempt fuel m h blk st sc r = Ret s
    /\ stoppers_safe (miner s) (hp s)
    /\ same_shape h (hp s) /\ same_chans m (miner s).
Proof.
  intros Hsafe Hb Hk. unfold GenerateNBlocks_attempt.
  destruct (run_returns fuel (solveBlock_init m h blk None None 1 st sc))
    as (s & Hrun & Hsafe' & Hb' & _);
    [split; [exact Hsafe|split; [exact Hb|exact Hk]]|].
  fold (solveBlock fuel m h blk None None 1 st sc) in Hrun.
  rewrite Hrun. simpl.
  apply solveBlock_shape in Hrun as [Hsh Hch].
  destruct (pc s) as [| |[|]].
  - exists s. auto.
  - exists s. auto.
  - destruct (submitBlock_returns (msgBlock (data s)) r Hb')
      as (ok & line & ->).
    eexists. split; [reflexivity|]. simpl. auto.
  - exists s. auto.
Qed.

Lemma generate_loop_no_panic (rounds : list (Round Solution)) :
  forall addrs n i hashes m h ev,
  (0 < addrs)%nat -> 0 <= i < n -> n < 2 ^ 32 ->
  Z.of_nat (length hashes) = n ->
  stoppers_safe m h -> is_open (speedMonitorQuit m) h = true ->
  Forall round_ok rounds ->
  no_panic (generate_loop rounds addrs n i hashes (m, h, ev)).
Proof.
  induction rounds as [|rd rest IH];
    intros addrs n i hashes m h ev Ha Hi Hn Hlen Hsafe Hopen Hok; simpl;
    [right; reflexivity|].
  apply Forall_cons in Hok as [[Htpl Hsc] Hok].
  destruct (addrs =? 0)%nat eqn:Hz; [apply Nat.eqb_eq in Hz; lia|].
  destruct (rd_template rd) as [| |blk]; [apply IH; assumption..|].
  destruct (GenerateNBlocks_attempt_returns (rd_fuel rd) m h blk
              (rd_entry rd) (rd_script rd) (rd_process rd) Hsafe Htpl Hsc)
    as (s & -> & Hsafe' & Hsh & Hch).
  simpl.
  assert (is_open (speedMonitorQuit (miner s)) (hp s) = true) as Hopen'.
  { destruct Hch as (_ & _ & _ & ->). destruct Hsh as [_ Hsh].
    destruct (Hsh (speedMonitorQuit m)) as [-> _]. exact Hopen. }
  destruct (pc s) as [| |[|]]; [right; reflexivity..| |].
  - destruct (index_in_range hashes i ltac:(lia)) as (x & ->).
    rewrite WordFacts.u32_id by (unfold Word.is_u32; lia).
    destruct (i + 1 =? n) eqn:Hend.
    + destruct (close_chan_open _ _ Hopen') as (h' & -> & _).
      simpl. left. eauto.
    + apply Z.eqb_neq in Hend.
      apply IH; try assumption; [lia|].
      rewrite length_insert. exact Hlen.
  - apply IH; assumption.
Qed.

End LoopPanicFacts.

Section PanicTheorems.
Context {Solution : Type} `{!External Solution}.

(** X17.  A search session does not panic. Started in a state whose abandon
    channels are safe, on a template with a coinbase transaction, with
    timestamp updates that keep it, [solveBlock] can be followed for any
    number of steps, whatever the signals, ticks and candidates: neither the
    validator's indexing of the first transaction nor its sends to the other
    workers fail; and the state reached is again one from which the search
    can go on. *)
Theorem solveBlock_never_panics fuel m h blk q term id st
  (sc : list (Iter Solution)) :
  stoppers_safe m h -> has_coinbase blk ->
  Forall iter_keeps_coinbase sc ->
  exists s, solveBlock fuel m h blk q term id st sc = Ret s /\ search_ok s.
Proof.
  intros Hsafe Hb Hk. unfold solveBlock. apply run_returns.
  split; [exact Hsafe|split; [exact Hb|exact Hk]].
Qed.

(** X18.  [GenerateNBlocks(n)] for [n] of at least one does not panic, given
    at least one mining address, safe abandon channels and templates with a
    coinbase that the timestamp updates keep: the hashes are stored within
    the slice, both submissions of a solved block find its coinbase, and the
    speed monitor's quit channel, made at the start, is still open when it
    is closed at the end. *)
Theorem GenerateNBlocks_never_panics_for_positive_n
  sup addrs n (rounds : list (Round Solution)) m h ev :
  (0 < addrs)%nat -> 1 <= n < 2 ^ 32 ->
  stoppers_safe m h ->
  Forall round_ok rounds ->
  no_panic (GenerateNBlocks sup addrs n rounds (m, h, ev)).
Proof.
  intros Ha Hn Hsafe Hok. unfold GenerateNBlocks.
  destruct (negb sup); [left; eauto|].
  destruct (started m || discreteMining m); [left; eauto|].
  unfold make_chan.
  match goal with
  | |- context [generate_loop rounds addrs n 0 ?hs (?m1, ?h1, ?ev1)] =>
      destruct (generate_loop_no_panic rounds addrs n 0 hs m1 h1 ev1)
        as [(r & ->)| ->]
  end; try assumption; try lia.
  - rewrite length_replicate. lia.
  - pose proof (fresh_not_stopper m h 0 Hsafe) as Hf0.
    rewrite Nat.add_0_r in Hf0.
    apply (stoppers_safe_grows m h [mkChan 0 0 false]) in Hsafe.
    destruct Hsafe as (Hnd & Hall & Hrw & Hq & _).
    split; [exact Hnd|]. split; [exact Hall|]. split; [exact Hrw|].
    split; [exact Hq|].
    split; [|exact Hf0]. simpl. rewrite length_app. simpl. lia.
  - simpl. rewrite list_lookup_middle by reflexivity. reflexivity.
  - left. simpl. eauto.
  - right. reflexivity.
Qed.


End PanicTheorems.

Lemma solveBlock_never_panics_witness :
  exists s,
    @solveBlock _ Reference.collaborators 4 Reference.miner0 []
      Reference.template None None 1 Reference.entry
      [mkIter (PollTick (Reference.tick 1 0))
         [Candidate Reference.good Reference.accepted]]
    = Ret s
    /\ search_ok s.
Proof.
  apply (@solveBlock_never_panics _ Reference.collaborators).
  - apply (@newCPUMiner_safe _ Reference.collaborators).
  - vm_compute. discriminate.
  - constructor; [|constructor]. split.
    + intros b Hb. exact Hb.
    + repeat constructor.
Defined.

Lemma GenerateNBlocks_never_panics_witness :
  exists r,
    @GenerateNBlocks _ Reference.collaborators true 1 2
      (replicate 2
         (mkRound (TemplateBlock Reference.template) Reference.entry
            [mkIter PollDefault [Candidate Reference.good Reference.accepted]]
            4 Reference.duplicate))
      (Reference.miner0, [], [])
    = Ret r.
Proof.
  destruct (@GenerateNBlocks_never_panics_for_positive_n _
              Reference.collaborators true 1 2
              (replicate 2
                 (mkRound (TemplateBlock Reference.template) Reference.entry
                    [mkIter PollDefault
                       [Candidate Reference.good Reference.accepted]]
                    4 Reference.duplicate))
              Reference.miner0 [] []) as [Hret|Hfuel].
  - lia.
  - lia.
  - apply (@newCPUMiner_safe _ Reference.collaborators).
  - simpl. repeat constructor; vm_compute; discriminate.
  - exact Hret.
  - vm_compute in Hfuel. discriminate.
Defined.

